(** * Relay core of the poly cross-chain network: block store, header sync, dispatcher

    A shallow embedding of three Go sources and the properties stated about them:

    - [ledgerstore]: the block store ([BlockStore], package [ledgerstore]);
    - [ont]: the ONT header-sync handler ([ONTHandler.SyncBlockHeader]);
    - [cross_chain_manager]: the cross-chain entrance ([ImportExTransfer]).

    Go values are modelled as the code has them: [uint32]/[uint64] as [Z] with the
    wrap-around written out, byte slices as [list Byte.byte], a [common.Uint256]
    as a vector of 32 bytes, [(value, error)] returns as [result], methods on a
    pointer receiver as functions that take the receiver's state and return the
    new one.  Collaborators whose code lies outside these three sources are taken
    as parameters (a type class per package) or, where a property depends on how
    they behave, modelled from the specification; each such definition says so. *)

From Stdlib Require Import ZArith Lia.
From Stdlib.Strings Require Import Byte.
From stdpp Require Import gmap strings list vector fin_maps.

#[local] Open Scope Z_scope.

(** ** Part I: definitions *)

(** *** Go values: bytes, fixed-width integers, errors *)

Module Go.

Abbreviation bytes := (list byte).

#[global] Instance byte_eq_dec : EqDecision byte := Byte.byte_eq_dec.

#[global] Instance byte_countable : Countable byte :=
  inj_countable Byte.to_N Byte.of_N Byte.of_to_N.

(** [byte(v)]: the low eight bits of an integer. *)
Definition byte_of_Z (v : Z) : byte :=
  default x00 (Byte.of_N (Z.to_N (v mod 256))).

Definition Z_of_byte (b : byte) : Z := Z.of_N (Byte.to_N b).

(** [uint32(v)] and [uint64(v)]: conversion wraps around. *)
Definition uint32 (v : Z) : Z := v mod 2 ^ 32.
Definition uint64 (v : Z) : Z := v mod 2 ^ 64.

(** [binary.LittleEndian.PutUint32]. *)
Definition PutUint32 (v : Z) : bytes :=
  [byte_of_Z v; byte_of_Z (Z.shiftr v 8);
   byte_of_Z (Z.shiftr v 16); byte_of_Z (Z.shiftr v 24)].

(** [binary.LittleEndian.Uint32] on four bytes. *)
Definition Uint32 (b0 b1 b2 b3 : byte) : Z :=
  Z.lor (Z_of_byte b0)
    (Z.lor (Z.shiftl (Z_of_byte b1) 8)
       (Z.lor (Z.shiftl (Z_of_byte b2) 16) (Z.shiftl (Z_of_byte b3) 24))).

(** Go's [error] values.  [fmt.Errorf] keeps its format string and its
    arguments; the sentinels the sources compare against or return are
    constructors of their own; [ErrOther] stands for any other error value a
    collaborator hands back (an I/O failure of the storage substrate, a failed
    signature check, ...). *)
Inductive error : Type :=
| ErrNotFound                                   (* scom.ErrNotFound *)
| ErrUnexpectedEOF                              (* io.ErrUnexpectedEOF *)
| ErrOther (msg : string)
| Errorf (format : string) (args : list fmt_arg)
with fmt_arg : Type :=
| ArgErr (e : error)
| ArgNum (n : Z)
| ArgHex (b : bytes).                           (* Uint256.ToHexString *)

(** A Go return [(value, error)] whose value is meaningful only when the error
    is nil. *)
Inductive result (A : Type) : Type :=
| Ok (a : A)
| Err (e : error).

Arguments Ok {A} a.
Arguments Err {A} e.

Definition is_Ok {A} (r : result A) : bool :=
  match r with Ok _ => true | Err _ => false end.

End Go.

Export Go.

(** *** The cross-chain entrance ([native/service/cross_chain_manager/entrance.go]) *)

Module cross_chain_manager.

(** [crosscommon.EntranceParam], the fields [ImportExTransfer] reads and logs. *)
Record EntranceParam : Type := {
  SourceChainID : Z;
  TargetChainID : Z;
  Height : Z;
  Proof : bytes;
  TxData : bytes;
  RelayerAddress : bytes;
  Value : bytes;
}.

(** [crosscommon.MakeTxParam], the deposit proposal a handler extracts from a
    proof.  The entrance reads [ToChainID] only. *)
Record MakeTxParam : Type := {
  TxHash : bytes;
  ToChainID : Z;
  ToAddress : bytes;
  Amount : Z;
}.

(** [side_chain_manager.SideChain]; the entrance reads [ChainId] only. *)
Record SideChain : Type := {
  ChainId : Z;
  Router : Z;
}.

(** The four concrete handler types [GetChainHandler] can return. *)
Inductive Handler : Type :=
| BTCHandler
| ETHHandler
| ONTHandler
| NEOHandler.

#[global] Instance Handler_eq_dec : EqDecision Handler.
Proof. solve_decision. Defined.

(** The calls the entrance makes on its collaborators, in the order made. *)
Inductive Call : Type :=
| Call_GetSideChain (chainid : Z)
| Call_MakeDepositProposal (h : Handler)
| Call_MakeTransaction (h : Handler) (p : MakeTxParam).

(** What [entrance.go] imports: the native service with its input, the
    side-chain registry, the chain-id constants and result bytes of [utils],
    the decoder of [EntranceParam], and the [crosscommon.ChainHandler]
    interface as implemented by the four handler types. *)
Class Native (NativeService : Type) : Type := {
  GetInput : NativeService -> bytes;
  EntranceParam_Deserialization : bytes -> result EntranceParam;
  GetSideChain : NativeService -> Z -> result SideChain;
  BTC_CHAIN_ID : Z;
  ETH_CHAIN_ID : Z;
  ONT_CHAIN_ID : Z;
  NEO_CHAIN_ID : Z;
  BYTE_FALSE : bytes;
  BYTE_TRUE : bytes;
  MakeDepositProposal :
    Handler -> NativeService -> result MakeTxParam * NativeService;
  MakeTransaction :
    Handler -> NativeService -> MakeTxParam -> option error * NativeService;
}.

Section Entrance.
Context {NativeService : Type} `{!Native NativeService}.

(** The native service together with the record of calls made on it. *)
Record World : Type := {
  native : NativeService;
  calls : list Call;
}.

(** Code that may return early with an error and that acts on the service. *)
Definition M (A : Type) : Type := World -> result A * World.

#[export] Instance M_ret : MRet M := fun A a w => (Ok a, w).

#[export] Instance M_bind : MBind M := fun A B f m w =>
  match m w with
  | (Ok a, w') => f a w'
  | (Err e, w') => (Err e, w')
  end.

Definition fail {A} (e : error) : M A := fun w => (Err e, w).

Definition record (c : Call) : M unit := fun w =>
  (Ok tt, {| native := native w; calls := calls w ++ [c] |}).

(** A read of the service: the state is left as it is. *)
Definition read {A} (f : NativeService -> result A) : M A := fun w =>
  (f (native w), w).

(** A call that may change the service; [wrap] is what the caller does with
    the callee's error. *)
Definition act {A} (f : NativeService -> result A * NativeService) : M A :=
  fun w =>
    let '(r, n') := f (native w) in (r, {| native := n'; calls := calls w |}).

Definition to_result (p : option error) : result unit :=
  match p with None => Ok tt | Some e => Err e end.

(** [if err != nil { return ..., fmt.Errorf(format, err) }]. *)
Definition wrapf {A} (format : string) (m : M A) : M A := fun w =>
  match m w with
  | (Ok a, w') => (Ok a, w')
  | (Err e, w') => (Err (Errorf format [ArgErr e]), w')
  end.

Definition GetChainHandler (chainid : Z) : result Handler :=
  if decide (chainid = BTC_CHAIN_ID) then Ok BTCHandler
  else if decide (chainid = ETH_CHAIN_ID) then Ok ETHHandler
  else if decide (chainid = ONT_CHAIN_ID) then Ok ONTHandler
  else if decide (chainid = NEO_CHAIN_ID) then Ok NEOHandler
  else Err (Errorf "not a supported chainid:%d" [ArgNum chainid]).

Definition call_GetSideChain (chainid : Z) : M SideChain :=
  record (Call_GetSideChain chainid);;
  wrapf "ImportExTransfer, side_chain_manager.GetSideChain error: %v"
    (read (fun n => GetSideChain n chainid)).

Definition call_MakeDepositProposal (h : Handler) : M MakeTxParam :=
  record (Call_MakeDepositProposal h);; act (MakeDepositProposal h).

Definition call_MakeTransaction (h : Handler) (p : MakeTxParam) : M unit :=
  record (Call_MakeTransaction h p);;
  act (fun n => let '(e, n') := MakeTransaction h n p in (to_result e, n')).

(** The body of [ImportExTransfer]; every [Err] is a
    [return utils.BYTE_FALSE, err] of the source, [Ok] its
    [return utils.BYTE_TRUE, nil]. *)
Definition ImportExTransfer_body : M unit :=
  params ← wrapf "ImportExTransfer, contract params deserialize error: %v"
             (read (fun n => EntranceParam_Deserialization (GetInput n)));
  let chainID := SourceChainID params in
  sideChain ← call_GetSideChain chainID;
  if decide (ChainId sideChain ≠ chainID)
  then fail (Errorf "ImportExTransfer, side chain is not registered" [])
  else
  handler ← read (fun _ => GetChainHandler chainID);
  if decide (chainID = 2 ∨ chainID = 3) then
    txParam ← call_MakeDepositProposal handler;
    let targetid := ToChainID txParam in
    sideChain ← call_GetSideChain targetid;
    if decide (ChainId sideChain ≠ targetid)
    then fail (Errorf "ImportExTransfer, targetid chain is not registered" [])
    else
    targetHandler ← read (fun _ => GetChainHandler targetid);
    call_MakeTransaction targetHandler txParam
  else
    _ ← call_MakeDepositProposal handler;
    mret tt.

(** [ImportExTransfer(native)]: the returned bytes and error, then the service
    as the call leaves it and the calls it made. *)
Definition ImportExTransfer (n : NativeService)
  : (bytes * option error) * NativeService * list Call :=
  match ImportExTransfer_body {| native := n; calls := [] |} with
  | (Ok _, w) => ((BYTE_TRUE, None), native w, calls w)
  | (Err e, w) => ((BYTE_FALSE, Some e), native w, calls w)
  end.

End Entrance.

Arguments World : clear implicits.
Arguments M : clear implicits.

(** What [Vote], [MultiSign] and [InitRedeemScript] call on the handler that
    [btc.NewBTCHandler()] returns.  [BTCHandler_Vote] gives the flag [ok] and
    the proposal of [handler.Vote(native)]; the entrance reads the proposal
    only when [ok] is true. *)
Class BTC (NativeService : Type) : Type := {
  BTCHandler_Vote :
    NativeService -> result (bool * MakeTxParam) * NativeService;
  BTCHandler_MultiSign : NativeService -> option error * NativeService;
  BTCHandler_InitRedeemScript : NativeService -> option error * NativeService;
}.

Section Methods.
Context {NativeService : Type} `{!Native NativeService} `{!BTC NativeService}.

(** The body of [Vote].  The call of the handler's own [Vote] is not among
    the recorded calls; the registry lookup and [MakeTransaction] are. *)
Definition Vote_body : M NativeService unit :=
  '(ok, txParam) ← act BTCHandler_Vote;
  if ok : bool then
    let targetid := ToChainID txParam in
    sideChain ← call_GetSideChain targetid;
    if decide (ChainId sideChain ≠ targetid)
    then fail (Errorf "ImportExTransfer, targetid chain is not registered" [])
    else
    targetHandler ← read (fun _ => GetChainHandler targetid);
    call_MakeTransaction targetHandler txParam
  else mret tt.

Definition Vote (n : NativeService)
  : (bytes * option error) * NativeService * list Call :=
  match Vote_body {| native := n; calls := [] |} with
  | (Ok _, w) => ((BYTE_TRUE, None), native w, calls w)
  | (Err e, w) => ((BYTE_FALSE, Some e), native w, calls w)
  end.

Definition MultiSign (n : NativeService)
  : (bytes * option error) * NativeService :=
  match BTCHandler_MultiSign n with
  | (Some err, n') => ((BYTE_FALSE, Some err), n')
  | (None, n') => ((BYTE_TRUE, None), n')
  end.

Definition InitRedeemScript (n : NativeService)
  : (bytes * option error) * NativeService :=
  match BTCHandler_InitRedeemScript n with
  | (Some err, n') => ((BYTE_FALSE, Some err), n')
  | (None, n') => ((BYTE_TRUE, None), n')
  end.

(** Statement helper: steps 4 and 5 of [ImportExTransfer], which [Vote]
    repeats, for a proposal in hand. *)
Definition make_target_transaction (txParam : MakeTxParam)
    : M NativeService unit :=
  let targetid := ToChainID txParam in
  sideChain ← call_GetSideChain targetid;
  if decide (ChainId sideChain ≠ targetid)
  then fail (Errorf "ImportExTransfer, targetid chain is not registered" [])
  else
  targetHandler ← read (fun _ => GetChainHandler targetid);
  call_MakeTransaction targetHandler txParam.

End Methods.

End cross_chain_manager.

(** *** The ONT header-sync handler ([native/service/header_sync/ont]) *)

Module ont.

(** What [SyncBlockHeader] calls and does not define: the native service and
    its input, the decoder of [hscommon.SyncBlockHeaderParam] (its [Address]
    and its [Headers]), [otypes.HeaderFromRawBytes] with the two header
    fields read here, and the package's own helpers over the service's
    storage.  [GetHeaderByHeight] and [verifyHeader] only read the service. *)
Class HeaderSync (NativeService : Type) : Type := {
  Header : Type;
  ShardID : Header -> Z;
  Height : Header -> Z;
  Address : Type;
  GetInput : NativeService -> bytes;
  SyncBlockHeaderParam_Deserialization : bytes -> result (Address * list bytes);
  HeaderFromRawBytes : bytes -> result Header;
  GetHeaderByHeight : NativeService -> Z -> Z -> result Header;
  verifyHeader : NativeService -> Header -> option error;
  PutBlockHeader : NativeService -> Header -> option error * NativeService;
  UpdateConsensusPeer :
    NativeService -> Header -> Address -> option error * NativeService;
}.

Section Handler.
Context {NativeService : Type} `{!HeaderSync NativeService}.

(** The loop [for _, v := range params.Headers { ... }] of [SyncBlockHeader],
    from the service state [n] on: the error returned (nil when the loop runs
    to its end) and the service as the loop leaves it. *)
Fixpoint sync_headers (address : Address) (headers : list bytes)
    (n : NativeService) : option error * NativeService :=
  match headers with
  | [] => (None, n)
  | v :: rest =>
    match HeaderFromRawBytes v with
    | Err err =>
      (Some (Errorf "SyncBlockHeader, otypes.HeaderFromRawBytes error: %v"
               [ArgErr err]), n)
    | Ok header =>
      match GetHeaderByHeight n (ShardID header) (Height header) with
      | Ok _ =>
        (Some (Errorf "SyncBlockHeader, %d, %d"
                 [ArgNum (ShardID header); ArgNum (Height header)]), n)
      | Err _ =>
        match verifyHeader n header with
        | Some err =>
          (Some (Errorf "SyncBlockHeader, verifyHeader error: %v"
                   [ArgErr err]), n)
        | None =>
          match PutBlockHeader n header with
          | (Some err, n1) =>
            (Some (Errorf "SyncBlockHeader, put BlockHeader error: %v"
                     [ArgErr err]), n1)
          | (None, n1) =>
            match UpdateConsensusPeer n1 header address with
            | (Some err, n2) =>
              (Some (Errorf "SyncBlockHeader, update ConsensusPeer error: %v"
                       [ArgErr err]), n2)
            | (None, n2) => sync_headers address rest n2
            end
          end
        end
      end
    end
  end.

Definition SyncBlockHeader (n : NativeService) : option error * NativeService :=
  match SyncBlockHeaderParam_Deserialization (GetInput n) with
  | Err err =>
    (Some (Errorf "SyncBlockHeader, contract params deserialize error: %v"
             [ArgErr err]), n)
  | Ok (address, headers) => sync_headers address headers n
  end.

(** A header of the call applied in full: stored, then its peer-set update
    applied, both without error. *)
Definition apply_header (address : Address) (n : NativeService)
    (header : Header) : option NativeService :=
  match PutBlockHeader n header with
  | (None, n1) =>
    match UpdateConsensusPeer n1 header address with
    | (None, n2) => Some n2
    | (Some _, _) => None
    end
  | (Some _, _) => None
  end.

Fixpoint apply_headers (address : Address) (n : NativeService)
    (headers : list Header) : option NativeService :=
  match headers with
  | [] => Some n
  | header :: rest =>
    match apply_header address n header with
    | Some n' => apply_headers address n' rest
    | None => None
    end
  end.

(** The error [SyncBlockHeader] returns for a header already stored at its
    chain and height (the specification's [DuplicateHeader]). *)
Definition DuplicateHeader (header : Header) : error :=
  Errorf "SyncBlockHeader, %d, %d"
    [ArgNum (ShardID header); ArgNum (Height header)].

(** The headers of [pre], decoded one by one. *)
Definition decoded (pre : list bytes) (hs : list Header) : Prop :=
  Forall2 (fun raw header => HeaderFromRawBytes raw = Ok header) pre hs.

(** The ways [SyncBlockHeader] fails on the header [raw], from the state [n0]
    that the headers before it have left, ending in the state [n']. *)
Inductive header_failure (address : Address) (raw : bytes)
    (n0 : NativeService) (err : error) (n' : NativeService) : Prop :=
| fail_decode (e : error) :
    HeaderFromRawBytes raw = Err e ->
    err = Errorf "SyncBlockHeader, otypes.HeaderFromRawBytes error: %v"
            [ArgErr e] ->
    n' = n0 ->
    header_failure address raw n0 err n'
| fail_duplicate (header stored : Header) :
    HeaderFromRawBytes raw = Ok header ->
    GetHeaderByHeight n0 (ShardID header) (Height header) = Ok stored ->
    err = DuplicateHeader header ->
    n' = n0 ->
    header_failure address raw n0 err n'
| fail_verify (header : Header) (e : error) :
    HeaderFromRawBytes raw = Ok header ->
    verifyHeader n0 header = Some e ->
    err = Errorf "SyncBlockHeader, verifyHeader error: %v" [ArgErr e] ->
    n' = n0 ->
    header_failure address raw n0 err n'
| fail_put (header : Header) (e : error) :
    HeaderFromRawBytes raw = Ok header ->
    PutBlockHeader n0 header = (Some e, n') ->
    err = Errorf "SyncBlockHeader, put BlockHeader error: %v" [ArgErr e] ->
    header_failure address raw n0 err n'
| fail_update (header : Header) (e : error) (n1 : NativeService) :
    HeaderFromRawBytes raw = Ok header ->
    PutBlockHeader n0 header = (None, n1) ->
    UpdateConsensusPeer n1 header address = (Some e, n') ->
    err = Errorf "SyncBlockHeader, update ConsensusPeer error: %v"
            [ArgErr e] ->
    header_failure address raw n0 err n'.

End Handler.

(** Modelled from the spec: [GetHeaderByHeight], [PutBlockHeader] and
    [UpdateConsensusPeer] lie outside the sources.  The specification keeps
    headers per chain and height ("a header already exists at that
    chain+height") and peer sets apart from them: storing a header writes the
    entry of its own chain and height only, and the peer-set update writes no
    header.  Whether or not the call reports an error. *)
Class HeaderSyncFrame (NativeService : Type) `{!HeaderSync NativeService}
    : Prop := {
  put_frame : forall n header err n' chain height,
    PutBlockHeader n header = (err, n') ->
    (chain, height) <> (ShardID header, Height header) ->
    GetHeaderByHeight n' chain height = GetHeaderByHeight n chain height;
  update_frame : forall n header address err n' chain height,
    UpdateConsensusPeer n header address = (err, n') ->
    GetHeaderByHeight n' chain height = GetHeaderByHeight n chain height;
}.

(** What [SyncGenesisHeader] calls besides: the decoder of
    [hscommon.SyncGenesisHeaderParam] (its [GenesisHeader]), the operator
    address [types.AddressFromBookkeepers(genesis.GenesisBookkeepers)], and
    [utils.ValidateOwner], which only reads the service. *)
Class GenesisSync (NativeService : Type) `{!HeaderSync NativeService}
    : Type := {
  SyncGenesisHeaderParam_Deserialization : bytes -> result bytes;
  GenesisBookkeepers_Address : result Address;
  ValidateOwner : NativeService -> Address -> option error;
}.

Section Genesis.
Context {NativeService : Type} `{!HeaderSync NativeService}
        `{!GenesisSync NativeService}.

Definition SyncGenesisHeader (n : NativeService)
    : option error * NativeService :=
  match SyncGenesisHeaderParam_Deserialization (GetInput n) with
  | Err err =>
    (Some (Errorf "SyncGenesisHeader, contract params deserialize error: %v"
             [ArgErr err]), n)
  | Ok GenesisHeader =>
    match GenesisBookkeepers_Address with
    | Err err => (Some err, n)
    | Ok operatorAddress =>
      match ValidateOwner n operatorAddress with
      | Some err =>
        (Some (Errorf "SyncGenesisHeader, checkWitness error: %v"
                 [ArgErr err]), n)
      | None =>
        match HeaderFromRawBytes GenesisHeader with
        | Err err =>
          (Some (Errorf "SyncGenesisHeader, deserialize header err: %v"
                   [ArgErr err]), n)
        | Ok header =>
          match PutBlockHeader n header with
          | (Some err, n1) =>
            (Some (Errorf "SyncGenesisHeader, put blockHeader error: %v"
                     [ArgErr err]), n1)
          | (None, n1) =>
            match UpdateConsensusPeer n1 header operatorAddress with
            | (Some err, n2) =>
              (Some (Errorf "SyncGenesisHeader, update ConsensusPeer error: %v"
                       [ArgErr err]), n2)
            | (None, n2) => (None, n2)
            end
          end
        end
      end
    end
  end.

End Genesis.

Section Accepted.
Context {NativeService : Type} `{!HeaderSync NativeService}.

(** Statement helper: the headers of a call pass the checks of
    [SyncBlockHeader] one after the other, each against the state that the
    headers before it have left, and [n'] is the state after the last. *)
Fixpoint accepted_in_turn (address : Address) (n : NativeService)
    (headers : list Header) (n' : NativeService) : Prop :=
  match headers with
  | [] => n' = n
  | header :: rest =>
    (exists e, GetHeaderByHeight n (ShardID header) (Height header) = Err e) /\
    verifyHeader n header = None /\
    exists n1 n2,
      PutBlockHeader n header = (None, n1) /\
      UpdateConsensusPeer n1 header address = (None, n2) /\
      accepted_in_turn address n2 rest n'
  end.

End Accepted.

End ont.

(** *** Package [common]: hashes, sinks and sources *)

(** Modelled from the spec: package [common] ([Uint256], [ZeroCopySink],
    [ZeroCopySource]) and package [serialization] lie outside the three
    sources.  The specification gives a hash as a "fixed-size (32-byte)
    content identifier" and the encoding as one with "little-endian height
    fields"; a sink is the bytes written so far, a source the bytes not yet
    read, and a read past the end reports end of input. *)
Module common.

Definition Uint256 : Type := vec byte 32.

Definition UINT256_EMPTY : Uint256 := vreplicate 32 x00.

(** [Uint256.ToArray]. *)
Definition ToArray (h : Uint256) : bytes := vec_to_list h.

(** [Uint256.Serialize(w)]: the bytes [w] holds afterwards. *)
Definition Serialize (h : Uint256) (w : bytes) : bytes := w ++ ToArray h.

(** The next [n] elements of a source and the source past them. *)
Fixpoint next_vec {A : Type} (n : nat) (source : list A)
    : option (vec A n * list A) :=
  match n with
  | O => Some ([#], source)
  | S n' =>
    match source with
    | [] => None
    | x :: source' =>
      match next_vec n' source' with
      | Some (v, rest) => Some (x ::: v, rest)
      | None => None
      end
    end
  end.

(** [ZeroCopySource.NextUint32] and [NextHash]; [None] is [eof = true]. *)
Definition NextUint32 (source : bytes) : option (Z * bytes) :=
  match source with
  | b0 :: b1 :: b2 :: b3 :: rest => Some (Uint32 b0 b1 b2 b3, rest)
  | _ => None
  end.

Definition NextHash (source : bytes) : option (Uint256 * bytes) :=
  next_vec 32 source.

(** [ZeroCopySink.WriteUint32] and [WriteHash]. *)
Definition WriteUint32 (sink : bytes) (v : Z) : bytes := sink ++ PutUint32 v.

Definition WriteHash (sink : bytes) (h : Uint256) : bytes := sink ++ ToArray h.

(** [common.Uint256ParseFromBytes]: exactly 32 bytes, or an error. *)
Definition Uint256ParseFromBytes (f : bytes) : result Uint256 :=
  match next_vec 32 f with
  | Some (h, []) => Ok h
  | _ => Err (ErrOther "[Common]: Uint256ParseFromBytes err, len != 32")
  end.

(** [Uint256.Deserialize(r)] and [serialization.ReadUint32(r)] on a
    [bytes.Reader]: the value and the reader past it. *)
Definition Deserialize (r : bytes) : result (Uint256 * bytes) :=
  match next_vec 32 r with
  | Some p => Ok p
  | None => Err ErrUnexpectedEOF
  end.

Definition ReadUint32 (r : bytes) : result (Z * bytes) :=
  match NextUint32 r with
  | Some p => Ok p
  | None => Err ErrUnexpectedEOF
  end.

(** [serialization.WriteUint32(w, v)] on a [bytes.Buffer]. *)
Definition serialization_WriteUint32 (w : bytes) (v : Z) : result bytes :=
  Ok (w ++ PutUint32 v).

End common.

Export common.

(** *** Package [leveldbstore]: the storage substrate *)

(** Modelled from the spec: [leveldbstore.LevelDBStore] lies outside the
    sources.  The specification describes it as a "byte-key/byte-value
    persistent store with atomic batch commit and forward iteration",
    "supporting point get, point put, batched put/delete, and full-range
    iteration with explicit batch commit", whose failures are reported
    ("StorageIO (underlying substrate failure)").  [db] is what is persisted,
    [batch] the writes staged since [NewBatch], oldest first ([None] is a
    delete), and [fault] the failure the substrate reports at present, if any.
    A commit applies the whole batch or, on a failure, nothing of it. *)
Module leveldbstore.

Record LevelDBStore : Type := {
  db : gmap bytes bytes;
  batch : list (bytes * option bytes);
  fault : option error;
}.

Definition NewLevelDBStore (persisted : gmap bytes bytes) : LevelDBStore :=
  {| db := persisted; batch := []; fault := None |}.

Definition Get (s : LevelDBStore) (key : bytes) : result bytes :=
  match fault s with
  | Some err => Err err
  | None =>
    match db s !! key with
    | Some value => Ok value
    | None => Err ErrNotFound
    end
  end.

Definition Put (s : LevelDBStore) (key value : bytes)
    : option error * LevelDBStore :=
  match fault s with
  | Some err => (Some err, s)
  | None =>
    (None, {| db := <[key := value]> (db s); batch := batch s; fault := None |})
  end.

Definition NewBatch (s : LevelDBStore) : LevelDBStore :=
  {| db := db s; batch := []; fault := fault s |}.

Definition BatchPut (s : LevelDBStore) (key value : bytes) : LevelDBStore :=
  {| db := db s; batch := batch s ++ [(key, Some value)]; fault := fault s |}.

Definition BatchDelete (s : LevelDBStore) (key : bytes) : LevelDBStore :=
  {| db := db s; batch := batch s ++ [(key, None)]; fault := fault s |}.

Definition write_op (m : gmap bytes bytes) (op : bytes * option bytes)
    : gmap bytes bytes :=
  match op with
  | (key, Some value) => <[key := value]> m
  | (key, None) => delete key m
  end.

Definition BatchCommit (s : LevelDBStore) : option error * LevelDBStore :=
  match fault s with
  | Some err => (Some err, s)
  | None =>
    (None, {| db := foldl write_op (db s) (batch s);
              batch := batch s; fault := None |})
  end.

(** The last write staged for [key] in a batch, if any ([Some None]: the
    last one is a delete). *)
Fixpoint last_write (key : bytes) (l : list (bytes * option bytes))
    : option (option bytes) :=
  match l with
  | [] => None
  | (k, w) :: l' =>
    match last_write key l' with
    | Some w' => Some w'
    | None => if decide (k = key) then Some w else None
    end
  end.

(** [NewIterator(nil)] run to its end: the keys it yields and [iter.Error()]. *)
Definition iterate (s : LevelDBStore) : list bytes * option error :=
  match fault s with
  | Some err => ([], Some err)
  | None => ((map_to_list (db s)).*1, None)
  end.

End leveldbstore.

(** *** Package [ledgerstore]: the block store ([block_store.go]) *)

Module ledgerstore.

Import leveldbstore.

(** What [block_store.go] imports from package [types] and from
    [serialization]: headers and transactions with their encodings and
    hashes.  [Header_Serialization] is what [header.Serialization(sink)]
    appends to the sink, [Header_Deserialization] the header read from a
    source and the source past it, [Block_Hash] the hash [block.Hash()] of a
    block with the given header and transactions, [WriteBytes] what
    [serialization.WriteBytes] appends to the buffer for a byte slice. *)
Class Types : Type := {
  Header : Type;
  Transaction : Type;
  Header_Height : Header -> Z;
  Header_Serialization : Header -> bytes;
  Header_Deserialization : bytes -> result (Header * bytes);
  Block_Hash : Header -> list Transaction -> Uint256;
  Transaction_Hash : Transaction -> Uint256;
  Transaction_Raw : Transaction -> bytes;
  Transaction_Deserialization : bytes -> result Transaction;
  WriteBytes : bytes -> result bytes;
}.

(** The record-type prefixes of package [scom] ([DataEntryPrefix]). *)
Class Prefixes : Type := {
  DATA_BLOCK : byte;
  DATA_HEADER : byte;
  DATA_TRANSACTION : byte;
  SYS_CURRENT_BLOCK : byte;
  SYS_VERSION : byte;
  SYS_BLOCK_MERKLE_TREE : byte;
}.

Section Store.
Context `{!Types} `{!Prefixes}.

(** [types.Block]. *)
Record Block : Type := {
  blk_Header : Header;
  Transactions : list Transaction;
}.

Definition Hash (block : Block) : Uint256 :=
  Block_Hash (blk_Header block) (Transactions block).

(** Modelled from the spec: [BlockCache] lies outside the sources.  The
    specification describes a "bounded in-memory cache of recent
    blocks/headers/transactions, consulted before the store", of "bounded
    size" with eviction by recency of use.  A cache keeps its entries most
    recent first; an entry added or read becomes the most recent one, and
    entries beyond the bound are dropped. *)
Record LRU (V : Type) : Type := {
  bound : nat;
  items : list (Uint256 * V);
}.

Arguments bound {V} _.
Arguments items {V} _.

Fixpoint assoc {V : Type} (key : Uint256) (l : list (Uint256 * V)) : option V :=
  match l with
  | [] => None
  | (k, v) :: l' => if decide (k = key) then Some v else assoc key l'
  end.

Definition remove_key {V : Type} (key : Uint256) (l : list (Uint256 * V))
    : list (Uint256 * V) :=
  filter (fun p => p.1 ≠ key) l.

Definition lru_Add {V : Type} (c : LRU V) (key : Uint256) (v : V) : LRU V :=
  {| bound := bound c;
     items := take (bound c) ((key, v) :: remove_key key (items c)) |}.

Definition lru_Get {V : Type} (c : LRU V) (key : Uint256) : option V * LRU V :=
  match assoc key (items c) with
  | Some v =>
    (Some v, {| bound := bound c;
                items := (key, v) :: remove_key key (items c) |})
  | None => (None, c)
  end.

Definition lru_Contains {V : Type} (c : LRU V) (key : Uint256) : bool :=
  bool_decide (is_Some (assoc key (items c))).

(** What the cache holds for [key], without touching the order of use. *)
Definition peek {V : Type} (c : LRU V) (key : Uint256) : option V :=
  assoc key (items c).

Record BlockCache : Type := {
  blockCache : LRU Block;
  transactionCache : LRU (Transaction * Z);
}.

Definition NewBlockCache (blockBound transactionBound : nat) : BlockCache :=
  {| blockCache := {| bound := blockBound; items := [] |};
     transactionCache := {| bound := transactionBound; items := [] |} |}.

Definition cache_AddBlock (c : BlockCache) (block : Block) : BlockCache :=
  {| blockCache := lru_Add (blockCache c) (Hash block) block;
     transactionCache := transactionCache c |}.

Definition cache_ContainBlock (c : BlockCache) (blockHash : Uint256) : bool :=
  lru_Contains (blockCache c) blockHash.

Definition cache_GetBlock (c : BlockCache) (blockHash : Uint256)
    : option Block * BlockCache :=
  let '(r, bc) := lru_Get (blockCache c) blockHash in
  (r, {| blockCache := bc; transactionCache := transactionCache c |}).

Definition cache_AddTransaction (c : BlockCache) (tx : Transaction)
    (height : Z) : BlockCache :=
  {| blockCache := blockCache c;
     transactionCache :=
       lru_Add (transactionCache c) (Transaction_Hash tx) (tx, height) |}.

Definition cache_GetTransaction (c : BlockCache) (txHash : Uint256)
    : option (Transaction * Z) * BlockCache :=
  let '(r, tc) := lru_Get (transactionCache c) txHash in
  (r, {| blockCache := blockCache c; transactionCache := tc |}).

Definition cache_ContainTransaction (c : BlockCache) (txHash : Uint256) : bool :=
  lru_Contains (transactionCache c) txHash.

(** [BlockStore].  [cache] is read and written under [enableCache] only (it
    is the nil pointer of the source otherwise). *)
Record BlockStore : Type := {
  enableCache : bool;
  dbDir : string;
  cache : BlockCache;
  store : LevelDBStore;
}.

Definition set_cache (this : BlockStore) (c : BlockCache) : BlockStore :=
  {| enableCache := enableCache this; dbDir := dbDir this;
     cache := c; store := store this |}.

Definition set_store (this : BlockStore) (s : LevelDBStore) : BlockStore :=
  {| enableCache := enableCache this; dbDir := dbDir this;
     cache := cache this; store := s |}.

(** [NewBlockStore(dbDir, enableCache)]; [newCache] is what [NewBlockCache()]
    returns and [newStore] what [leveldbstore.NewLevelDBStore(dbDir)] returns
    for the directory. *)
Definition NewBlockStore (newCache : result BlockCache)
    (newStore : result LevelDBStore) (dbDir : string) (enableCache : bool)
    : result BlockStore :=
  let cache :=
    if enableCache then
      match newCache with
      | Ok c => Ok c
      | Err err => Err (Errorf "NewBlockCache error %s" [ArgErr err])
      end
    else Ok (NewBlockCache 0 0) in
  match cache with
  | Err err => Err err
  | Ok cache =>
    match newStore with
    | Err err => Err err
    | Ok store =>
      Ok {| dbDir := dbDir; enableCache := enableCache;
            store := store; cache := cache |}
    end
  end.

Definition getTransactionKey (txHash : Uint256) : bytes :=
  Serialize txHash [DATA_TRANSACTION].

Definition getHeaderKey (blockHash : Uint256) : bytes :=
  DATA_HEADER :: ToArray blockHash.

Definition getBlockHashKey (height : Z) : bytes :=
  DATA_BLOCK :: PutUint32 height.

Definition getCurrentBlockKey : bytes := [SYS_CURRENT_BLOCK].

Definition getBlockMerkleTreeKey : bytes := [SYS_BLOCK_MERKLE_TREE].

Definition getVersionKey : bytes := [SYS_VERSION].

Definition BlockStore_NewBatch (this : BlockStore) : BlockStore :=
  set_store this (NewBatch (store this)).

Definition CommitTo (this : BlockStore) : option error * BlockStore :=
  let '(err, s) := BatchCommit (store this) in (err, set_store this s).

Definition SaveHeader (this : BlockStore) (block : Block)
    : option error * BlockStore :=
  let blockHash := Hash block in
  let key := getHeaderKey blockHash in
  let sink := Header_Serialization (blk_Header block) in
  let sink := WriteUint32 sink (uint32 (Z.of_nat (length (Transactions block)))) in
  let sink :=
    foldl (fun sink tx => WriteHash sink (Transaction_Hash tx))
      sink (Transactions block) in
  (None, set_store this (BatchPut (store this) key sink)).

Definition putTransaction (this : BlockStore) (tx : Transaction) (height : Z)
    : option error * BlockStore :=
  let txHash := Transaction_Hash tx in
  let key := getTransactionKey txHash in
  match serialization_WriteUint32 [] height with
  | Err err => (Some err, this)
  | Ok value =>
    match WriteBytes (Transaction_Raw tx) with
    | Err err => (Some err, this)
    | Ok written =>
      let value := value ++ written in
      (None, set_store this (BatchPut (store this) key value))
    end
  end.

Definition SaveTransaction (this : BlockStore) (tx : Transaction) (height : Z)
    : option error * BlockStore :=
  let this :=
    if enableCache this
    then set_cache this (cache_AddTransaction (cache this) tx height)
    else this in
  putTransaction this tx height.

(** The loop [for _, tx := range block.Transactions] of [SaveBlock]. *)
Fixpoint save_transactions (this : BlockStore) (txs : list Transaction)
    (blockHeight : Z) : option error * BlockStore :=
  match txs with
  | [] => (None, this)
  | tx :: rest =>
    match SaveTransaction this tx blockHeight with
    | (Some err, this') =>
      let txHash := Transaction_Hash tx in
      (Some (Errorf "SaveTransaction block height %d tx %s err %s"
               [ArgNum blockHeight; ArgHex (ToArray txHash); ArgErr err]),
       this')
    | (None, this') => save_transactions this' rest blockHeight
    end
  end.

Definition SaveBlock (this : BlockStore) (block : Block)
    : option error * BlockStore :=
  let this :=
    if enableCache this
    then set_cache this (cache_AddBlock (cache this) block)
    else this in
  let blockHeight := Header_Height (blk_Header block) in
  match SaveHeader this block with
  | (Some err, this') =>
    (Some (Errorf "SaveHeader error %s" [ArgErr err]), this')
  | (None, this') => save_transactions this' (Transactions block) blockHeight
  end.

Definition ContainBlock (this : BlockStore) (blockHash : Uint256)
    : result bool :=
  if enableCache this && cache_ContainBlock (cache this) blockHash
  then Ok true
  else
    let key := getHeaderKey blockHash in
    match Get (store this) key with
    | Err err =>
      match err with
      | ErrNotFound => Ok false
      | _ => Err err
      end
    | Ok _ => Ok true
    end.

(** The loop [for i := uint32(0); i < txSize; i++] of [loadHeaderWithTx]. *)
Fixpoint next_hashes (txSize : nat) (source : bytes) (txHashes : list Uint256)
    : result (list Uint256) :=
  match txSize with
  | O => Ok txHashes
  | S txSize' =>
    match NextHash source with
    | None => Err ErrUnexpectedEOF
    | Some (txHash, source') =>
      next_hashes txSize' source' (txHashes ++ [txHash])
    end
  end.

Definition loadHeaderWithTx (this : BlockStore) (blockHash : Uint256)
    : result (Header * list Uint256) :=
  let key := getHeaderKey blockHash in
  match Get (store this) key with
  | Err err => Err err
  | Ok value =>
    match Header_Deserialization value with
    | Err err => Err err
    | Ok (header, source) =>
      match NextUint32 source with
      | None => Err ErrUnexpectedEOF
      | Some (txSize, source) =>
        match next_hashes (Z.to_nat txSize) source [] with
        | Err err => Err err
        | Ok txHashes => Ok (header, txHashes)
        end
      end
    end
  end.

Definition loadHeader (this : BlockStore) (blockHash : Uint256)
    : result Header :=
  let key := getHeaderKey blockHash in
  match Get (store this) key with
  | Err err => Err err
  | Ok value =>
    match Header_Deserialization value with
    | Err err => Err err
    | Ok (header, _) => Ok header
    end
  end.

(** [loadTransaction]: the transaction (a pointer, [None] when nil) and its
    height, or an error. *)
Definition loadTransaction (this : BlockStore) (txHash : Uint256)
    : result (option Transaction * Z) * BlockStore :=
  let key := getTransactionKey txHash in
  let '(hit, this) :=
    if enableCache this then
      let '(r, c) := cache_GetTransaction (cache this) txHash in
      (r, set_cache this c)
    else (None, this) in
  match hit with
  | Some (tx, height) => (Ok (Some tx, height), this)
  | None =>
    match Get (store this) key with
    | Err err => (Err err, this)
    | Ok value =>
      match NextUint32 value with
      | None => (Err ErrUnexpectedEOF, this)
      | Some (height, source) =>
        match Transaction_Deserialization source with
        | Err err =>
          (Err (Errorf "transaction deserialize error %s" [ArgErr err]), this)
        | Ok tx => (Ok (Some tx, height), this)
        end
      end
    end
  end.

Definition GetTransaction (this : BlockStore) (txHash : Uint256)
    : result (option Transaction * Z) * BlockStore :=
  let '(hit, this) :=
    if enableCache this then
      let '(r, c) := cache_GetTransaction (cache this) txHash in
      (r, set_cache this c)
    else (None, this) in
  match hit with
  | Some (tx, height) => (Ok (Some tx, height), this)
  | None => loadTransaction this txHash
  end.

(** The loop [for _, txHash := range txHashes] of [GetBlock]. *)
Fixpoint get_transactions (this : BlockStore) (txHashes : list Uint256)
    (txList : list Transaction) : result (list Transaction) * BlockStore :=
  match txHashes with
  | [] => (Ok txList, this)
  | txHash :: rest =>
    match GetTransaction this txHash with
    | (Err err, this') =>
      (Err (Errorf "GetTransaction %s error %s"
              [ArgHex (ToArray txHash); ArgErr err]), this')
    | (Ok (None, _), this') =>
      (Err (Errorf "cannot get transaction %s" [ArgHex (ToArray txHash)]),
       this')
    | (Ok (Some tx, _), this') => get_transactions this' rest (txList ++ [tx])
    end
  end.

Definition GetBlock (this : BlockStore) (blockHash : Uint256)
    : result Block * BlockStore :=
  let '(hit, this) :=
    if enableCache this then
      let '(r, c) := cache_GetBlock (cache this) blockHash in
      (r, set_cache this c)
    else (None, this) in
  match hit with
  | Some block => (Ok block, this)
  | None =>
    match loadHeaderWithTx this blockHash with
    | Err err => (Err err, this)
    | Ok (header, txHashes) =>
      match get_transactions this txHashes [] with
      | (Err err, this') => (Err err, this')
      | (Ok txList, this') =>
        (Ok {| blk_Header := header; Transactions := txList |}, this')
      end
    end
  end.

Definition GetHeader (this : BlockStore) (blockHash : Uint256)
    : result Header * BlockStore :=
  let '(hit, this) :=
    if enableCache this then
      let '(r, c) := cache_GetBlock (cache this) blockHash in
      (r, set_cache this c)
    else (None, this) in
  match hit with
  | Some block => (Ok (blk_Header block), this)
  | None => (loadHeader this blockHash, this)
  end.

Definition ContainTransaction (this : BlockStore) (txHash : Uint256)
    : result bool :=
  let key := getTransactionKey txHash in
  if enableCache this && cache_ContainTransaction (cache this) txHash
  then Ok true
  else
    match Get (store this) key with
    | Err err =>
      match err with
      | ErrNotFound => Ok false
      | _ => Err err
      end
    | Ok _ => Ok true
    end.

Definition GetCurrentBlock (this : BlockStore) : result (Uint256 * Z) :=
  let key := getCurrentBlockKey in
  match Get (store this) key with
  | Err err => Err err
  | Ok data =>
    match Deserialize data with
    | Err err => Err err
    | Ok (blockHash, reader) =>
      match ReadUint32 reader with
      | Err err => Err err
      | Ok (height, _) => Ok (blockHash, height)
      end
    end
  end.

Definition SaveCurrentBlock (this : BlockStore) (height : Z)
    (blockHash : Uint256) : option error * BlockStore :=
  let key := getCurrentBlockKey in
  let value := Serialize blockHash [] in
  let value :=
    match serialization_WriteUint32 value height with
    | Ok value' => value'
    | Err _ => value
    end in
  (None, set_store this (BatchPut (store this) key value)).

Definition GetBlockHash (this : BlockStore) (height : Z) : result Uint256 :=
  let key := getBlockHashKey height in
  match Get (store this) key with
  | Err err => Err err
  | Ok value => Uint256ParseFromBytes value
  end.

Definition SaveBlockHash (this : BlockStore) (height : Z)
    (blockHash : Uint256) : BlockStore :=
  let key := getBlockHashKey height in
  set_store this (BatchPut (store this) key (ToArray blockHash)).

Definition GetVersion (this : BlockStore) : result byte :=
  let key := getVersionKey in
  match Get (store this) key with
  | Err err => Err err
  | Ok value =>
    match value with
    | ver :: _ => Ok ver
    | [] => Err (ErrOther "EOF")
    end
  end.

Definition SaveVersion (this : BlockStore) (ver : byte)
    : option error * BlockStore :=
  let key := getVersionKey in
  let '(err, s) := Put (store this) key [ver] in (err, set_store this s).

Definition ClearAll (this : BlockStore) : option error * BlockStore :=
  let this := BlockStore_NewBatch this in
  let '(keys, err) := iterate (store this) in
  let this :=
    set_store this (foldl BatchDelete (store this) keys) in
  match err with
  | Some err => (Some err, this)
  | None => CommitTo this
  end.

(** Two caches that hold the same entries, in whatever order of use. *)
Definition same_cache (c c' : BlockCache) : Prop :=
  (forall k, peek (blockCache c') k = peek (blockCache c) k) /\
  (forall k, peek (transactionCache c') k = peek (transactionCache c) k).

(** Two states of a block store that differ at most in the order of use of
    the cache entries: a read leaves such a state. *)
Definition same_contents (this this' : BlockStore) : Prop :=
  store this' = store this /\
  enableCache this' = enableCache this /\
  same_cache (cache this) (cache this').

(** The block, or the transaction, is not served from the cache. *)
Definition block_cache_miss (this : BlockStore) (blockHash : Uint256) : Prop :=
  enableCache this = false \/ peek (blockCache (cache this)) blockHash = None.

Definition transaction_cache_miss (this : BlockStore) (txHash : Uint256) : Prop :=
  enableCache this = false \/
  peek (transactionCache (cache this)) txHash = None.

(** The error [GetBlock] returns when a transaction its header lists cannot
    be loaded (the specification's [InconsistentStore]). *)
Definition InconsistentStore (txHash : Uint256) (cause : error) : error :=
  Errorf "GetTransaction %s error %s" [ArgHex (ToArray txHash); ArgErr cause].

(** The transaction under [txHash] as the store alone gives it. *)
Definition stored_transaction (s : LevelDBStore) (txHash : Uint256)
    : result (option Transaction * Z) :=
  match Get s (getTransactionKey txHash) with
  | Err err => Err err
  | Ok value =>
    match NextUint32 value with
    | None => Err ErrUnexpectedEOF
    | Some (height, source) =>
      match Transaction_Deserialization source with
      | Err err => Err (Errorf "transaction deserialize error %s" [ArgErr err])
      | Ok tx => Ok (Some tx, height)
      end
    end
  end.

(** What [GetTransaction], [get_transactions], [GetBlock] and [GetHeader]
    return, as functions of what the store and the cache hold. *)
Definition transaction_view (this : BlockStore) (txHash : Uint256)
    : result (option Transaction * Z) :=
  if enableCache this then
    match peek (transactionCache (cache this)) txHash with
    | Some (tx, height) => Ok (Some tx, height)
    | None => stored_transaction (store this) txHash
    end
  else stored_transaction (store this) txHash.

Fixpoint transactions_view (this : BlockStore) (txHashes : list Uint256)
    (txList : list Transaction) : result (list Transaction) :=
  match txHashes with
  | [] => Ok txList
  | txHash :: rest =>
    match transaction_view this txHash with
    | Err err => Err (InconsistentStore txHash err)
    | Ok (None, _) =>
      Err (Errorf "cannot get transaction %s" [ArgHex (ToArray txHash)])
    | Ok (Some tx, _) => transactions_view this rest (txList ++ [tx])
    end
  end.

Definition stored_block (this : BlockStore) (blockHash : Uint256)
    : result Block :=
  match loadHeaderWithTx this blockHash with
  | Err err => Err err
  | Ok (header, txHashes) =>
    match transactions_view this txHashes [] with
    | Err err => Err err
    | Ok txList => Ok {| blk_Header := header; Transactions := txList |}
    end
  end.

Definition block_view (this : BlockStore) (blockHash : Uint256)
    : result Block :=
  if enableCache this then
    match peek (blockCache (cache this)) blockHash with
    | Some block => Ok block
    | None => stored_block this blockHash
    end
  else stored_block this blockHash.

Definition header_view (this : BlockStore) (blockHash : Uint256)
    : result Header :=
  if enableCache this then
    match peek (blockCache (cache this)) blockHash with
    | Some block => Ok (blk_Header block)
    | None => loadHeader this blockHash
    end
  else loadHeader this blockHash.

(** What [SaveHeader] stages for a block, and what [putTransaction] stages
    for a transaction saved at [height]. *)
Definition header_value (block : Block) : bytes :=
  Header_Serialization (blk_Header block)
  ++ PutUint32 (uint32 (Z.of_nat (length (Transactions block))))
  ++ concat (map (fun tx => ToArray (Transaction_Hash tx)) (Transactions block)).

Definition transaction_op (height : Z) (tx : Transaction)
    (op : bytes * option bytes) : Prop :=
  exists written,
    WriteBytes (Transaction_Raw tx) = Ok written /\
    op = (getTransactionKey (Transaction_Hash tx),
          Some (PutUint32 height ++ written)).

(** No two different transactions of the list have the same hash. *)
Definition collision_free (txs : list Transaction) : Prop :=
  forall tx1 tx2,
    tx1 ∈ txs -> tx2 ∈ txs ->
    Transaction_Hash tx1 = Transaction_Hash tx2 -> tx1 = tx2.

(** Modelled from the spec: the encodings of package [types] lie outside the
    sources.  The specification asks for "a length-prefixed, versionable
    binary encoding" that relay instances agree on: a header is read back
    from what its serialization wrote, whatever follows it in the source, and
    a transaction is read back from what was written for its raw bytes. *)
Class TypesLaws : Prop := {
  Header_round_trip : forall header rest,
    Header_Deserialization (Header_Serialization header ++ rest)
    = Ok (header, rest);
  Transaction_round_trip : forall tx written,
    WriteBytes (Transaction_Raw tx) = Ok written ->
    Transaction_Deserialization written = Ok tx;
}.

(** The records [BlockStore] persists, and the key of each. *)
Inductive RecordType : Type :=
| HeaderRecord
| TransactionRecord
| BlockHashRecord
| CurrentBlockRecord
| VersionRecord.

Inductive PersistedKey : Type :=
| KeyHeader (blockHash : Uint256)           (* written by [SaveHeader] *)
| KeyTransaction (txHash : Uint256)         (* written by [putTransaction] *)
| KeyBlockHash (height : Z)                 (* written by [SaveBlockHash] *)
| KeyCurrentBlock                           (* written by [SaveCurrentBlock] *)
| KeyVersion.                               (* written by [SaveVersion] *)

Definition record_type (k : PersistedKey) : RecordType :=
  match k with
  | KeyHeader _ => HeaderRecord
  | KeyTransaction _ => TransactionRecord
  | KeyBlockHash _ => BlockHashRecord
  | KeyCurrentBlock => CurrentBlockRecord
  | KeyVersion => VersionRecord
  end.

Definition key_bytes (k : PersistedKey) : bytes :=
  match k with
  | KeyHeader blockHash => getHeaderKey blockHash
  | KeyTransaction txHash => getTransactionKey txHash
  | KeyBlockHash height => getBlockHashKey height
  | KeyCurrentBlock => getCurrentBlockKey
  | KeyVersion => getVersionKey
  end.

Definition prefix_of (t : RecordType) : byte :=
  match t with
  | HeaderRecord => DATA_HEADER
  | TransactionRecord => DATA_TRANSACTION
  | BlockHashRecord => DATA_BLOCK
  | CurrentBlockRecord => SYS_CURRENT_BLOCK
  | VersionRecord => SYS_VERSION
  end.

(** Modelled from the spec: the constants of [scom] lie outside the sources.
    The specification gives them as "a one-byte record-type discriminant
    (header / transaction / block-hash-by-height / current-tip / version)",
    one per record type: no two of the five are the same byte. *)
Definition prefixes_distinct : Prop :=
  NoDup [DATA_HEADER; DATA_TRANSACTION; DATA_BLOCK; SYS_CURRENT_BLOCK;
         SYS_VERSION].

(** [this'] is [this] with one more write staged in the batch, for [key]:
    what is persisted reads as before, and a commit that succeeds makes the
    staged value readable under [key]. *)
Definition staged_only (this this' : BlockStore) (key : bytes) : Prop :=
  (forall k, Get (store this') k = Get (store this) k) /\
  exists value,
    batch (store this') = batch (store this) ++ [(key, Some value)] /\
    forall this'',
      CommitTo this' = (None, this'') -> Get (store this'') key = Ok value.

(** The operations of a block store, and what each of them returns. *)
Inductive Op : Type :=
| OpNewBatch
| OpSaveBlock (block : Block)
| OpSaveHeader (block : Block)
| OpSaveTransaction (tx : Transaction) (height : Z)
| OpSaveCurrentBlock (height : Z) (blockHash : Uint256)
| OpSaveBlockHash (height : Z) (blockHash : Uint256)
| OpSaveVersion (ver : byte)
| OpCommitTo
| OpClearAll
| OpGetBlock (blockHash : Uint256)
| OpGetHeader (blockHash : Uint256)
| OpGetTransaction (txHash : Uint256)
| OpContainBlock (blockHash : Uint256)
| OpContainTransaction (txHash : Uint256)
| OpGetCurrentBlock
| OpGetBlockHash (height : Z)
| OpGetVersion.

Inductive Outcome : Type :=
| RetNothing
| RetError (err : option error)
| RetBlock (r : result Block)
| RetHeader (r : result Header)
| RetTransaction (r : result (option Transaction * Z))
| RetBool (r : result bool)
| RetCurrentBlock (r : result (Uint256 * Z))
| RetHash (r : result Uint256)
| RetVersion (r : result byte).

Definition step (this : BlockStore) (op : Op) : Outcome * BlockStore :=
  match op with
  | OpNewBatch => (RetNothing, BlockStore_NewBatch this)
  | OpSaveBlock block =>
    let '(err, this') := SaveBlock this block in (RetError err, this')
  | OpSaveHeader block =>
    let '(err, this') := SaveHeader this block in (RetError err, this')
  | OpSaveTransaction tx height =>
    let '(err, this') := SaveTransaction this tx height in (RetError err, this')
  | OpSaveCurrentBlock height blockHash =>
    let '(err, this') := SaveCurrentBlock this height blockHash in
    (RetError err, this')
  | OpSaveBlockHash height blockHash =>
    (RetNothing, SaveBlockHash this height blockHash)
  | OpSaveVersion ver =>
    let '(err, this') := SaveVersion this ver in (RetError err, this')
  | OpCommitTo => let '(err, this') := CommitTo this in (RetError err, this')
  | OpClearAll => let '(err, this') := ClearAll this in (RetError err, this')
  | OpGetBlock blockHash =>
    let '(r, this') := GetBlock this blockHash in (RetBlock r, this')
  | OpGetHeader blockHash =>
    let '(r, this') := GetHeader this blockHash in (RetHeader r, this')
  | OpGetTransaction txHash =>
    let '(r, this') := GetTransaction this txHash in (RetTransaction r, this')
  | OpContainBlock blockHash => (RetBool (ContainBlock this blockHash), this)
  | OpContainTransaction txHash =>
    (RetBool (ContainTransaction this txHash), this)
  | OpGetCurrentBlock => (RetCurrentBlock (GetCurrentBlock this), this)
  | OpGetBlockHash height => (RetHash (GetBlockHash this height), this)
  | OpGetVersion => (RetVersion (GetVersion this), this)
  end.

(** A sequence of operations on one store: what they return, in order, and
    the store they leave. *)
Fixpoint run (this : BlockStore) (ops : list Op) : list Outcome * BlockStore :=
  match ops with
  | [] => ([], this)
  | op :: rest =>
    let '(out, this') := step this op in
    let '(outs, this'') := run this' rest in
    (out :: outs, this'')
  end.

(** The discipline under which a read never meets a cache entry ahead of the
    store.  [SaveBlock] and [SaveTransaction] fill the cache and leave their
    writes pending until [CommitTo]; while writes are pending, neither
    [NewBatch] (which would drop them) nor a read through the cache is
    allowed; [ClearAll], which empties the store and not the cache, is never
    allowed. *)
Definition pending_after (pending : bool) (op : Op) : bool :=
  match op with
  | OpSaveBlock _ | OpSaveTransaction _ _ => true
  | OpCommitTo => false
  | _ => pending
  end.

Definition allowed (pending : bool) (op : Op) : bool :=
  match op with
  | OpClearAll => false
  | OpNewBatch | OpGetBlock _ | OpGetHeader _ | OpGetTransaction _
  | OpContainBlock _ | OpContainTransaction _ => negb pending
  | _ => true
  end.

Fixpoint reads_committed (pending : bool) (ops : list Op) : bool :=
  match ops with
  | [] => true
  | op :: rest =>
    allowed pending op && reads_committed (pending_after pending op) rest
  end.

(** The transactions and the blocks that an operation hands to the store. *)
Definition saved_transactions (op : Op) : list Transaction :=
  match op with
  | OpSaveBlock block => Transactions block
  | OpSaveTransaction tx _ => [tx]
  | _ => []
  end.

Definition saved_blocks (op : Op) : list Block :=
  match op with
  | OpSaveBlock block | OpSaveHeader block => [block]
  | _ => []
  end.

(** Heights are [uint32] values and a block has fewer than [2^32]
    transactions. *)
Definition in_range (op : Op) : Prop :=
  match op with
  | OpSaveBlock block =>
    Z.of_nat (length (Transactions block)) < 2 ^ 32 /\
    0 <= Header_Height (blk_Header block) < 2 ^ 32
  | OpSaveTransaction _ height => 0 <= height < 2 ^ 32
  | _ => True
  end.

Definition no_error (out : Outcome) : Prop :=
  match out with
  | RetError (Some _) => False
  | _ => True
  end.

(** No two different blocks of the list have the same hash. *)
Definition collision_free_blocks (blocks : list Block) : Prop :=
  forall block1 block2,
    block1 ∈ blocks -> block2 ∈ blocks ->
    Hash block1 = Hash block2 -> block1 = block2.

Definition empty_cache (c : BlockCache) : Prop :=
  items (blockCache c) = [] /\ items (transactionCache c) = [].

(** What the store holds once the batch is applied to it. *)
Definition effective (s : LevelDBStore) : gmap bytes bytes :=
  foldl write_op (db s) (batch s).

(** A map of keys to values holds a transaction saved at [height], or a
    block: the record of the transaction, or the header record of the block
    and a record of each of its transactions, are what [putTransaction] and
    [SaveHeader] write. *)
Definition holds_transaction (m : gmap bytes bytes) (tx : Transaction)
    (height : Z) : Prop :=
  exists written,
    WriteBytes (Transaction_Raw tx) = Ok written /\
    m !! getTransactionKey (Transaction_Hash tx)
    = Some (PutUint32 height ++ written).

Definition holds_block (txs : list Transaction) (m : gmap bytes bytes)
    (block : Block) : Prop :=
  m !! getHeaderKey (Hash block) = Some (header_value block) /\
  Z.of_nat (length (Transactions block)) < 2 ^ 32 /\
  forall tx, tx ∈ Transactions block ->
             tx ∈ txs /\ exists height, holds_transaction m tx height.

(** Every entry of the cache is held by the map, under its own hash; the
    cached transactions are among [txs] and the cached blocks among
    [blocks]. *)
Definition transactions_coherent (txs : list Transaction)
    (c : LRU (Transaction * Z)) (m : gmap bytes bytes) : Prop :=
  forall k tx height,
    peek c k = Some (tx, height) ->
    k = Transaction_Hash tx /\ tx ∈ txs /\ 0 <= height < 2 ^ 32 /\
    holds_transaction m tx height.

Definition blocks_coherent (txs : list Transaction) (blocks : list Block)
    (c : LRU Block) (m : gmap bytes bytes) : Prop :=
  forall k block,
    peek c k = Some block ->
    k = Hash block /\ block ∈ blocks /\ holds_block txs m block.

Definition coherent (txs : list Transaction) (blocks : list Block)
    (c : BlockCache) (m : gmap bytes bytes) : Prop :=
  transactions_coherent txs (transactionCache c) m /\
  blocks_coherent txs blocks (blockCache c) m.

(** A store with the cache enabled and a store with the cache disabled that
    have been through the same operations: the same substrate, which reports
    no failure, and a cache coherent with what the batch will have written,
    and with what is persisted when no cache-filling write is pending. *)
Definition cache_follows_store (txs : list Transaction) (blocks : list Block)
    (pending : bool) (cached plain : BlockStore) : Prop :=
  enableCache cached = true /\
  enableCache plain = false /\
  store plain = store cached /\
  fault (store cached) = None /\
  coherent txs blocks (cache cached) (effective (store cached)) /\
  (pending = false ->
   coherent txs blocks (cache cached) (db (store cached))).

End Store.

Arguments bound {V} _.
Arguments items {V} _.

End ledgerstore.

(** *** Concrete collaborators, to run the statements on explicit inputs *)

Module demo.

Import cross_chain_manager.

(** A native service for the entrance: its input is two bytes, the source and
    the target chain id; the registry is a finite map; the handlers extract a
    ten-unit proposal for the target named in the input and queue outgoing
    transactions. *)
Record Service : Type := {
  input : bytes;
  side_chains : gmap Z SideChain;
  outgoing : list (Handler * MakeTxParam);
}.

Definition decode_param (b : bytes) : result EntranceParam :=
  match b with
  | [s; t] =>
    Ok {| SourceChainID := Z_of_byte s; TargetChainID := Z_of_byte t;
          Height := 0; Proof := []; TxData := []; RelayerAddress := [];
          Value := [] |}
  | _ => Err ErrUnexpectedEOF
  end.

Definition lookup_side_chain (n : Service) (chainid : Z) : result SideChain :=
  match side_chains n !! chainid with
  | Some sc => Ok sc
  | None => Err ErrNotFound
  end.

Definition deposit_proposal (h : Handler) (n : Service)
    : result MakeTxParam * Service :=
  match decode_param (input n) with
  | Ok p =>
    (Ok {| TxHash := input n; ToChainID := TargetChainID p;
           ToAddress := [x61]; Amount := 10 |}, n)
  | Err e => (Err e, n)
  end.

Definition queue_transaction (h : Handler) (n : Service) (p : MakeTxParam)
    : option error * Service :=
  (None, {| input := input n; side_chains := side_chains n;
            outgoing := outgoing n ++ [(h, p)] |}).

#[global] Instance service_native : Native Service := {
  GetInput := input;
  EntranceParam_Deserialization := decode_param;
  GetSideChain := lookup_side_chain;
  BTC_CHAIN_ID := 1;
  ETH_CHAIN_ID := 2;
  ONT_CHAIN_ID := 3;
  NEO_CHAIN_ID := 4;
  BYTE_FALSE := [x00];
  BYTE_TRUE := [x01];
  MakeDepositProposal := deposit_proposal;
  MakeTransaction := queue_transaction;
}.

(** Chains 1, 2 and 3 are registered; chain 7 is not. *)
Definition registry : gmap Z SideChain :=
  <[1 := {| ChainId := 1; Router := 1 |}]>
    (<[2 := {| ChainId := 2; Router := 2 |}]>
       (<[3 := {| ChainId := 3; Router := 3 |}]> ∅)).

Definition service (source target : byte) : Service :=
  {| input := [source; target]; side_chains := registry; outgoing := [] |}.

(** A header-sync service.  A raw header is four bytes: chain id, height,
    the signing peer, and the peer that takes over from this height on (zero
    when the header carries no rotation).  Headers are kept per chain and
    height; peer sets are a history, most recent first, looked up as the
    latest entry at or below a height; a header verifies when its signer is
    the peer in force at the previous height.  [header_read_fault] and
    [peer_write_fault] are storage failures reported by a read of the header
    table and by a write of the peer history. *)
Record SyncHeader : Type := {
  chain : Z;
  height : Z;
  signer : Z;
  rotation : Z;
}.

Record Sync : Type := {
  sync_input : bytes;
  headers : gmap (Z * Z) SyncHeader;
  peers : list (Z * Z * Z);
  header_read_fault : option error;
  peer_write_fault : option error;
}.

Fixpoint chunks (b : bytes) : result (list bytes) :=
  match b with
  | [] => Ok []
  | b0 :: b1 :: b2 :: b3 :: rest =>
    match chunks rest with
    | Ok l => Ok ([b0; b1; b2; b3] :: l)
    | Err e => Err e
    end
  | _ => Err ErrUnexpectedEOF
  end.

Definition decode_sync_param (b : bytes) : result (byte * list bytes) :=
  match b with
  | address :: rest =>
    match chunks rest with
    | Ok l => Ok (address, l)
    | Err e => Err e
    end
  | [] => Err ErrUnexpectedEOF
  end.

Definition decode_header (raw : bytes) : result SyncHeader :=
  match raw with
  | [b0; b1; b2; b3] =>
    Ok {| chain := Z_of_byte b0; height := Z_of_byte b1;
          signer := Z_of_byte b2; rotation := Z_of_byte b3 |}
  | _ => Err ErrUnexpectedEOF
  end.

Definition header_at (n : Sync) (c h : Z) : result SyncHeader :=
  match header_read_fault n with
  | Some e => Err e
  | None =>
    match headers n !! (c, h) with
    | Some header => Ok header
    | None => Err ErrNotFound
    end
  end.

Definition peer_in_force (n : Sync) (c h : Z) : option Z :=
  match find (fun e => bool_decide (e.1.1 = c) && bool_decide (e.1.2 <= h))
          (peers n) with
  | Some e => Some e.2
  | None => None
  end.

Definition verify (n : Sync) (header : SyncHeader) : option error :=
  match peer_in_force n (chain header) (height header - 1) with
  | Some p =>
    if decide (signer header = p) then None
    else Some (ErrOther "signature of a peer not in force")
  | None => Some (ErrOther "no peer set in force")
  end.

Definition put_header (n : Sync) (header : SyncHeader)
    : option error * Sync :=
  (None,
   {| sync_input := sync_input n;
      headers := <[(chain header, height header) := header]> (headers n);
      peers := peers n;
      header_read_fault := header_read_fault n;
      peer_write_fault := peer_write_fault n |}).

Definition update_peer (n : Sync) (header : SyncHeader) (address : byte)
    : option error * Sync :=
  if decide (rotation header = 0) then (None, n)
  else
    match peer_write_fault n with
    | Some e => (Some e, n)
    | None =>
      (None,
       {| sync_input := sync_input n;
          headers := headers n;
          peers := (chain header, height header, rotation header) :: peers n;
          header_read_fault := header_read_fault n;
          peer_write_fault := None |})
    end.

#[global] Instance sync_header_sync : ont.HeaderSync Sync := {
  ont.Header := SyncHeader;
  ont.ShardID := chain;
  ont.Height := height;
  ont.Address := byte;
  ont.GetInput := sync_input;
  ont.SyncBlockHeaderParam_Deserialization := decode_sync_param;
  ont.HeaderFromRawBytes := decode_header;
  ont.GetHeaderByHeight := header_at;
  ont.verifyHeader := verify;
  ont.PutBlockHeader := put_header;
  ont.UpdateConsensusPeer := update_peer;
}.

(** Chain 1 with its header at height 5 accepted (signed by peer 7, which
    has been in force since height 0); [input] is the call's input. *)
Definition accepted : SyncHeader :=
  {| chain := 1; height := 5; signer := 7; rotation := 0 |}.

Definition synced (input : bytes) (read_fault write_fault : option error)
    : Sync :=
  {| sync_input := input;
     headers := <[(1, 5) := accepted]> ∅;
     peers := [(1, 0, 7)];
     header_read_fault := read_fault;
     peer_write_fault := write_fault |}.

(** A ledger whose headers and transactions are one byte each: a header or
    transaction is encoded as that byte, and hashes to 32 copies of it. *)
#[global] Instance byte_ledger : ledgerstore.Types := {
  ledgerstore.Header := byte;
  ledgerstore.Transaction := byte;
  ledgerstore.Header_Height := Z_of_byte;
  ledgerstore.Header_Serialization := fun h => [h];
  ledgerstore.Header_Deserialization := fun source =>
    match source with
    | h :: rest => Ok (h, rest)
    | [] => Err ErrUnexpectedEOF
    end;
  ledgerstore.Block_Hash := fun h _ => vreplicate 32 h;
  ledgerstore.Transaction_Hash := fun tx => vreplicate 32 tx;
  ledgerstore.Transaction_Raw := fun tx => [tx];
  ledgerstore.Transaction_Deserialization := fun source =>
    match source with
    | [tx] => Ok tx
    | _ => Err ErrUnexpectedEOF
    end;
  ledgerstore.WriteBytes := fun b => Ok b;
}.

#[global] Instance prefixes : ledgerstore.Prefixes := {
  ledgerstore.DATA_BLOCK := x00;
  ledgerstore.DATA_HEADER := x01;
  ledgerstore.DATA_TRANSACTION := x02;
  ledgerstore.SYS_CURRENT_BLOCK := x10;
  ledgerstore.SYS_VERSION := x11;
  ledgerstore.SYS_BLOCK_MERKLE_TREE := x13;
}.

(** A block store over an empty substrate, with the cache enabled (holding
    up to ten blocks and a hundred transactions) or disabled. *)
Definition new_store (enableCache : bool) : ledgerstore.BlockStore :=
  match ledgerstore.NewBlockStore (Ok (ledgerstore.NewBlockCache 10 100))
          (Ok (leveldbstore.NewLevelDBStore ∅)) "Chain/block" enableCache with
  | Ok this => this
  | Err _ =>
    {| ledgerstore.enableCache := enableCache;
       ledgerstore.dbDir := "";
       ledgerstore.cache := ledgerstore.NewBlockCache 0 0;
       ledgerstore.store := leveldbstore.NewLevelDBStore ∅ |}
  end.

(** The block with header [x05] and the transactions [x0a], [x0b]. *)
Definition block5 : ledgerstore.Block :=
  {| ledgerstore.blk_Header := x05;
     ledgerstore.Transactions := [x0a; x0b] |}.

(** The BTC handler of the entrance service: the input is the number of
    votes cast and the target chain; a vote passes with two votes or more,
    and then yields a ten-unit proposal for the target. *)
Definition vote (n : Service) : result (bool * MakeTxParam) * Service :=
  match input n with
  | [votes; target] =>
    (Ok (bool_decide (2 <= Z_of_byte votes),
         {| TxHash := input n; ToChainID := Z_of_byte target;
            ToAddress := [x61]; Amount := 10 |}), n)
  | _ => (Err ErrUnexpectedEOF, n)
  end.

#[global] Instance service_btc : BTC Service := {
  BTCHandler_Vote := vote;
  BTCHandler_MultiSign := fun n => (None, n);
  BTCHandler_InitRedeemScript := fun n => (None, n);
}.

(** Genesis sync for the header-sync service: the input is the address that
    signed the call followed by the raw genesis header; the operator is the
    address [x2a]. *)
Definition decode_genesis_param (b : bytes) : result bytes :=
  match b with
  | _ :: raw => Ok raw
  | [] => Err ErrUnexpectedEOF
  end.

Definition validate_owner (n : Sync) (address : byte) : option error :=
  match sync_input n with
  | signed :: _ =>
    if decide (signed = address) then None
    else Some (ErrOther "not signed by the owner")
  | [] => Some (ErrOther "not signed by the owner")
  end.

#[global] Instance sync_genesis : ont.GenesisSync Sync := {
  ont.SyncGenesisHeaderParam_Deserialization := decode_genesis_param;
  ont.GenesisBookkeepers_Address := Ok x2a;
  ont.ValidateOwner := validate_owner;
}.

(** The entrance service with handlers that reject every proof. *)
Definition rejecting_native : Native Service := {|
  GetInput := input;
  EntranceParam_Deserialization := decode_param;
  GetSideChain := lookup_side_chain;
  BTC_CHAIN_ID := 1;
  ETH_CHAIN_ID := 2;
  ONT_CHAIN_ID := 3;
  NEO_CHAIN_ID := 4;
  BYTE_FALSE := [x00];
  BYTE_TRUE := [x01];
  MakeDepositProposal := fun _ n => (Err (ErrOther "invalid proof"), n);
  MakeTransaction := queue_transaction;
|}.

(** A ledger like [byte_ledger] in which the raw bytes [xff] cannot be
    written. *)
Definition fragile_ledger : ledgerstore.Types := {|
  ledgerstore.Header := byte;
  ledgerstore.Transaction := byte;
  ledgerstore.Header_Height := Z_of_byte;
  ledgerstore.Header_Serialization := fun h => [h];
  ledgerstore.Header_Deserialization := fun source =>
    match source with
    | h :: rest => Ok (h, rest)
    | [] => Err ErrUnexpectedEOF
    end;
  ledgerstore.Block_Hash := fun h _ => vreplicate 32 h;
  ledgerstore.Transaction_Hash := fun tx => vreplicate 32 tx;
  ledgerstore.Transaction_Raw := fun tx => [tx];
  ledgerstore.Transaction_Deserialization := fun source =>
    match source with
    | [tx] => Ok tx
    | _ => Err ErrUnexpectedEOF
    end;
  ledgerstore.WriteBytes := fun b =>
    if decide (b = [xff]) then Err (ErrOther "short write") else Ok b;
|}.

End demo.

(** ** Part II: properties *)

(** *** The cross-chain entrance *)

Section EntranceProperties.
Import cross_chain_manager.
Context {NativeService : Type} `{!Native NativeService}.

(** The bind of the entrance's monad, unfolded. *)
Lemma M_bind_unfold {A B} (m : M NativeService A)
    (f : A -> M NativeService B) (w : World NativeService) :
  (m ≫= f) w =
  match m w return result B * World NativeService with
  | (Ok a, w') => f a w'
  | (Err e, w') => (Err e, w')
  end.
Proof. reflexivity. Qed.

Lemma call_GetSideChain_eq (chainid : Z) (w : World NativeService) :
  call_GetSideChain chainid w =
  (match GetSideChain (native w) chainid with
   | Ok sc => Ok sc
   | Err e =>
     Err (Errorf "ImportExTransfer, side_chain_manager.GetSideChain error: %v"
            [ArgErr e])
   end,
   {| native := native w; calls := calls w ++ [Call_GetSideChain chainid] |}).
Proof.
  unfold call_GetSideChain, wrapf, read, record.
  rewrite M_bind_unfold. cbn [native calls].
  destruct (GetSideChain (native w) chainid); reflexivity.
Qed.

Lemma call_MakeDepositProposal_eq (h : Handler) (w : World NativeService) :
  call_MakeDepositProposal h w =
  ((MakeDepositProposal h (native w)).1,
   {| native := (MakeDepositProposal h (native w)).2;
      calls := calls w ++ [Call_MakeDepositProposal h] |}).
Proof.
  unfold call_MakeDepositProposal, act, record.
  rewrite M_bind_unfold. cbn [native calls].
  destruct (MakeDepositProposal h (native w)); reflexivity.
Qed.

Lemma call_MakeTransaction_eq (h : Handler) (p : MakeTxParam)
    (w : World NativeService) :
  call_MakeTransaction h p w =
  (to_result (MakeTransaction h (native w) p).1,
   {| native := (MakeTransaction h (native w) p).2;
      calls := calls w ++ [Call_MakeTransaction h p] |}).
Proof.
  unfold call_MakeTransaction, act, record.
  rewrite M_bind_unfold. cbn [native calls].
  destruct (MakeTransaction h (native w) p); reflexivity.
Qed.

Lemma read_eq {A} (f : NativeService -> result A) (w : World NativeService) :
  read f w = (f (native w), w).
Proof. reflexivity. Qed.

Lemma wrapf_read_eq {A} (format : string) (f : NativeService -> result A)
    (w : World NativeService) :
  wrapf format (read f) w =
  (match f (native w) with
   | Ok a => Ok a
   | Err e => Err (Errorf format [ArgErr e])
   end, w).
Proof. unfold wrapf, read. destruct (f (native w)); reflexivity. Qed.

(** One step of the entrance: unfold the next call and the bind around it. *)
Ltac entrance_step :=
  repeat first
    [ rewrite M_bind_unfold
    | rewrite call_GetSideChain_eq
    | rewrite call_MakeDepositProposal_eq
    | rewrite call_MakeTransaction_eq
    | rewrite wrapf_read_eq
    | rewrite read_eq
    | progress cbn [native calls app fst snd to_result fail mret M_ret] ].

(** C5. When the source chain has no side-chain record, or the record found
    carries another chain id, [ImportExTransfer] returns [BYTE_FALSE] with
    the unregistered-chain error, leaves the service as it was, and has made
    no call other than the registry lookup: no chain handler was invoked. *)
Theorem ImportExTransfer_unregistered_source
    (n : NativeService) (params : EntranceParam)
    (Hparams : EntranceParam_Deserialization (GetInput n) = Ok params)
    (Hsource :
       (exists e, GetSideChain n (SourceChainID params) = Err e) \/
       (exists sc, GetSideChain n (SourceChainID params) = Ok sc /\
                   ChainId sc <> SourceChainID params)) :
  exists err,
    ImportExTransfer n =
      ((BYTE_FALSE, Some err), n, [Call_GetSideChain (SourceChainID params)]) /\
    ((exists e,
        err = Errorf "ImportExTransfer, side_chain_manager.GetSideChain error: %v"
                [ArgErr e]) \/
     err = Errorf "ImportExTransfer, side chain is not registered" []).
Proof.
  unfold ImportExTransfer, ImportExTransfer_body.
  entrance_step. rewrite Hparams. entrance_step.
  destruct Hsource as [[e He] | [sc [Hsc Hne]]].
  - rewrite He. eexists. split; [reflexivity |]. left. eauto.
  - rewrite Hsc. entrance_step.
    destruct (decide (ChainId sc ≠ SourceChainID params)) as [_ | Heq];
      [| contradiction].
    eexists. split; [reflexivity |]. right. reflexivity.
Qed.

(** C1, as the code has it.  Let the source chain be registered, its handler
    resolved, and the proof yield the proposal [p].  When the source chain id
    is 2 or 3, [ImportExTransfer] looks up the registration of the target
    chain that [p] declares, and it returns [BYTE_TRUE] with no error exactly
    when that chain is registered, its handler resolves and
    [MakeTransaction] on [p] returns no error; [MakeTransaction] is then the
    last call made.  For any other source chain id the call ends after
    [MakeDepositProposal] and returns [BYTE_TRUE]: the target chain is not
    consulted and no transaction is made. *)
Theorem ImportExTransfer_pipeline
    (n n1 : NativeService) (params : EntranceParam) (sc : SideChain)
    (handler : Handler) (p : MakeTxParam)
    (Hparams : EntranceParam_Deserialization (GetInput n) = Ok params)
    (Hsc : GetSideChain n (SourceChainID params) = Ok sc)
    (Hid : ChainId sc = SourceChainID params)
    (Hhandler : GetChainHandler (SourceChainID params) = Ok handler)
    (Hproposal : MakeDepositProposal handler n = (Ok p, n1)) :
  (SourceChainID params = 2 \/ SourceChainID params = 3 ->
   exists r n' cs,
     ImportExTransfer n =
       (r, n',
        [Call_GetSideChain (SourceChainID params);
         Call_MakeDepositProposal handler;
         Call_GetSideChain (ToChainID p)] ++ cs) /\
     (r = (BYTE_TRUE, None) <->
      exists sc' targetHandler,
        GetSideChain n1 (ToChainID p) = Ok sc' /\
        ChainId sc' = ToChainID p /\
        GetChainHandler (ToChainID p) = Ok targetHandler /\
        MakeTransaction targetHandler n1 p = (None, n') /\
        cs = [Call_MakeTransaction targetHandler p])) /\
  (~ (SourceChainID params = 2 \/ SourceChainID params = 3) ->
   ImportExTransfer n =
     ((BYTE_TRUE, None), n1,
      [Call_GetSideChain (SourceChainID params);
       Call_MakeDepositProposal handler])).
Proof.
  split; intros Hroute.
  - unfold ImportExTransfer, ImportExTransfer_body.
    entrance_step. rewrite Hparams. entrance_step. rewrite Hsc.
    destruct (decide (ChainId sc ≠ SourceChainID params)) as [Hne | _];
      [contradiction |].
    entrance_step. rewrite Hhandler.
    destruct (decide (SourceChainID params = 2 ∨ SourceChainID params = 3))
      as [_ | Hno]; [| contradiction].
    entrance_step. rewrite Hproposal. entrance_step.
    destruct (GetSideChain n1 (ToChainID p)) as [sc' | e] eqn:Htarget.
    + destruct (decide (ChainId sc' ≠ ToChainID p)) as [Hne | Heq].
      * eexists _, _, []. split; [reflexivity |].
        split; [discriminate |].
        intros (sc2 & th & Hsc2 & Hid2 & _). congruence.
      * apply dec_stable in Heq. entrance_step.
        destruct (GetChainHandler (ToChainID p)) as [th | e] eqn:Hth.
        -- entrance_step.
           destruct (MakeTransaction th n1 p) as [[e |] n2] eqn:Hmk;
             entrance_step.
           ++ eexists _, _, [_]. split; [reflexivity |].
              split; [discriminate |].
              intros (sc2 & th2 & _ & _ & Hth2 & Hmk2 & _). congruence.
           ++ eexists _, _, [_]. split; [reflexivity |].
              split; [| reflexivity].
              intros _. exists sc', th. auto.
        -- eexists _, _, []. split; [reflexivity |].
           split; [discriminate |].
           intros (sc2 & th2 & _ & _ & Hth2 & _). congruence.
    + eexists _, _, []. split; [reflexivity |].
      split; [discriminate |].
      intros (sc2 & th & Hsc2 & _). congruence.
  - unfold ImportExTransfer, ImportExTransfer_body.
    entrance_step. rewrite Hparams. entrance_step. rewrite Hsc.
    destruct (decide (ChainId sc ≠ SourceChainID params)) as [Hne | _];
      [contradiction |].
    entrance_step. rewrite Hhandler.
    destruct (decide (SourceChainID params = 2 ∨ SourceChainID params = 3))
      as [Hyes | _]; [contradiction |].
    entrance_step. rewrite Hproposal. reflexivity.
Qed.

(** Whatever distinct values the four chain-id constants have, some
    supported chain id is neither 2 nor 3: the short path of
    [ImportExTransfer] is reachable. *)
Lemma GetChainHandler_outside_2_3 :
  NoDup [BTC_CHAIN_ID; ETH_CHAIN_ID; ONT_CHAIN_ID; NEO_CHAIN_ID] ->
  exists chainid handler,
    GetChainHandler chainid = Ok handler /\ chainid <> 2 /\ chainid <> 3.
Proof.
  intros Hnd.
  assert (Hne : BTC_CHAIN_ID <> ETH_CHAIN_ID /\ BTC_CHAIN_ID <> ONT_CHAIN_ID /\
                ETH_CHAIN_ID <> ONT_CHAIN_ID).
  { apply NoDup_cons in Hnd as [Hb Hnd]. apply NoDup_cons in Hnd as [He _].
    rewrite !not_elem_of_cons in Hb, He. tauto. }
  destruct Hne as (Hbe & Hbo & Heo).
  assert (Hsup : forall c,
             c = BTC_CHAIN_ID \/ c = ETH_CHAIN_ID \/ c = ONT_CHAIN_ID ->
             exists h, GetChainHandler c = Ok h).
  { intros c Hc. unfold GetChainHandler.
    repeat case_decide; eauto. tauto. }
  destruct (decide (BTC_CHAIN_ID = 2 \/ BTC_CHAIN_ID = 3)) as [Hb23 | Hb23].
  - destruct (decide (ETH_CHAIN_ID = 2 \/ ETH_CHAIN_ID = 3)) as [He23 | He23].
    + destruct (Hsup ONT_CHAIN_ID) as [h Hh]; [tauto |].
      exists ONT_CHAIN_ID, h. split; [exact Hh | lia].
    + destruct (Hsup ETH_CHAIN_ID) as [h Hh]; [tauto |].
      exists ETH_CHAIN_ID, h. split; [exact Hh | lia].
  - destruct (Hsup BTC_CHAIN_ID) as [h Hh]; [tauto |].
    exists BTC_CHAIN_ID, h. split; [exact Hh | lia].
Qed.

End EntranceProperties.

Section EntranceExamples.
Import cross_chain_manager.

(** C5 on an explicit input: source chain 7 has no side-chain record. *)
Lemma ImportExTransfer_unregistered_source_witness :
  GetSideChain (demo.service x07 x01) 7 = Err ErrNotFound /\
  exists err,
    ImportExTransfer (demo.service x07 x01) =
      (([x00], Some err), demo.service x07 x01, [Call_GetSideChain 7]) /\
    ((exists e,
        err = Errorf "ImportExTransfer, side_chain_manager.GetSideChain error: %v"
                [ArgErr e]) \/
     err = Errorf "ImportExTransfer, side chain is not registered" []).
Proof.
  split; [reflexivity |].
  exact (ImportExTransfer_unregistered_source (demo.service x07 x01)
           {| SourceChainID := 7; TargetChainID := 1; Height := 0;
              Proof := []; TxData := []; RelayerAddress := [];
              Value := [] |}
           eq_refl (or_introl (ex_intro _ ErrNotFound eq_refl))).
Defined.

(** C1 on an explicit input: source chain 2 and target chain 3, both
    registered. *)
Lemma ImportExTransfer_pipeline_witness :
  let n := demo.service x02 x03 in
  let p := {| TxHash := [x02; x03]; ToChainID := 3; ToAddress := [x61];
              Amount := 10 |} in
  MakeDepositProposal ETHHandler n = (Ok p, n) /\
  exists r n' cs,
    ImportExTransfer n =
      (r, n',
       [Call_GetSideChain 2; Call_MakeDepositProposal ETHHandler;
        Call_GetSideChain 3] ++ cs) /\
    (r = ([x01], None) <->
     exists sc' targetHandler,
       GetSideChain n 3 = Ok sc' /\
       ChainId sc' = 3 /\
       GetChainHandler 3 = Ok targetHandler /\
       MakeTransaction targetHandler n p = (None, n') /\
       cs = [Call_MakeTransaction targetHandler p]).
Proof.
  intros n p.
  pose (params := {| SourceChainID := 2; TargetChainID := 3; Height := 0;
                     Proof := []; TxData := []; RelayerAddress := [];
                     Value := [] |}).
  assert (H1 : EntranceParam_Deserialization (GetInput n) = Ok params)
    by reflexivity.
  assert (H2 : GetSideChain n (SourceChainID params)
               = Ok {| ChainId := 2; Router := 2 |}) by reflexivity.
  assert (H3 : GetChainHandler (SourceChainID params) = Ok ETHHandler)
    by reflexivity.
  assert (H4 : MakeDepositProposal ETHHandler n = (Ok p, n)) by reflexivity.
  split; [exact H4 |].
  exact (proj1 (ImportExTransfer_pipeline n n params _ ETHHandler p
                  H1 H2 eq_refl H3 H4) (or_introl eq_refl)).
Defined.

(** C1 as stated fails: the source chain 1 is registered and its proof yields
    a proposal for chain 7, which is not registered; [ImportExTransfer]
    returns [BYTE_TRUE] with no error, without looking up chain 7 and without
    any call of [MakeTransaction]. *)
Lemma ImportExTransfer_short_path_counterexample :
  let n := demo.service x01 x07 in
  let p := {| TxHash := [x01; x07]; ToChainID := 7; ToAddress := [x61];
              Amount := 10 |} in
  GetSideChain n 1 = Ok {| ChainId := 1; Router := 1 |} /\
  GetChainHandler 1 = Ok BTCHandler /\
  MakeDepositProposal BTCHandler n = (Ok p, n) /\
  GetSideChain n (ToChainID p) = Err ErrNotFound /\
  ImportExTransfer n =
    (([x01], None), n,
     [Call_GetSideChain 1; Call_MakeDepositProposal BTCHandler]).
Proof. vm_compute. repeat split. Qed.

End EntranceExamples.

(** *** The header-sync handler *)

Section HeaderSyncProperties.
Import ont.
Context {NativeService : Type} `{!HeaderSync NativeService}.

Lemma sync_headers_failure (address : Address) (raws : list bytes) :
  forall (n n' : NativeService) (err : error),
    sync_headers address raws n = (Some err, n') ->
    exists pre raw post applied n0,
      raws = pre ++ raw :: post /\
      decoded pre applied /\
      apply_headers address n applied = Some n0 /\
      header_failure address raw n0 err n'.
Proof.
  induction raws as [| v rest IH]; intros n n' err Hrun; [discriminate |].
  cbn [sync_headers] in Hrun.
  destruct (HeaderFromRawBytes v) as [header | e] eqn:Hdec.
  2: { inversion Hrun; subst. exists [], v, rest, [], n'.
       repeat split; [constructor |]. eapply fail_decode; eauto. }
  destruct (GetHeaderByHeight n (ShardID header) (Height header))
    as [stored | e0] eqn:Hget.
  { inversion Hrun; subst. exists [], v, rest, [], n'.
    repeat split; [constructor |]. eapply fail_duplicate; eauto. }
  destruct (verifyHeader n header) as [e |] eqn:Hver.
  { inversion Hrun; subst. exists [], v, rest, [], n'.
    repeat split; [constructor |]. eapply fail_verify; eauto. }
  destruct (PutBlockHeader n header) as [[e |] n1] eqn:Hput.
  { inversion Hrun; subst. exists [], v, rest, [], n.
    repeat split; [constructor |]. eapply fail_put; eauto. }
  destruct (UpdateConsensusPeer n1 header address) as [[e |] n2] eqn:Hupd.
  { inversion Hrun; subst. exists [], v, rest, [], n.
    repeat split; [constructor |]. eapply fail_update; eauto. }
  destruct (IH _ _ _ Hrun) as (pre & raw & post & applied & n0 &
                               -> & Hdecs & Happ & Hfail).
  exists (v :: pre), raw, post, (header :: applied), n0.
  repeat split; [constructor; assumption | | assumption].
  cbn [apply_headers]. unfold apply_header. rewrite Hput, Hupd. exact Happ.
Qed.

(** C3, as the code has it.  When [SyncBlockHeader] returns an error, the
    headers before the failing one have each been applied in full (stored,
    and their peer-set update applied).  If the failing header was refused
    before being stored (it does not decode, is a duplicate, or does not
    verify), the state is exactly that one: nothing of the failing header is
    in it.  If storing it failed, the state is the one [PutBlockHeader] left;
    if its peer-set update failed, the state is the one that
    [UpdateConsensusPeer] left after [PutBlockHeader] had succeeded: the
    header stays stored, nothing is rolled back. *)
Theorem SyncBlockHeader_failure_state
    (n n' : NativeService) (address : Address) (raws : list bytes)
    (err : error)
    (Hparams : SyncBlockHeaderParam_Deserialization (GetInput n)
               = Ok (address, raws))
    (Hfail : SyncBlockHeader n = (Some err, n')) :
  exists pre raw post applied n0,
    raws = pre ++ raw :: post /\
    decoded pre applied /\
    apply_headers address n applied = Some n0 /\
    header_failure address raw n0 err n'.
Proof.
  unfold SyncBlockHeader in Hfail. rewrite Hparams in Hfail.
  exact (sync_headers_failure address raws n n' err Hfail).
Qed.

Context `{!HeaderSyncFrame NativeService}.

Lemma sync_headers_duplicate (address : Address) (raw : bytes)
    (rest : list bytes) (header stored : Header)
    (Hdec : HeaderFromRawBytes raw = Ok header) (pre : list bytes) :
  forall n : NativeService,
    GetHeaderByHeight n (ShardID header) (Height header) = Ok stored ->
    exists err n',
      sync_headers address (pre ++ raw :: rest) n = (Some err, n') /\
      GetHeaderByHeight n' (ShardID header) (Height header) = Ok stored /\
      (pre = [] -> err = DuplicateHeader header /\ n' = n).
Proof.
  induction pre as [| v pre IH]; intros n Hstored.
  - cbn [app sync_headers]. rewrite Hdec, Hstored.
    eexists _, _. split; [reflexivity |]. auto.
  - cbn [app sync_headers].
    destruct (HeaderFromRawBytes v) as [h | e] eqn:Hv.
    2: { eexists _, _. split; [reflexivity |]. split; [assumption | easy]. }
    destruct (GetHeaderByHeight n (ShardID h) (Height h))
      as [s | e0] eqn:Hget.
    { eexists _, _. split; [reflexivity |]. split; [assumption | easy]. }
    assert (Hne : (ShardID header, Height header) <> (ShardID h, Height h)).
    { intros Heq. injection Heq as Hc Hh. rewrite Hc, Hh in Hstored.
      congruence. }
    destruct (verifyHeader n h) as [e |].
    { eexists _, _. split; [reflexivity |]. split; [assumption | easy]. }
    destruct (PutBlockHeader n h) as [[e |] n1] eqn:Hput.
    { eexists _, _. split; [reflexivity |].
      split; [| easy]. rewrite (put_frame _ _ _ _ _ _ Hput Hne). assumption. }
    assert (Hstored1 :
              GetHeaderByHeight n1 (ShardID header) (Height header)
              = Ok stored).
    { rewrite (put_frame _ _ _ _ _ _ Hput Hne). assumption. }
    destruct (UpdateConsensusPeer n1 h address) as [[e |] n2] eqn:Hupd.
    { eexists _, _. split; [reflexivity |].
      split; [| easy]. rewrite (update_frame _ _ _ _ _ _ _ Hupd).
      assumption. }
    destruct (IH n2) as (err & n' & Hrun & Hkept & _).
    { rewrite (update_frame _ _ _ _ _ _ _ Hupd). assumption. }
    exists err, n'. split; [assumption |]. split; [assumption | easy].
Qed.

(** C2, as the code has it.  Let a header be stored at chain [C] and height
    [h].  A [SyncBlockHeader] call that carries a header for [(C, h)] returns
    an error and leaves the header stored at [(C, h)] as it was.  When that
    header is the first of the call, the error is the duplicate-header error
    and the whole state (peer sets included) is unchanged; the headers before
    it in the call are processed first. *)
Theorem SyncBlockHeader_duplicate
    (n : NativeService) (address : Address) (pre rest : list bytes)
    (raw : bytes) (header stored : Header)
    (Hparams : SyncBlockHeaderParam_Deserialization (GetInput n)
               = Ok (address, pre ++ raw :: rest))
    (Hdec : HeaderFromRawBytes raw = Ok header)
    (Hstored : GetHeaderByHeight n (ShardID header) (Height header)
               = Ok stored) :
  exists err n',
    SyncBlockHeader n = (Some err, n') /\
    GetHeaderByHeight n' (ShardID header) (Height header) = Ok stored /\
    (pre = [] -> err = DuplicateHeader header /\ n' = n).
Proof.
  unfold SyncBlockHeader. rewrite Hparams.
  exact (sync_headers_duplicate address raw rest header stored Hdec pre n
           Hstored).
Qed.

End HeaderSyncProperties.

Section HeaderSyncExamples.
Import ont.

(** The concrete service keeps headers per chain and height and peer sets
    apart from them. *)
#[local] Instance sync_frame : HeaderSyncFrame demo.Sync.
Proof.
  split.
  - intros n header err n' c k Hput Hne. cbn in Hput, Hne |- *.
    unfold demo.put_header in Hput. injection Hput as _ <-.
    unfold demo.header_at. cbn.
    rewrite lookup_insert_ne by congruence. reflexivity.
  - intros n header address err n' c k Hupd. cbn in Hupd |- *.
    unfold demo.update_peer in Hupd.
    destruct (decide (demo.rotation header = 0)).
    + injection Hupd as _ <-. reflexivity.
    + destruct (demo.peer_write_fault n) eqn:Hfault.
      * injection Hupd as _ <-. reflexivity.
      * injection Hupd as _ <-. reflexivity.
Qed.

(** C2 on an explicit input: the header of chain 1 at height 5 is stored, and
    the call carries a new header for height 6 followed by one for height 5. *)
Lemma SyncBlockHeader_duplicate_witness :
  let n := demo.synced [x00; x01; x06; x07; x09; x01; x05; x07; x00]
             None None in
  exists err n',
    SyncBlockHeader n = (Some err, n') /\
    GetHeaderByHeight n' 1 5 = Ok demo.accepted /\
    ([[x01; x06; x07; x09]] = [] ->
     err = DuplicateHeader demo.accepted /\ n' = n).
Proof.
  intros n.
  exact (@SyncBlockHeader_duplicate demo.Sync demo.sync_header_sync
           sync_frame n x00 [[x01; x06; x07; x09]] []
           [x01; x05; x07; x00] demo.accepted demo.accepted
           eq_refl eq_refl eq_refl).
Defined.

(** C2 as stated fails: the header for height 5 is refused as a duplicate,
    but the header for height 6 that precedes it in the call has been stored
    and its rotation to peer 9 has been added to the peer sets. *)
Lemma SyncBlockHeader_duplicate_counterexample :
  let n := demo.synced [x00; x01; x06; x07; x09; x01; x05; x07; x00]
             None None in
  GetHeaderByHeight n 1 5 = Ok demo.accepted /\
  (SyncBlockHeader n).1
    = Some (Errorf "SyncBlockHeader, %d, %d" [ArgNum 1; ArgNum 5]) /\
  demo.peers n = [(1, 0, 7)] /\
  demo.peers (SyncBlockHeader n).2 = [(1, 6, 9); (1, 0, 7)] /\
  demo.headers (SyncBlockHeader n).2 !! (1, 6)
    = Some {| demo.chain := 1; demo.height := 6; demo.signer := 7;
              demo.rotation := 9 |}.
Proof. vm_compute. repeat split. Qed.

(** C3 on an explicit input: the write of the peer history fails. *)
Lemma SyncBlockHeader_failure_state_witness :
  let n := demo.synced [x00; x01; x06; x07; x09] None
             (Some (ErrOther "write failed")) in
  exists pre raw post applied n0,
    [[x01; x06; x07; x09]] = pre ++ raw :: post /\
    decoded pre applied /\
    apply_headers x00 n applied = Some n0 /\
    header_failure x00 raw n0
      (Errorf "SyncBlockHeader, update ConsensusPeer error: %v"
         [ArgErr (ErrOther "write failed")])
      (SyncBlockHeader n).2.
Proof.
  intros n.
  apply (@SyncBlockHeader_failure_state demo.Sync demo.sync_header_sync
           n (SyncBlockHeader n).2 x00 [[x01; x06; x07; x09]]).
  - reflexivity.
  - vm_compute. reflexivity.
Defined.

(** C3 as stated fails: the header for height 6 verifies and is stored, then
    its peer-set update fails; [SyncBlockHeader] returns the error and leaves
    the header stored with the peer sets as they were. *)
Lemma SyncBlockHeader_partial_counterexample :
  let n := demo.synced [x00; x01; x06; x07; x09] None
             (Some (ErrOther "write failed")) in
  (SyncBlockHeader n).1
    = Some (Errorf "SyncBlockHeader, update ConsensusPeer error: %v"
              [ArgErr (ErrOther "write failed")]) /\
  demo.headers n !! (1, 6) = None /\
  demo.headers (SyncBlockHeader n).2 !! (1, 6)
    = Some {| demo.chain := 1; demo.height := 6; demo.signer := 7;
              demo.rotation := 9 |} /\
  demo.peers (SyncBlockHeader n).2 = demo.peers n.
Proof. vm_compute. repeat split. Qed.

(** C8 fails on the code: the read of the header table fails, and
    [SyncBlockHeader] goes on as if no header were stored at chain 1, height
    5.  It returns no error, replaces the stored header and applies the
    rotation the new header carries. *)
Lemma SyncBlockHeader_swallows_read_failure :
  let n := demo.synced [x00; x01; x05; x07; x09]
             (Some (ErrOther "read failed")) None in
  demo.headers n !! (1, 5) = Some demo.accepted /\
  GetHeaderByHeight n 1 5 = Err (ErrOther "read failed") /\
  (SyncBlockHeader n).1 = None /\
  demo.headers (SyncBlockHeader n).2 !! (1, 5)
    = Some {| demo.chain := 1; demo.height := 5; demo.signer := 7;
              demo.rotation := 9 |} /\
  demo.peers (SyncBlockHeader n).2 = [(1, 5, 9); (1, 0, 7)].
Proof. vm_compute. repeat split. Qed.

End HeaderSyncExamples.

(** *** Encodings and the storage substrate *)

Section Encoding.
Import leveldbstore.

Lemma Z_of_byte_of_Z (v : Z) : Z_of_byte (byte_of_Z v) = v mod 256.
Proof.
  unfold Z_of_byte, byte_of_Z.
  assert (H : 0 <= v mod 256 < 256) by (apply Z.mod_pos_bound; lia).
  destruct (Byte.of_N (Z.to_N (v mod 256))) as [b |] eqn:Hb.
  - cbn. apply Byte.to_of_N in Hb. rewrite Hb. lia.
  - exfalso. pose proof (Byte.to_of_N_option_map (Z.to_N (v mod 256))) as Hm.
    rewrite Hb in Hm. cbn in Hm.
    destruct (N.leb_spec (Z.to_N (v mod 256)) 255); [discriminate | lia].
Qed.

Lemma Z_of_byte_range (b : byte) : 0 <= Z_of_byte b < 256.
Proof.
  unfold Z_of_byte. pose proof (Byte.to_N_bounded b). lia.
Qed.


Lemma land_low_shiftl (a b n : Z) :
  0 <= n -> 0 <= a < 2 ^ n -> Z.land a (Z.shiftl b n) = 0.
Proof.
  intros Hn Ha. apply Z.bits_inj'. intros i Hi.
  rewrite Z.land_spec, Z.bits_0.
  destruct (Z.lt_ge_cases i n) as [Hlt | Hge].
  - rewrite (Z.shiftl_spec_low b n i Hlt). apply andb_false_r.
  - assert (Hbit : Z.testbit a i = false).
    { destruct (Z.eq_dec a 0) as [-> | Hne]; [apply Z.bits_0 |].
      apply Z.bits_above_log2; [lia |].
      apply Z.log2_lt_pow2; [lia |].
      apply Z.lt_le_trans with (2 ^ n); [lia |].
      apply Z.pow_le_mono_r; lia. }
    rewrite Hbit. reflexivity.
Qed.

Lemma lor_low_mul (a c n : Z) :
  0 <= n -> 0 <= a < 2 ^ n -> Z.lor a (c * 2 ^ n) = a + c * 2 ^ n.
Proof.
  intros Hn Ha. rewrite <- Z.shiftl_mul_pow2 by lia.
  rewrite <- Z.add_nocarry_lor by (apply land_low_shiftl; lia). reflexivity.
Qed.

Lemma Uint32_PutUint32 (v : Z) (rest : bytes) :
  0 <= v < 2 ^ 32 -> NextUint32 (PutUint32 v ++ rest) = Some (v, rest).
Proof.
  intros Hv. unfold PutUint32. cbn [app NextUint32]. f_equal. f_equal.
  unfold Uint32. rewrite !Z_of_byte_of_Z.
  rewrite !Z.shiftr_div_pow2, !Z.shiftl_mul_pow2 by lia.
  set (r0 := v mod 256). set (r1 := (v / 2 ^ 8) mod 256).
  set (r2 := (v / 2 ^ 16) mod 256). set (r3 := (v / 2 ^ 24) mod 256).
  assert (H0 : 0 <= r0 < 256) by (apply Z.mod_pos_bound; lia).
  assert (H1 : 0 <= r1 < 256) by (apply Z.mod_pos_bound; lia).
  assert (H2 : 0 <= r2 < 256) by (apply Z.mod_pos_bound; lia).
  assert (H3 : 0 <= r3 < 256) by (apply Z.mod_pos_bound; lia).
  rewrite (lor_low_mul (r2 * 2 ^ 16) r3 24) by lia.
  replace (r2 * 2 ^ 16 + r3 * 2 ^ 24) with ((r2 + r3 * 2 ^ 8) * 2 ^ 16) by lia.
  rewrite (lor_low_mul (r1 * 2 ^ 8) _ 16) by lia.
  replace (r1 * 2 ^ 8 + (r2 + r3 * 2 ^ 8) * 2 ^ 16)
    with ((r1 + r2 * 2 ^ 8 + r3 * 2 ^ 16) * 2 ^ 8) by lia.
  rewrite (lor_low_mul r0 _ 8) by lia.
  subst r0 r1 r2 r3.
  pose proof (Z.div_mod v 256 ltac:(lia)) as E0.
  pose proof (Z.div_mod (v / 2 ^ 8) 256 ltac:(lia)) as E1.
  pose proof (Z.div_mod (v / 2 ^ 16) 256 ltac:(lia)) as E2.
  assert (E3 : (v / 2 ^ 24) mod 256 = v / 2 ^ 24).
  { apply Z.mod_small. split; [apply Z.div_pos; lia |].
    apply Z.div_lt_upper_bound; lia. }
  replace (v / 2 ^ 8 / 256) with (v / 2 ^ 16) in E1
    by (rewrite Z.div_div by lia; reflexivity).
  replace (v / 2 ^ 16 / 256) with (v / 2 ^ 24) in E2
    by (rewrite Z.div_div by lia; reflexivity).
  change (2 ^ 8) with 256 in *. lia.
Qed.

Lemma next_vec_app {A} (n : nat) (v : vec A n) (rest : list A) :
  next_vec n (vec_to_list v ++ rest) = Some (v, rest).
Proof.
  induction v as [| x n v IH]; [reflexivity |].
  cbn. rewrite IH. reflexivity.
Qed.

Lemma foldl_write_op_lookup (l : list (bytes * option bytes)) (key : bytes) :
  forall m : gmap bytes bytes,
    foldl write_op m l !! key =
    match last_write key l with
    | Some w => w
    | None => m !! key
    end.
Proof.
  induction l as [| [k w] l IH]; intros m; [reflexivity |].
  cbn [foldl last_write]. rewrite IH.
  destruct (last_write key l); [reflexivity |].
  destruct (decide (k = key)) as [-> | Hne]; destruct w; cbn.
  - apply lookup_insert_eq.
  - apply lookup_delete_eq.
  - apply lookup_insert_ne; assumption.
  - apply lookup_delete_ne; assumption.
Qed.

Lemma last_write_app (key : bytes) (l1 l2 : list (bytes * option bytes)) :
  last_write key (l1 ++ l2) =
  match last_write key l2 with
  | Some w => Some w
  | None => last_write key l1
  end.
Proof.
  induction l1 as [| [k w] l1 IH]; cbn.
  - destruct (last_write key l2); reflexivity.
  - rewrite IH. destruct (last_write key l2); reflexivity.
Qed.

End Encoding.

(** *** The block store *)

Section BlockStoreProperties.
Import leveldbstore ledgerstore.
Context `{!Types} `{!Prefixes}.

Lemma assoc_remove_key {V} (key k : Uint256) (l : list (Uint256 * V)) :
  assoc k (remove_key key l) = if decide (key = k) then None else assoc k l.
Proof.
  unfold remove_key. induction l as [| [k' v] l IH].
  - cbn. destruct (decide (key = k)); reflexivity.
  - rewrite filter_cons. cbn [fst assoc].
    destruct (decide (k' ≠ key)) as [Hne | Heq].
    + cbn [assoc]. rewrite IH. destruct (decide (k' = k)) as [-> | ?].
      * destruct (decide (key = k)); [congruence | reflexivity].
      * reflexivity.
    + apply dec_stable in Heq. subst k'. rewrite IH.
      destruct (decide (key = k)); reflexivity.
Qed.

Lemma assoc_take {V} (n : nat) (k : Uint256) (l : list (Uint256 * V)) (v : V) :
  assoc k (take n l) = Some v -> assoc k l = Some v.
Proof.
  revert n. induction l as [| [k' v'] l IH]; intros [| n]; cbn; try discriminate.
  destruct (decide (k' = k)); [auto | apply IH].
Qed.

Lemma peek_lru_Add {V} (c : LRU V) (key k : Uint256) (v v' : V) :
  peek (lru_Add c key v) k = Some v' ->
  (k = key /\ v' = v) \/ (k <> key /\ peek c k = Some v').
Proof.
  unfold peek, lru_Add. cbn [items]. intros Hk. apply assoc_take in Hk.
  cbn [assoc] in Hk. destruct (decide (key = k)) as [-> | Hne].
  - left. split; congruence.
  - right. rewrite assoc_remove_key in Hk.
    destruct (decide (key = k)); [contradiction |]. split; congruence.
Qed.

Lemma lru_Get_spec {V} (c : LRU V) (key : Uint256) :
  (lru_Get c key).1 = peek c key /\
  bound (lru_Get c key).2 = bound c /\
  forall k, peek (lru_Get c key).2 k = peek c k.
Proof.
  unfold lru_Get, peek. destruct (assoc key (items c)) as [v |] eqn:Hv; cbn.
  - repeat split. intros k. destruct (decide (key = k)) as [<- | Hne].
    + congruence.
    + rewrite assoc_remove_key. destruct (decide (key = k)); [contradiction | reflexivity].
  - auto.
Qed.


Lemma same_cache_refl c : same_cache c c.
Proof. split; reflexivity. Qed.

Lemma same_cache_trans a b c :
  same_cache a b -> same_cache b c -> same_cache a c.
Proof. intros [H1 H2] [G1 G2]. split; intros; congruence. Qed.

Lemma same_contents_refl this : same_contents this this.
Proof. repeat split. Qed.

Lemma same_contents_trans a b c :
  same_contents a b -> same_contents b c -> same_contents a c.
Proof.
  intros (H1 & H2 & H3) (G1 & G2 & G3).
  repeat split; try congruence; eapply same_cache_trans; eauto.
Qed.

Lemma same_contents_set_cache this c :
  same_cache (cache this) c -> same_contents this (set_cache this c).
Proof. intros Hc. repeat split; apply Hc. Qed.

Lemma cache_GetTransaction_spec (c : BlockCache) (txHash : Uint256) :
  (cache_GetTransaction c txHash).1 = peek (transactionCache c) txHash /\
  same_cache c (cache_GetTransaction c txHash).2.
Proof.
  unfold cache_GetTransaction.
  pose proof (lru_Get_spec (transactionCache c) txHash) as (Hr & _ & Hpk).
  destruct (lru_Get (transactionCache c) txHash) as [r tc]. cbn in *.
  split; [assumption |]. split; [reflexivity | assumption].
Qed.

Lemma cache_GetBlock_spec (c : BlockCache) (blockHash : Uint256) :
  (cache_GetBlock c blockHash).1 = peek (blockCache c) blockHash /\
  same_cache c (cache_GetBlock c blockHash).2.
Proof.
  unfold cache_GetBlock.
  pose proof (lru_Get_spec (blockCache c) blockHash) as (Hr & _ & Hpk).
  destruct (lru_Get (blockCache c) blockHash) as [r bc]. cbn in *.
  split; [assumption |]. split; [assumption | reflexivity].
Qed.

Lemma loadTransaction_spec (this : BlockStore) (txHash : Uint256) :
  same_contents this (loadTransaction this txHash).2 /\
  (loadTransaction this txHash).1 =
    (if enableCache this then
       match peek (transactionCache (cache this)) txHash with
       | Some (tx, height) => Ok (Some tx, height)
       | None => stored_transaction (store this) txHash
       end
     else stored_transaction (store this) txHash).
Proof.
  unfold loadTransaction, stored_transaction.
  destruct (enableCache this) eqn:Hen.
  - pose proof (cache_GetTransaction_spec (cache this) txHash) as [Hr Hc].
    destruct (cache_GetTransaction (cache this) txHash) as [r c1].
    cbn [fst snd] in Hr, Hc. subst r.
    apply same_contents_set_cache in Hc.
    destruct (peek (transactionCache (cache this)) txHash) as [[tx height] |];
      [split; [exact Hc | reflexivity] |].
    cbn [store set_cache].
    destruct (Get (store this) (getTransactionKey txHash)) as [value |];
      [| split; [exact Hc | reflexivity]].
    destruct (NextUint32 value) as [[height source] |];
      [| split; [exact Hc | reflexivity]].
    destruct (Transaction_Deserialization source);
      (split; [exact Hc | reflexivity]).
  - destruct (Get (store this) (getTransactionKey txHash)) as [value |];
      [| split; [apply same_contents_refl | reflexivity]].
    destruct (NextUint32 value) as [[height source] |];
      [| split; [apply same_contents_refl | reflexivity]].
    destruct (Transaction_Deserialization source);
      (split; [apply same_contents_refl | reflexivity]).
Qed.

Lemma GetTransaction_spec (this : BlockStore) (txHash : Uint256) :
  same_contents this (GetTransaction this txHash).2 /\
  (GetTransaction this txHash).1 = transaction_view this txHash.
Proof.
  unfold GetTransaction, transaction_view.
  destruct (enableCache this) eqn:Hen.
  - pose proof (cache_GetTransaction_spec (cache this) txHash) as [Hr Hc].
    destruct (cache_GetTransaction (cache this) txHash) as [r c1].
    cbn [fst snd] in Hr, Hc. subst r.
    pose proof (same_contents_set_cache this c1 Hc) as Hs.
    destruct (peek (transactionCache (cache this)) txHash)
      as [[tx height] |] eqn:Hpeek; [split; [exact Hs | reflexivity] |].
    pose proof (loadTransaction_spec (set_cache this c1) txHash) as [Hs2 Hr2].
    split; [eapply same_contents_trans; eassumption |].
    rewrite Hr2. cbn [enableCache set_cache cache store]. rewrite Hen.
    destruct Hc as [_ Htx]. rewrite Htx, Hpeek. reflexivity.
  - pose proof (loadTransaction_spec this txHash) as [Hs2 Hr2].
    split; [assumption |]. rewrite Hr2, Hen. reflexivity.
Qed.

Lemma transaction_view_same (this this' : BlockStore) (txHash : Uint256) :
  same_contents this this' ->
  transaction_view this' txHash = transaction_view this txHash.
Proof.
  intros (Hs & He & _ & Htx). unfold transaction_view.
  rewrite Hs, He, Htx. reflexivity.
Qed.

Lemma transactions_view_same (this this' : BlockStore)
    (txHashes : list Uint256) :
  same_contents this this' ->
  forall txList,
    transactions_view this' txHashes txList
    = transactions_view this txHashes txList.
Proof.
  intros Hs. induction txHashes as [| h rest IH]; intros txList;
    [reflexivity |].
  cbn [transactions_view]. rewrite (transaction_view_same _ _ _ Hs).
  destruct (transaction_view this h) as [[[tx |] ht] | e]; auto.
Qed.

Lemma get_transactions_spec (txHashes : list Uint256) :
  forall (this : BlockStore) (txList : list Transaction),
    same_contents this (get_transactions this txHashes txList).2 /\
    (get_transactions this txHashes txList).1
    = transactions_view this txHashes txList.
Proof.
  induction txHashes as [| h rest IH]; intros this txList.
  - split; [apply same_contents_refl | reflexivity].
  - cbn [get_transactions transactions_view].
    pose proof (GetTransaction_spec this h) as [Hs Hr].
    destruct (GetTransaction this h) as [r this1]. cbn [fst snd] in Hs, Hr.
    rewrite <- Hr.
    destruct r as [[[tx |] ht] | e]; try (split; [exact Hs | reflexivity]).
    destruct (IH this1 (txList ++ [tx])) as [Hs2 Hr2].
    split; [eapply same_contents_trans; eassumption |].
    rewrite Hr2. apply transactions_view_same. assumption.
Qed.

Lemma stored_block_same (this this' : BlockStore) (blockHash : Uint256) :
  same_contents this this' ->
  stored_block this' blockHash = stored_block this blockHash.
Proof.
  intros Hs. unfold stored_block, loadHeaderWithTx.
  pose proof Hs as (Hst & _). rewrite Hst.
  destruct (Get (store this) (getHeaderKey blockHash)); [| reflexivity].
  destruct (Header_Deserialization a) as [[header source] |]; [| reflexivity].
  destruct (NextUint32 source) as [[txSize source'] |]; [| reflexivity].
  destruct (next_hashes (Z.to_nat txSize) source' []); [| reflexivity].
  rewrite (transactions_view_same this this') by assumption.
  reflexivity.
Qed.

Lemma GetBlock_spec (this : BlockStore) (blockHash : Uint256) :
  same_contents this (GetBlock this blockHash).2 /\
  (GetBlock this blockHash).1 = block_view this blockHash.
Proof.
  unfold GetBlock, block_view.
  assert (Hstored : forall this1,
            same_contents this this1 ->
            same_contents this
              (match loadHeaderWithTx this1 blockHash with
               | Ok (header, txHashes) =>
                 match get_transactions this1 txHashes [] with
                 | (Ok txList, this') =>
                   (Ok {| blk_Header := header; Transactions := txList |},
                    this')
                 | (Err err, this') => (Err err, this')
                 end
               | Err err => (Err err, this1)
               end).2 /\
            (match loadHeaderWithTx this1 blockHash with
               | Ok (header, txHashes) =>
                 match get_transactions this1 txHashes [] with
                 | (Ok txList, this') =>
                   (Ok {| blk_Header := header; Transactions := txList |},
                    this')
                 | (Err err, this') => (Err err, this')
                 end
               | Err err => (Err err, this1)
               end).1 = stored_block this blockHash).
  { intros this1 Hs1. rewrite <- (stored_block_same this this1 _ Hs1).
    unfold stored_block.
    destruct (loadHeaderWithTx this1 blockHash) as [[header txHashes] | e];
      [| split; [exact Hs1 | reflexivity]].
    pose proof (get_transactions_spec txHashes this1 []) as [Hs2 Hr2].
    destruct (get_transactions this1 txHashes []) as [r this2].
    cbn [fst snd] in Hs2, Hr2. rewrite <- Hr2.
    destruct r; (split; [eapply same_contents_trans; eassumption
                        | reflexivity]). }
  destruct (enableCache this) eqn:Hen.
  - pose proof (cache_GetBlock_spec (cache this) blockHash) as [Hr Hc].
    destruct (cache_GetBlock (cache this) blockHash) as [r c1].
    cbn [fst snd] in Hr, Hc. subst r.
    pose proof (same_contents_set_cache this c1 Hc) as Hs.
    destruct (peek (blockCache (cache this)) blockHash) as [block |];
      [split; [exact Hs | reflexivity] |].
    apply Hstored. exact Hs.
  - apply Hstored. apply same_contents_refl.
Qed.

Lemma GetHeader_spec (this : BlockStore) (blockHash : Uint256) :
  same_contents this (GetHeader this blockHash).2 /\
  (GetHeader this blockHash).1 = header_view this blockHash.
Proof.
  unfold GetHeader, header_view.
  destruct (enableCache this) eqn:Hen.
  - pose proof (cache_GetBlock_spec (cache this) blockHash) as [Hr Hc].
    destruct (cache_GetBlock (cache this) blockHash) as [r c1].
    cbn [fst snd] in Hr, Hc. subst r.
    pose proof (same_contents_set_cache this c1 Hc) as Hs.
    destruct (peek (blockCache (cache this)) blockHash) as [block |];
      (split; [exact Hs | reflexivity]).
  - split; [apply same_contents_refl | reflexivity].
Qed.

Lemma transaction_view_not_nil (this : BlockStore) (txHash : Uint256)
    (height : Z) :
  transaction_view this txHash <> Ok (None, height).
Proof.
  unfold transaction_view, stored_transaction.
  destruct (enableCache this);
    [destruct (peek (transactionCache (cache this)) txHash) as [[tx ht] |];
       [discriminate |] |];
    (destruct (Get (store this) (getTransactionKey txHash)) as [value |];
       [| discriminate];
     destruct (NextUint32 value) as [[ht source] |]; [| discriminate];
     destruct (Transaction_Deserialization source); discriminate).
Qed.



Lemma foldl_WriteHash (txs : list Transaction) :
  forall sink,
    foldl (fun sink tx => WriteHash sink (Transaction_Hash tx)) sink txs
    = sink ++ concat (map (fun tx => ToArray (Transaction_Hash tx)) txs).
Proof.
  induction txs as [| tx txs IH]; intros sink; cbn.
  - rewrite app_nil_r. reflexivity.
  - rewrite IH. unfold WriteHash. rewrite <- app_assoc. reflexivity.
Qed.

Lemma SaveHeader_eq (this : BlockStore) (block : Block) :
  SaveHeader this block =
  (None, set_store this
           (BatchPut (store this) (getHeaderKey (Hash block))
              (header_value block))).
Proof.
  unfold SaveHeader, header_value, WriteUint32. rewrite foldl_WriteHash.
  rewrite <- app_assoc. reflexivity.
Qed.

Lemma save_transactions_ok (txs : list Transaction) (height : Z) :
  forall this this',
    save_transactions this txs height = (None, this') ->
    exists ops,
      Forall2 (transaction_op height) txs ops /\
      db (store this') = db (store this) /\
      fault (store this') = fault (store this) /\
      batch (store this') = batch (store this) ++ ops /\
      enableCache this' = enableCache this /\
      blockCache (cache this') = blockCache (cache this) /\
      transactionCache (cache this') =
        (if enableCache this
         then foldl (fun c tx =>
                       lru_Add c (Transaction_Hash tx) (tx, height))
                (transactionCache (cache this)) txs
         else transactionCache (cache this)).
Proof.
  induction txs as [| tx txs IH]; intros this this' Hsave.
  - injection Hsave as <-. exists []. rewrite app_nil_r.
    repeat split; [constructor |]. destruct (enableCache this); reflexivity.
  - cbn [save_transactions] in Hsave.
    destruct (SaveTransaction this tx height) as [[e |] this1] eqn:Hone;
      [discriminate |].
    unfold SaveTransaction, putTransaction, serialization_WriteUint32 in Hone.
    destruct (WriteBytes (Transaction_Raw tx)) as [written |] eqn:Hw;
      [| discriminate].
    injection Hone as <-.
    destruct (IH _ _ Hsave) as (ops & Hops & Hdb & Hfault & Hbatch & Hen
                                & Hbc & Htc).
    exists ((getTransactionKey (Transaction_Hash tx),
             Some (PutUint32 height ++ written)) :: ops).
    split; [constructor; [exists written; auto | assumption] |].
    destruct (enableCache this) eqn:Hthis; cbn in *;
      rewrite ?Hthis in *; cbn in *;
      (repeat split; try assumption;
       rewrite Hbatch, <- app_assoc; reflexivity).
Qed.

Lemma next_hashes_concat (hs : list Uint256) :
  forall acc rest,
    next_hashes (length hs) (concat (map ToArray hs) ++ rest) acc
    = Ok (acc ++ hs).
Proof.
  induction hs as [| h hs IH]; intros acc rest; cbn [length next_hashes].
  - rewrite app_nil_r. reflexivity.
  - cbn [map concat]. unfold NextHash, ToArray at 1.
    rewrite <- app_assoc, next_vec_app, IH, <- app_assoc. reflexivity.
Qed.

Lemma getTransactionKey_inj (h1 h2 : Uint256) :
  getTransactionKey h1 = getTransactionKey h2 -> h1 = h2.
Proof.
  unfold getTransactionKey, Serialize, ToArray. cbn [app].
  intros [= Heq]. apply vec_to_list_inj2. assumption.
Qed.

Lemma last_write_transactions (height : Z) (key : bytes)
    (txs : list Transaction) (ops : list (bytes * option bytes)) :
  Forall2 (transaction_op height) txs ops ->
  match last_write key ops with
  | Some w =>
    exists tx written,
      tx ∈ txs /\ key = getTransactionKey (Transaction_Hash tx) /\
      WriteBytes (Transaction_Raw tx) = Ok written /\
      w = Some (PutUint32 height ++ written)
  | None => forall tx, tx ∈ txs ->
                       key <> getTransactionKey (Transaction_Hash tx)
  end.
Proof.
  induction 1 as [| tx op txs ops (written & Hw & ->) _ IH]; cbn [last_write].
  - intros tx Hin. inversion Hin.
  - destruct (last_write key ops) as [w |].
    + destruct IH as (tx' & written' & Hin & Hk & Hw' & ->).
      exists tx', written'. repeat split; try assumption. by right.
    + destruct (decide (getTransactionKey (Transaction_Hash tx) = key))
        as [<- | Hne].
      * exists tx, written. repeat split; try assumption. by left.
      * intros tx' Hin. apply elem_of_cons in Hin as [-> | Hin];
          [congruence | by apply IH].
Qed.

Lemma transactions_view_all (this : BlockStore) (txs : list Transaction) :
  Forall (fun tx => exists height,
            transaction_view this (Transaction_Hash tx)
            = Ok (Some tx, height)) txs ->
  forall txList,
    transactions_view this (map Transaction_Hash txs) txList
    = Ok (txList ++ txs).
Proof.
  induction 1 as [| tx txs [height Hview] _ IH]; intros txList;
    cbn [map transactions_view].
  - rewrite app_nil_r. reflexivity.
  - rewrite Hview, IH, <- app_assoc. reflexivity.
Qed.

Lemma peek_foldl_Add (height : Z) (k : Uint256) (tx' : Transaction)
    (height' : Z) (txs : list Transaction) :
  forall c : LRU (Transaction * Z),
    peek (foldl (fun c tx => lru_Add c (Transaction_Hash tx) (tx, height))
            c txs) k = Some (tx', height') ->
    (exists tx, tx ∈ txs /\ Transaction_Hash tx = k /\ tx' = tx /\
                height' = height) \/
    (peek c k = Some (tx', height') /\
     forall tx, tx ∈ txs -> Transaction_Hash tx <> k).
Proof.
  induction txs as [| tx txs IH]; intros c Hpeek; cbn [foldl] in Hpeek.
  - right. split; [assumption |]. intros tx Hin. inversion Hin.
  - destruct (IH _ Hpeek) as [(tx0 & Hin & Hk & -> & ->) | [Hc Hnone]].
    + left. exists tx0. repeat split; try assumption. by right.
    + apply peek_lru_Add in Hc as [[-> Heq] | [Hne Hc]].
      * left. exists tx. injection Heq as -> ->.
        repeat split. by left.
      * right. split; [assumption |]. intros tx0 Hin.
        apply elem_of_cons in Hin as [-> | Hin]; [congruence | by apply Hnone].
Qed.


Lemma SaveBlock_ok (this this1 : BlockStore) (block : Block) :
  SaveBlock this block = (None, this1) ->
  exists ops,
    Forall2 (transaction_op (Header_Height (blk_Header block)))
      (Transactions block) ops /\
    db (store this1) = db (store this) /\
    fault (store this1) = fault (store this) /\
    batch (store this1) =
      batch (store this)
      ++ (getHeaderKey (Hash block), Some (header_value block)) :: ops /\
    enableCache this1 = enableCache this /\
    blockCache (cache this1) =
      (if enableCache this
       then lru_Add (blockCache (cache this)) (Hash block) block
       else blockCache (cache this)) /\
    transactionCache (cache this1) =
      (if enableCache this
       then foldl (fun c tx =>
                     lru_Add c (Transaction_Hash tx)
                       (tx, Header_Height (blk_Header block)))
              (transactionCache (cache this)) (Transactions block)
       else transactionCache (cache this)).
Proof.
  unfold SaveBlock. rewrite SaveHeader_eq. intros Hsave.
  apply save_transactions_ok in Hsave
    as (ops & Hops & Hdb & Hfault & Hbatch & Hen & Hbc & Htc).
  exists ops. split; [assumption |].
  destruct (enableCache this) eqn:Hthis; cbn in *; rewrite ?Hthis in *;
    rewrite <- app_assoc in Hbatch; cbn [app] in Hbatch;
    repeat split; assumption.
Qed.

Lemma CommitTo_ok (this this' : BlockStore) :
  CommitTo this = (None, this') ->
  fault (store this) = None /\
  fault (store this') = None /\
  db (store this') = foldl write_op (db (store this)) (batch (store this)) /\
  batch (store this') = batch (store this) /\
  enableCache this' = enableCache this /\
  cache this' = cache this.
Proof.
  unfold CommitTo, BatchCommit.
  destruct (fault (store this)) eqn:Hfault; cbn; [discriminate |].
  intros [= <-]. cbn. repeat split; reflexivity.
Qed.

Section RoundTrip.
Context `{!TypesLaws}.

(** C4. After [SaveBlock] of a block has returned no error and [CommitTo] has
    committed its batch, [GetBlock] on the hash of the block returns that
    block: its header and its transactions, in order.  The block has fewer
    than [2^32] transactions, no two of them differ with the same hash, the
    encodings of headers and transactions round-trip, and headers and
    transactions are keyed under different prefixes. *)
Theorem SaveBlock_then_GetBlock (this this1 this2 : BlockStore)
    (block : Block)
    (Hprefix : DATA_HEADER <> DATA_TRANSACTION)
    (Hcount : Z.of_nat (length (Transactions block)) < 2 ^ 32)
    (Hfree : collision_free (Transactions block))
    (Hsave : SaveBlock this block = (None, this1))
    (Hcommit : CommitTo this1 = (None, this2)) :
  exists this3, GetBlock this2 (Hash block) = (Ok block, this3).
Proof.
  apply SaveBlock_ok in Hsave
    as (ops & Hops & Hdb & _ & Hbatch & Hen & Hbc & Htc).
  apply CommitTo_ok in Hcommit as (_ & Hfault2 & Hdb2 & _ & Hen2 & Hcache2).
  set (height := Header_Height (blk_Header block)) in *.
  (* what the store holds under the keys of the block *)
  assert (Hget : forall key,
            Get (store this2) key =
            match foldl write_op (db (store this)) (batch (store this1))
                  !! key with
            | Some value => Ok value
            | None => Err ErrNotFound
            end).
  { intros key. unfold Get. rewrite Hfault2, Hdb2, Hdb. reflexivity. }
  assert (Hheader : Get (store this2) (getHeaderKey (Hash block))
                    = Ok (header_value block)).
  { rewrite Hget, foldl_write_op_lookup, Hbatch, last_write_app.
    cbn [last_write].
    pose proof (last_write_transactions height (getHeaderKey (Hash block))
                  _ _ Hops) as Hlast.
    destruct (last_write (getHeaderKey (Hash block)) ops) as [w |].
    - destruct Hlast as (tx & written & _ & Hkey & _).
      exfalso. unfold getHeaderKey, getTransactionKey, Serialize in Hkey.
      cbn [app] in Hkey. congruence.
    - rewrite decide_True by reflexivity. reflexivity. }
  assert (Htxs : forall tx,
            tx ∈ Transactions block ->
            exists ht, stored_transaction (store this2) (Transaction_Hash tx)
                       = Ok (Some tx, ht)).
  { intros tx Hin. unfold stored_transaction.
    rewrite Hget, foldl_write_op_lookup, Hbatch, last_write_app.
    cbn [last_write].
    pose proof (last_write_transactions height
                  (getTransactionKey (Transaction_Hash tx)) _ _ Hops)
      as Hlast.
    destruct (last_write (getTransactionKey (Transaction_Hash tx)) ops)
      as [w |]; [| exfalso; exact (Hlast tx Hin eq_refl)].
    destruct Hlast as (tx' & written & Hin' & Hkey & Hw & ->).
    apply getTransactionKey_inj in Hkey.
    assert (tx' = tx) as -> by (apply Hfree; auto).
    unfold PutUint32. cbn [app NextUint32].
    rewrite (Transaction_round_trip tx written Hw). eauto. }
  (* the transactions as the reads see them *)
  assert (Hviews : Forall (fun tx => exists ht,
                     transaction_view this2 (Transaction_Hash tx)
                     = Ok (Some tx, ht)) (Transactions block)).
  { apply Forall_forall. intros tx Hin. unfold transaction_view.
    destruct (enableCache this2) eqn:Hen2'; [| apply Htxs; assumption].
    destruct (peek (transactionCache (cache this2)) (Transaction_Hash tx))
      as [[tx' ht'] |] eqn:Hpeek; [| apply Htxs; assumption].
    rewrite Hcache2, Htc, <- Hen, <- Hen2 in Hpeek.
    apply peek_foldl_Add in Hpeek
      as [(tx0 & Hin0 & Hk & -> & ->) | [_ Hnone]].
    - assert (tx0 = tx) as -> by (apply Hfree; auto). eauto.
    - exfalso. exact (Hnone tx Hin eq_refl). }
  assert (Hstored : stored_block this2 (Hash block) = Ok block).
  { unfold stored_block, loadHeaderWithTx. rewrite Hheader.
    unfold header_value. rewrite Header_round_trip.
    unfold uint32. rewrite Z.mod_small by lia.
    rewrite Uint32_PutUint32 by lia.
    rewrite Nat2Z.id.
    rewrite <- (length_map Transaction_Hash).
    rewrite <- (map_map Transaction_Hash ToArray).
    rewrite <- (app_nil_r (concat _)), next_hashes_concat.
    cbn [app]. rewrite (transactions_view_all this2 _ Hviews). cbn [app].
    destruct block; reflexivity. }
  pose proof (GetBlock_spec this2 (Hash block)) as [_ Hres].
  exists (GetBlock this2 (Hash block)).2.
  rewrite (surjective_pairing (GetBlock this2 (Hash block))), Hres.
  f_equal. unfold block_view.
  destruct (enableCache this2) eqn:Hen2'; [| assumption].
  destruct (peek (blockCache (cache this2)) (Hash block)) as [b |] eqn:Hpeek;
    [| assumption].
  rewrite Hcache2, Hbc, <- Hen, <- Hen2 in Hpeek.
  apply peek_lru_Add in Hpeek as [[_ ->] | [Hne _]]; [reflexivity | congruence].
Qed.

End RoundTrip.

(** **** The cache against the store, along a sequence of operations *)

Lemma getHeaderKey_inj (h1 h2 : Uint256) :
  getHeaderKey h1 = getHeaderKey h2 -> h1 = h2.
Proof.
  unfold getHeaderKey, ToArray. intros [= Heq].
  apply vec_to_list_inj2. assumption.
Qed.

Lemma foldl_write_op_idem (l : list (bytes * option bytes))
    (m : gmap bytes bytes) :
  foldl write_op (foldl write_op m l) l = foldl write_op m l.
Proof.
  apply map_eq. intros key. rewrite !foldl_write_op_lookup.
  destruct (last_write key l); reflexivity.
Qed.

Lemma effective_BatchPut (s : LevelDBStore) (key value : bytes) :
  effective (BatchPut s key value) = <[key := value]> (effective s).
Proof. unfold effective, BatchPut. cbn. rewrite foldl_app. reflexivity. Qed.

(** What a write stages and returns does not depend on the cache. *)
Lemma SaveTransaction_store (this this' : BlockStore) (tx : Transaction)
    (height : Z) :
  store this = store this' ->
  (SaveTransaction this tx height).1 = (SaveTransaction this' tx height).1 /\
  store (SaveTransaction this tx height).2
  = store (SaveTransaction this' tx height).2.
Proof.
  intros Hs. unfold SaveTransaction, putTransaction, serialization_WriteUint32.
  destruct (WriteBytes (Transaction_Raw tx)); cbn;
    destruct (enableCache this), (enableCache this'); cbn;
    rewrite ?Hs; split; reflexivity.
Qed.

Lemma save_transactions_store (saved : list Transaction) (height : Z) :
  forall this this',
    store this = store this' ->
    (save_transactions this saved height).1
    = (save_transactions this' saved height).1 /\
    store (save_transactions this saved height).2
    = store (save_transactions this' saved height).2.
Proof.
  induction saved as [| tx saved IH]; intros this this' Hs; [by split |].
  cbn [save_transactions].
  destruct (SaveTransaction_store this this' tx height Hs) as [He Hs1].
  destruct (SaveTransaction this tx height) as [e this1].
  destruct (SaveTransaction this' tx height) as [e' this1'].
  cbn [fst snd] in He, Hs1. subst e'.
  destruct e; [split; [reflexivity | assumption] |].
  apply IH. assumption.
Qed.

Lemma SaveBlock_store (this this' : BlockStore) (block : Block) :
  store this = store this' ->
  (SaveBlock this block).1 = (SaveBlock this' block).1 /\
  store (SaveBlock this block).2 = store (SaveBlock this' block).2.
Proof.
  intros Hs. unfold SaveBlock. rewrite !SaveHeader_eq.
  apply save_transactions_store.
  destruct (enableCache this), (enableCache this'); cbn; rewrite Hs;
    reflexivity.
Qed.

Lemma key_not_header_key (key : bytes) (h : Uint256) :
  (length key < 33)%nat -> key <> getHeaderKey h.
Proof.
  intros Hlen ->. unfold getHeaderKey, ToArray in Hlen. cbn in Hlen.
  rewrite length_vec_to_list in Hlen. lia.
Qed.

Lemma key_not_transaction_key (key : bytes) (h : Uint256) :
  (length key < 33)%nat -> key <> getTransactionKey h.
Proof.
  intros Hlen ->. unfold getTransactionKey, Serialize, ToArray in Hlen.
  cbn in Hlen. rewrite length_vec_to_list in Hlen. lia.
Qed.

Section CacheAndStore.
Context `{!TypesLaws}.

Section Coherence.
Variables (txs : list Transaction) (blocks : list Block).
Hypothesis Hprefix : DATA_HEADER <> DATA_TRANSACTION.
Hypothesis Htxs : collision_free txs.
Hypothesis Hblocks : collision_free_blocks blocks.

(** Coherence looks at the header and transaction records only. *)
Lemma holds_transaction_agree (m m' : gmap bytes bytes) (tx : Transaction)
    (height : Z) :
  (forall k, m' !! getTransactionKey k = m !! getTransactionKey k) ->
  holds_transaction m tx height -> holds_transaction m' tx height.
Proof.
  intros Hagree (written & Hw & Hm). exists written.
  rewrite Hagree. auto.
Qed.

Lemma holds_block_agree (m m' : gmap bytes bytes) (block : Block) :
  (forall k, m' !! getHeaderKey k = m !! getHeaderKey k) ->
  (forall k, m' !! getTransactionKey k = m !! getTransactionKey k) ->
  holds_block txs m block -> holds_block txs m' block.
Proof.
  intros Hh Ht (Hheader & Hlen & Hall). split; [rewrite Hh; assumption |].
  split; [assumption |]. intros tx Hin.
  destruct (Hall tx Hin) as (Hu & height & Hheld).
  split; [assumption |]. exists height.
  eapply holds_transaction_agree; eassumption.
Qed.

Lemma coherent_agree (c : BlockCache) (m m' : gmap bytes bytes) :
  (forall k, m' !! getHeaderKey k = m !! getHeaderKey k) ->
  (forall k, m' !! getTransactionKey k = m !! getTransactionKey k) ->
  coherent txs blocks c m -> coherent txs blocks c m'.
Proof.
  intros Hh Ht [Htc Hbc]. split.
  - intros k tx height Hpeek.
    destruct (Htc k tx height Hpeek) as (Hk & Hu & Hr & Hheld).
    split; [assumption |]. split; [assumption |]. split; [assumption |].
    eapply holds_transaction_agree; eassumption.
  - intros k block Hpeek. destruct (Hbc k block Hpeek) as (Hk & Hu & Hheld).
    split; [assumption |]. split; [assumption |].
    eapply holds_block_agree; eassumption.
Qed.

Lemma header_key_not_transaction_key (h k : Uint256) :
  getHeaderKey h <> getTransactionKey k.
Proof.
  unfold getHeaderKey, getTransactionKey, Serialize. cbn [app]. congruence.
Qed.

(** One more transaction record. *)
Lemma holds_transaction_put (m : gmap bytes bytes) (tx : Transaction)
    (height : Z) (written : bytes) :
  WriteBytes (Transaction_Raw tx) = Ok written ->
  holds_transaction
    (<[getTransactionKey (Transaction_Hash tx) := PutUint32 height ++ written]> m)
    tx height.
Proof. intros Hw. exists written. rewrite lookup_insert_eq. auto. Qed.

Lemma holds_transaction_put_other (m : gmap bytes bytes)
    (tx tx' : Transaction) (height height' : Z) (value : bytes) :
  Transaction_Hash tx' <> Transaction_Hash tx ->
  holds_transaction m tx' height' ->
  holds_transaction (<[getTransactionKey (Transaction_Hash tx) := value]> m)
    tx' height'.
Proof.
  intros Hne (written & Hw & Hm). exists written. split; [assumption |].
  rewrite lookup_insert_ne; [assumption |].
  intros Heq. apply getTransactionKey_inj in Heq. congruence.
Qed.

Lemma holds_some_transaction_put (m : gmap bytes bytes)
    (tx tx' : Transaction) (height : Z) (written : bytes) :
  tx ∈ txs -> tx' ∈ txs ->
  WriteBytes (Transaction_Raw tx) = Ok written ->
  (exists height', holds_transaction m tx' height') ->
  exists height',
    holds_transaction
      (<[getTransactionKey (Transaction_Hash tx)
         := PutUint32 height ++ written]> m) tx' height'.
Proof.
  intros Hu Hu' Hw [height' Hheld].
  destruct (decide (Transaction_Hash tx' = Transaction_Hash tx)) as [Heq | Hne].
  - assert (tx' = tx) as -> by (apply Htxs; assumption).
    exists height. apply holds_transaction_put. assumption.
  - exists height'. apply holds_transaction_put_other; assumption.
Qed.

Lemma transactions_coherent_put (c : LRU (Transaction * Z))
    (m : gmap bytes bytes) (tx : Transaction) (height : Z) (written : bytes) :
  tx ∈ txs -> 0 <= height < 2 ^ 32 ->
  WriteBytes (Transaction_Raw tx) = Ok written ->
  transactions_coherent txs c m ->
  transactions_coherent txs (lru_Add c (Transaction_Hash tx) (tx, height))
    (<[getTransactionKey (Transaction_Hash tx) := PutUint32 height ++ written]> m).
Proof.
  intros Hu Hr Hw Hc k tx' height' Hpeek.
  apply peek_lru_Add in Hpeek as [[-> [= -> ->]] | [Hne Hpeek]].
  - split; [reflexivity |]. split; [assumption |]. split; [assumption |].
    apply holds_transaction_put. assumption.
  - destruct (Hc k tx' height' Hpeek) as (-> & Hu' & Hr' & Hheld).
    split; [reflexivity |]. split; [assumption |]. split; [assumption |].
    apply holds_transaction_put_other; assumption.
Qed.

Lemma holds_block_put_transaction (m : gmap bytes bytes) (block : Block)
    (tx : Transaction) (height : Z) (written : bytes) :
  tx ∈ txs ->
  WriteBytes (Transaction_Raw tx) = Ok written ->
  holds_block txs m block ->
  holds_block txs
    (<[getTransactionKey (Transaction_Hash tx) := PutUint32 height ++ written]> m)
    block.
Proof.
  intros Hu Hw (Hheader & Hlen & Hall).
  split.
  { rewrite lookup_insert_ne; [assumption |].
    intros Heq. symmetry in Heq.
    exact (header_key_not_transaction_key _ _ Heq). }
  split; [assumption |]. intros tx' Hin.
  destruct (Hall tx' Hin) as (Hu' & Hheld). split; [assumption |].
  apply holds_some_transaction_put; assumption.
Qed.

Lemma blocks_coherent_put_transaction (c : LRU Block) (m : gmap bytes bytes)
    (tx : Transaction) (height : Z) (written : bytes) :
  tx ∈ txs ->
  WriteBytes (Transaction_Raw tx) = Ok written ->
  blocks_coherent txs blocks c m ->
  blocks_coherent txs blocks c
    (<[getTransactionKey (Transaction_Hash tx) := PutUint32 height ++ written]> m).
Proof.
  intros Hu Hw Hc k block Hpeek.
  destruct (Hc k block Hpeek) as (Hk & Hb & Hheld).
  split; [assumption |]. split; [assumption |].
  apply holds_block_put_transaction; assumption.
Qed.

(** One more header record. *)
Lemma holds_transaction_put_header (m : gmap bytes bytes) (h : Uint256)
    (value : bytes) (tx : Transaction) (height : Z) :
  holds_transaction m tx height ->
  holds_transaction (<[getHeaderKey h := value]> m) tx height.
Proof.
  intros (written & Hw & Hm). exists written. split; [assumption |].
  rewrite lookup_insert_ne; [assumption |].
  apply header_key_not_transaction_key.
Qed.

Lemma coherent_put_header (c : BlockCache) (m : gmap bytes bytes)
    (block : Block) :
  block ∈ blocks ->
  coherent txs blocks c m ->
  coherent txs blocks c
    (<[getHeaderKey (Hash block) := header_value block]> m).
Proof.
  intros Hb [Htc Hbc]. split.
  - intros k tx height Hpeek.
    destruct (Htc k tx height Hpeek) as (Hk & Hu & Hr & Hheld).
    split; [assumption |]. split; [assumption |]. split; [assumption |].
    apply holds_transaction_put_header. assumption.
  - intros k block0 Hpeek.
    destruct (Hbc k block0 Hpeek) as (Hk & Hb0 & Hheader & Hlen & Hall).
    split; [assumption |]. split; [assumption |]. split.
    { destruct (decide (Hash block0 = Hash block)) as [Heq | Hne].
      - assert (block0 = block) as -> by (apply Hblocks; assumption).
        apply lookup_insert_eq.
      - rewrite lookup_insert_ne; [assumption |].
        intros Heq. apply getHeaderKey_inj in Heq. congruence. }
    split; [assumption |]. intros tx Hin.
    destruct (Hall tx Hin) as (Hu & height & Hheld).
    split; [assumption |]. exists height.
    apply holds_transaction_put_header. assumption.
Qed.

Lemma blocks_coherent_add (c : LRU Block) (m : gmap bytes bytes)
    (block : Block) :
  block ∈ blocks ->
  holds_block txs m block ->
  blocks_coherent txs blocks c m ->
  blocks_coherent txs blocks (lru_Add c (Hash block) block) m.
Proof.
  intros Hb Hheld Hc k block0 Hpeek.
  apply peek_lru_Add in Hpeek as [[-> ->] | [Hne Hpeek]].
  - split; [reflexivity |]. split; assumption.
  - apply Hc. assumption.
Qed.

(** A run of transaction writes, as [save_transactions] stages it. *)
Lemma coherent_transactions (height : Z) (saved : list Transaction)
    (ops : list (bytes * option bytes)) :
  Forall2 (transaction_op height) saved ops ->
  0 <= height < 2 ^ 32 ->
  (forall tx, tx ∈ saved -> tx ∈ txs) ->
  forall (tc : LRU (Transaction * Z)) (bc : LRU Block) (m : gmap bytes bytes),
    transactions_coherent txs tc m ->
    blocks_coherent txs blocks bc m ->
    transactions_coherent txs
      (foldl (fun c tx => lru_Add c (Transaction_Hash tx) (tx, height)) tc saved)
      (foldl write_op m ops) /\
    blocks_coherent txs blocks bc (foldl write_op m ops) /\
    (forall k, foldl write_op m ops !! getHeaderKey k = m !! getHeaderKey k) /\
    (forall tx, tx ∈ txs ->
                (exists ht, holds_transaction m tx ht) \/ tx ∈ saved ->
                exists ht, holds_transaction (foldl write_op m ops) tx ht).
Proof.
  intros Hops Hr. induction Hops as [| tx op saved ops (written & Hw & ->) _ IH];
    intros Hu tc bc m Htc Hbc.
  - cbn. split; [assumption |]. split; [assumption |].
    split; [reflexivity |].
    intros tx0 _ [Hheld | Hin]; [assumption | inversion Hin].
  - cbn [foldl write_op].
    assert (Hutx : tx ∈ txs) by (apply Hu; by left).
    destruct (IH (fun tx' Hin => Hu tx' (list_elem_of_further _ _ _ Hin))
                (lru_Add tc (Transaction_Hash tx) (tx, height)) bc
                (<[getTransactionKey (Transaction_Hash tx)
                   := PutUint32 height ++ written]> m))
      as (Htc' & Hbc' & Hkeys & Hheld).
    { apply transactions_coherent_put; assumption. }
    { apply blocks_coherent_put_transaction; assumption. }
    split; [assumption |]. split; [assumption |]. split.
    { intros k. rewrite Hkeys. apply lookup_insert_ne.
      intros Heq. symmetry in Heq.
      exact (header_key_not_transaction_key _ _ Heq). }
    intros tx' Hu' Hcase. apply Hheld; [assumption |].
    destruct Hcase as [Hm | Hin].
    + left. apply holds_some_transaction_put; assumption.
    + apply elem_of_cons in Hin as [-> | Hin]; [| by right].
      left. exists height. apply holds_transaction_put. assumption.
Qed.

(** What the reads find in a store that holds a transaction or a block. *)
Lemma stored_transaction_held (s : LevelDBStore) (tx : Transaction)
    (height : Z) :
  fault s = None ->
  holds_transaction (db s) tx height ->
  Get s (getTransactionKey (Transaction_Hash tx)) <> Err ErrNotFound /\
  (exists ht, stored_transaction s (Transaction_Hash tx) = Ok (Some tx, ht)) /\
  (0 <= height < 2 ^ 32 ->
   stored_transaction s (Transaction_Hash tx) = Ok (Some tx, height)).
Proof.
  intros Hfault (written & Hw & Hm). unfold stored_transaction, Get.
  rewrite Hfault, Hm. split; [discriminate |]. split.
  - unfold PutUint32. cbn [app NextUint32].
    rewrite (Transaction_round_trip tx written Hw). eauto.
  - intros Hr. rewrite Uint32_PutUint32 by assumption.
    rewrite (Transaction_round_trip tx written Hw). reflexivity.
Qed.

Lemma loadHeaderWithTx_held (this : BlockStore) (block : Block) :
  fault (store this) = None ->
  db (store this) !! getHeaderKey (Hash block) = Some (header_value block) ->
  Z.of_nat (length (Transactions block)) < 2 ^ 32 ->
  loadHeaderWithTx this (Hash block)
  = Ok (blk_Header block, map Transaction_Hash (Transactions block)) /\
  loadHeader this (Hash block) = Ok (blk_Header block).
Proof.
  intros Hfault Hm Hlen. unfold loadHeaderWithTx, loadHeader, Get.
  rewrite Hfault, Hm. unfold header_value. rewrite Header_round_trip.
  split; [| reflexivity].
  unfold uint32. rewrite Z.mod_small by lia.
  rewrite Uint32_PutUint32 by lia.
  rewrite Nat2Z.id.
  rewrite <- (length_map Transaction_Hash).
  rewrite <- (map_map Transaction_Hash ToArray).
  rewrite <- (app_nil_r (concat _)), next_hashes_concat. reflexivity.
Qed.

Lemma stored_block_held (this : BlockStore) (block : Block) :
  fault (store this) = None ->
  enableCache this = false ->
  holds_block txs (db (store this)) block ->
  stored_block this (Hash block) = Ok block.
Proof.
  intros Hfault Hen (Hheader & Hlen & Hall). unfold stored_block.
  destruct (loadHeaderWithTx_held this block Hfault Hheader Hlen) as [-> _].
  rewrite (transactions_view_all this (Transactions block)).
  - destruct block; reflexivity.
  - apply Forall_forall. intros tx Hin.
    destruct (Hall tx Hin) as (_ & height & Hheld).
    unfold transaction_view. rewrite Hen.
    eapply stored_transaction_held; eassumption.
Qed.

(** With nothing pending, the reads through the cache return what the reads
    of the store alone return. *)
Lemma transaction_view_agree (cached plain : BlockStore) (txHash : Uint256) :
  cache_follows_store txs blocks false cached plain ->
  transaction_view cached txHash = transaction_view plain txHash.
Proof.
  intros (Hen & Hdis & Hstore & Hfault & _ & Hclean).
  destruct (Hclean eq_refl) as [Htc _].
  unfold transaction_view. rewrite Hen, Hdis, Hstore.
  destruct (peek (transactionCache (cache cached)) txHash)
    as [[tx height] |] eqn:Hpeek; [| reflexivity].
  destruct (Htc _ _ _ Hpeek) as (-> & _ & Hr & Hheld).
  symmetry. eapply stored_transaction_held; eassumption.
Qed.

Lemma transactions_view_agree (cached plain : BlockStore)
    (txHashes : list Uint256) :
  cache_follows_store txs blocks false cached plain ->
  forall txList,
    transactions_view cached txHashes txList
    = transactions_view plain txHashes txList.
Proof.
  intros Hinv. induction txHashes as [| h rest IH]; intros txList;
    [reflexivity |].
  cbn [transactions_view]. rewrite (transaction_view_agree _ _ _ Hinv).
  destruct (transaction_view plain h) as [[[tx |] ht] | e]; auto.
Qed.

Lemma stored_block_agree (cached plain : BlockStore) (blockHash : Uint256) :
  cache_follows_store txs blocks false cached plain ->
  stored_block cached blockHash = stored_block plain blockHash.
Proof.
  intros Hinv. pose proof Hinv as (_ & _ & Hstore & _).
  unfold stored_block, loadHeaderWithTx. rewrite Hstore.
  destruct (Get (store cached) (getHeaderKey blockHash)) as [value |];
    [| reflexivity].
  destruct (Header_Deserialization value) as [[header source] |];
    [| reflexivity].
  destruct (NextUint32 source) as [[txSize source'] |]; [| reflexivity].
  destruct (next_hashes (Z.to_nat txSize) source' []); [| reflexivity].
  rewrite (transactions_view_agree cached plain) by assumption.
  reflexivity.
Qed.

Lemma block_view_agree (cached plain : BlockStore) (blockHash : Uint256) :
  cache_follows_store txs blocks false cached plain ->
  block_view cached blockHash = block_view plain blockHash.
Proof.
  intros Hinv. pose proof Hinv as (Hen & Hdis & Hstore & Hfault & _ & Hclean).
  destruct (Hclean eq_refl) as [_ Hbc].
  unfold block_view. rewrite Hen, Hdis.
  destruct (peek (blockCache (cache cached)) blockHash) as [block |] eqn:Hpeek;
    [| apply stored_block_agree; assumption].
  destruct (Hbc _ _ Hpeek) as (-> & _ & Hheld).
  symmetry. apply stored_block_held; rewrite ?Hstore; assumption.
Qed.

Lemma header_view_agree (cached plain : BlockStore) (blockHash : Uint256) :
  cache_follows_store txs blocks false cached plain ->
  header_view cached blockHash = header_view plain blockHash.
Proof.
  intros (Hen & Hdis & Hstore & Hfault & _ & Hclean).
  destruct (Hclean eq_refl) as [_ Hbc].
  unfold header_view. rewrite Hen, Hdis.
  destruct (peek (blockCache (cache cached)) blockHash) as [block |] eqn:Hpeek.
  - destruct (Hbc _ _ Hpeek) as (-> & _ & Hheader & Hlen & _).
    symmetry. apply loadHeaderWithTx_held; rewrite ?Hstore; assumption.
  - unfold loadHeader. rewrite Hstore. reflexivity.
Qed.

Lemma ContainBlock_agree (cached plain : BlockStore) (blockHash : Uint256) :
  cache_follows_store txs blocks false cached plain ->
  ContainBlock cached blockHash = ContainBlock plain blockHash.
Proof.
  intros (Hen & Hdis & Hstore & Hfault & _ & Hclean).
  destruct (Hclean eq_refl) as [_ Hbc].
  unfold ContainBlock, cache_ContainBlock, lru_Contains.
  rewrite Hen, Hdis, Hstore. cbn [andb].
  destruct (assoc blockHash (items (blockCache (cache cached))))
    as [block |] eqn:Hpeek.
  - rewrite bool_decide_eq_true_2 by eauto.
    destruct (Hbc _ _ Hpeek) as (-> & _ & Hheader & _).
    unfold Get. rewrite Hfault, Hheader. reflexivity.
  - rewrite bool_decide_eq_false_2; [reflexivity |].
    intros [? Hsome]. discriminate.
Qed.

Lemma ContainTransaction_agree (cached plain : BlockStore)
    (txHash : Uint256) :
  cache_follows_store txs blocks false cached plain ->
  ContainTransaction cached txHash = ContainTransaction plain txHash.
Proof.
  intros (Hen & Hdis & Hstore & Hfault & _ & Hclean).
  destruct (Hclean eq_refl) as [Htc _].
  unfold ContainTransaction, cache_ContainTransaction, lru_Contains.
  rewrite Hen, Hdis, Hstore. cbn [andb].
  destruct (assoc txHash (items (transactionCache (cache cached))))
    as [[tx height] |] eqn:Hpeek.
  - rewrite bool_decide_eq_true_2 by eauto.
    destruct (Htc _ _ _ Hpeek) as (-> & _ & _ & written & _ & Hm).
    unfold Get. rewrite Hfault, Hm. reflexivity.
  - rewrite bool_decide_eq_false_2; [reflexivity |].
    intros [? Hsome]. discriminate.
Qed.

(** The invariant does not see the order of use of the cache entries. *)
Lemma coherent_same_cache (c c' : BlockCache) (m : gmap bytes bytes) :
  same_cache c c' -> coherent txs blocks c m -> coherent txs blocks c' m.
Proof.
  intros [Hb Ht] [Htc Hbc]. split.
  - intros k tx height. rewrite Ht. apply Htc.
  - intros k block. rewrite Hb. apply Hbc.
Qed.

Lemma follows_same_contents (pending : bool)
    (cached cached' plain plain' : BlockStore) :
  same_contents cached cached' ->
  same_contents plain plain' ->
  cache_follows_store txs blocks pending cached plain ->
  cache_follows_store txs blocks pending cached' plain'.
Proof.
  intros (Hs & He & Hc) (Hs' & He' & _)
         (Hen & Hdis & Hstore & Hfault & Hpend & Hclean).
  unfold cache_follows_store. rewrite Hs, He, Hs', He'.
  repeat (split; [assumption |]).
  split; [eapply coherent_same_cache; eassumption |].
  intros Hp. eapply coherent_same_cache; eauto.
Qed.

Lemma follows_staged (cached plain : BlockStore) (pending : bool)
    (key value : bytes) :
  (forall k, key <> getHeaderKey k) ->
  (forall k, key <> getTransactionKey k) ->
  cache_follows_store txs blocks pending cached plain ->
  cache_follows_store txs blocks pending
    (set_store cached (BatchPut (store cached) key value))
    (set_store plain (BatchPut (store plain) key value)).
Proof.
  intros Hh Ht (Hen & Hdis & Hstore & Hfault & Hpend & Hclean).
  unfold cache_follows_store. cbn [enableCache set_store store cache].
  rewrite Hstore. repeat (split; [assumption || reflexivity |]).
  split; [| exact Hclean].
  rewrite effective_BatchPut.
  eapply coherent_agree; [| | exact Hpend]; intros k;
    apply lookup_insert_ne; auto.
Qed.

Lemma follows_SaveHeader (cached plain : BlockStore) (pending : bool)
    (block : Block) :
  block ∈ blocks ->
  cache_follows_store txs blocks pending cached plain ->
  cache_follows_store txs blocks pending
    (SaveHeader cached block).2 (SaveHeader plain block).2.
Proof.
  intros Hb (Hen & Hdis & Hstore & Hfault & Hpend & Hclean).
  rewrite !SaveHeader_eq.
  unfold cache_follows_store. cbn [snd enableCache set_store store cache].
  rewrite Hstore. repeat (split; [assumption || reflexivity |]).
  split; [| exact Hclean].
  rewrite effective_BatchPut. apply coherent_put_header; assumption.
Qed.

Lemma follows_save_transactions (cached plain cached' plain' : BlockStore)
    (pending : bool) (saved : list Transaction) (height : Z) :
  0 <= height < 2 ^ 32 ->
  (forall tx, tx ∈ saved -> tx ∈ txs) ->
  cache_follows_store txs blocks pending cached plain ->
  save_transactions cached saved height = (None, cached') ->
  save_transactions plain saved height = (None, plain') ->
  store plain' = store cached' ->
  cache_follows_store txs blocks true cached' plain' /\
  blockCache (cache cached') = blockCache (cache cached) /\
  (forall k, effective (store cached') !! getHeaderKey k
             = effective (store cached) !! getHeaderKey k) /\
  (forall tx, tx ∈ saved ->
              exists ht, holds_transaction (effective (store cached')) tx ht).
Proof.
  intros Hr Hu (Hen & Hdis & Hstore & Hfault & [Htc Hbc] & _) Hc Hp Hs.
  apply save_transactions_ok in Hc
    as (ops & Hops & Hdb & Hfault' & Hbatch & Hen' & Hbc' & Htc').
  apply save_transactions_ok in Hp as (_ & _ & _ & _ & _ & Hdis' & _).
  destruct (coherent_transactions height saved ops Hops Hr Hu _ _ _ Htc Hbc)
    as (Htc2 & Hbc2 & Hkeys & Hheld).
  assert (Heff : effective (store cached')
                 = foldl write_op (effective (store cached)) ops).
  { unfold effective. rewrite Hdb, Hbatch, foldl_app. reflexivity. }
  rewrite Heff. split; [| split; [assumption |]; split; [assumption |]].
  - unfold cache_follows_store. rewrite Heff.
    split; [congruence |]. split; [congruence |]. split; [assumption |].
    split; [congruence |]. split; [| discriminate].
    split; [rewrite Htc', Hen | rewrite Hbc']; assumption.
  - intros tx Hin. apply Hheld; [apply Hu, Hin | by right].
Qed.

Lemma follows_SaveBlock (cached plain cached' plain' : BlockStore)
    (pending : bool) (block : Block) :
  in_range (OpSaveBlock block) ->
  block ∈ blocks ->
  (forall tx, tx ∈ Transactions block -> tx ∈ txs) ->
  cache_follows_store txs blocks pending cached plain ->
  SaveBlock cached block = (None, cached') ->
  SaveBlock plain block = (None, plain') ->
  store plain' = store cached' ->
  cache_follows_store txs blocks true cached' plain'.
Proof.
  intros [Hlen Hr] Hb Hu (Hen & Hdis & Hstore & Hfault & Hpend & _) Hc Hp Hs.
  apply SaveBlock_ok in Hc
    as (ops & Hops & Hdb & Hfault' & Hbatch & Hen' & Hbc' & Htc').
  apply SaveBlock_ok in Hp as (_ & _ & _ & _ & _ & Hdis' & _).
  rewrite Hen in Hbc', Htc'.
  set (m1 := <[getHeaderKey (Hash block) := header_value block]>
               (effective (store cached))).
  assert (Heff : effective (store cached') = foldl write_op m1 ops).
  { unfold effective. rewrite Hdb, Hbatch, foldl_app. reflexivity. }
  destruct (coherent_put_header _ _ block Hb Hpend) as [Htc1 Hbc1].
  fold m1 in Htc1, Hbc1.
  destruct (coherent_transactions _ _ ops Hops Hr Hu _ _ _ Htc1 Hbc1)
    as (Htc2 & Hbc2 & Hkeys & Hheld).
  unfold cache_follows_store. rewrite Heff.
  split; [congruence |]. split; [congruence |]. split; [assumption |].
  split; [congruence |]. split; [| discriminate].
  split; [rewrite Htc'; assumption |].
  rewrite Hbc'. apply blocks_coherent_add; [assumption | | assumption].
  split; [rewrite Hkeys; apply lookup_insert_eq |].
  split; [assumption |]. intros tx Hin.
  split; [apply Hu, Hin |]. apply Hheld; [apply Hu, Hin | by right].
Qed.

Lemma follows_SaveTransaction (cached plain cached' plain' : BlockStore)
    (pending : bool) (tx : Transaction) (height : Z) :
  0 <= height < 2 ^ 32 ->
  tx ∈ txs ->
  cache_follows_store txs blocks pending cached plain ->
  SaveTransaction cached tx height = (None, cached') ->
  SaveTransaction plain tx height = (None, plain') ->
  store plain' = store cached' ->
  cache_follows_store txs blocks true cached' plain'.
Proof.
  intros Hr Hu Hinv Hc Hp Hs.
  apply (follows_save_transactions cached plain cached' plain' pending [tx]
           height); try assumption.
  - intros tx' Hin. apply list_elem_of_singleton in Hin as ->. assumption.
  - cbn [save_transactions]. rewrite Hc. reflexivity.
  - cbn [save_transactions]. rewrite Hp. reflexivity.
Qed.

Lemma follows_NewBatch (cached plain : BlockStore) :
  cache_follows_store txs blocks false cached plain ->
  cache_follows_store txs blocks false
    (BlockStore_NewBatch cached) (BlockStore_NewBatch plain).
Proof.
  intros (Hen & Hdis & Hstore & Hfault & _ & Hclean).
  unfold cache_follows_store, BlockStore_NewBatch.
  cbn [enableCache set_store store cache]. rewrite Hstore.
  repeat (split; [assumption || reflexivity |]).
  split; [exact (Hclean eq_refl) | exact Hclean].
Qed.

Lemma follows_SaveVersion (cached plain cached' plain' : BlockStore)
    (pending : bool) (ver : byte) :
  cache_follows_store txs blocks pending cached plain ->
  SaveVersion cached ver = (None, cached') ->
  SaveVersion plain ver = (None, plain') ->
  cache_follows_store txs blocks pending cached' plain'.
Proof.
  intros (Hen & Hdis & Hstore & Hfault & Hpend & Hclean).
  unfold SaveVersion, Put. rewrite Hstore, Hfault.
  intros [= <-] [= <-].
  unfold cache_follows_store. cbn [enableCache set_store store cache fault db].
  repeat (split; [assumption || reflexivity |]).
  assert (Hh : forall k, getVersionKey <> getHeaderKey k)
    by (intros k; apply key_not_header_key; cbn; lia).
  assert (Ht : forall k, getVersionKey <> getTransactionKey k)
    by (intros k; apply key_not_transaction_key; cbn; lia).
  split.
  - eapply coherent_agree; [| | exact Hpend]; intros k; unfold effective;
      cbn [db batch]; rewrite !foldl_write_op_lookup;
      destruct (last_write _ (batch (store cached))); try reflexivity;
      apply lookup_insert_ne; auto.
  - intros Hp. eapply coherent_agree; [| | exact (Hclean Hp)]; intros k;
      apply lookup_insert_ne; auto.
Qed.

Lemma follows_CommitTo (cached plain cached' plain' : BlockStore)
    (pending : bool) :
  cache_follows_store txs blocks pending cached plain ->
  CommitTo cached = (None, cached') ->
  CommitTo plain = (None, plain') ->
  cache_follows_store txs blocks false cached' plain'.
Proof.
  intros (Hen & Hdis & Hstore & Hfault & Hpend & _).
  unfold CommitTo, BatchCommit. rewrite Hstore, Hfault.
  intros [= <-] [= <-].
  unfold cache_follows_store. cbn [enableCache set_store store cache fault db].
  repeat (split; [assumption || reflexivity |]).
  unfold effective at 1. cbn [db batch]. rewrite foldl_write_op_idem.
  split; [exact Hpend | intros _; exact Hpend].
Qed.

(** One operation, allowed by the discipline and returning no error. *)
Lemma step_follows (pending : bool) (op : Op) (cached plain : BlockStore) :
  allowed pending op = true ->
  in_range op ->
  (forall tx, tx ∈ saved_transactions op -> tx ∈ txs) ->
  (forall block, block ∈ saved_blocks op -> block ∈ blocks) ->
  cache_follows_store txs blocks pending cached plain ->
  no_error (step cached op).1 ->
  (step cached op).1 = (step plain op).1 /\
  cache_follows_store txs blocks (pending_after pending op)
    (step cached op).2 (step plain op).2.
Proof.
  intros Hallowed Hrange Hu Hb Hinv Hok.
  pose proof Hinv as (Hen & Hdis & Hstore & Hfault & _).
  destruct op; cbn [step allowed pending_after saved_transactions saved_blocks]
    in *.
  - (* NewBatch *)
    apply negb_true_iff in Hallowed as ->.
    split; [reflexivity |]. apply follows_NewBatch. assumption.
  - (* SaveBlock *)
    destruct (SaveBlock_store plain cached block Hstore) as [He Hs].
    destruct (SaveBlock cached block) as [e cached'] eqn:Hc.
    destruct (SaveBlock plain block) as [e' plain'] eqn:Hp.
    cbn [fst snd] in *. subst e'. split; [reflexivity |].
    destruct e; [contradiction |].
    eapply follows_SaveBlock; try eassumption.
    apply Hb. by left.
  - (* SaveHeader *)
    pose proof (follows_SaveHeader cached plain pending block
                  (Hb block ltac:(by left)) Hinv) as Hinv'.
    rewrite !SaveHeader_eq in *. split; [reflexivity | exact Hinv'].
  - (* SaveTransaction *)
    destruct (SaveTransaction_store plain cached tx height Hstore) as [He Hs].
    destruct (SaveTransaction cached tx height) as [e cached'] eqn:Hc.
    destruct (SaveTransaction plain tx height) as [e' plain'] eqn:Hp.
    cbn [fst snd] in *. subst e'. split; [reflexivity |].
    destruct e; [contradiction |].
    eapply follows_SaveTransaction; try eassumption.
    apply Hu. by left.
  - (* SaveCurrentBlock *)
    split; [reflexivity |]. cbn [snd].
    apply follows_staged; [| | assumption]; intros k;
      [apply key_not_header_key | apply key_not_transaction_key]; cbn; lia.
  - (* SaveBlockHash *)
    split; [reflexivity |]. cbn [snd]. unfold SaveBlockHash.
    apply follows_staged; [| | assumption]; intros k;
      [apply key_not_header_key | apply key_not_transaction_key]; cbn; lia.
  - (* SaveVersion *)
    assert (He : SaveVersion plain ver
                 = ((SaveVersion cached ver).1,
                    set_store plain (store (SaveVersion cached ver).2))).
    { unfold SaveVersion, Put. rewrite Hstore.
      destruct (fault (store cached)); reflexivity. }
    destruct (SaveVersion cached ver) as [e cached'] eqn:Hc.
    rewrite He. cbn [fst snd] in *. split; [reflexivity |].
    destruct e; [contradiction |].
    eapply follows_SaveVersion; eassumption.
  - (* CommitTo *)
    assert (He : CommitTo plain
                 = ((CommitTo cached).1,
                    set_store plain (store (CommitTo cached).2))).
    { unfold CommitTo, BatchCommit. rewrite Hstore.
      destruct (fault (store cached)); reflexivity. }
    destruct (CommitTo cached) as [e cached'] eqn:Hc.
    rewrite He. cbn [fst snd] in *. split; [reflexivity |].
    destruct e; [contradiction |].
    eapply follows_CommitTo; eassumption.
  - (* ClearAll *) discriminate.
  - (* GetBlock *)
    apply negb_true_iff in Hallowed as ->.
    destruct (GetBlock_spec cached blockHash) as [Hsc Hrc].
    destruct (GetBlock_spec plain blockHash) as [Hsp Hrp].
    destruct (GetBlock cached blockHash) as [rc cached'].
    destruct (GetBlock plain blockHash) as [rp plain'].
    cbn [fst snd] in *. subst rc rp.
    split; [f_equal; apply block_view_agree; assumption |].
    eapply follows_same_contents; eassumption.
  - (* GetHeader *)
    apply negb_true_iff in Hallowed as ->.
    destruct (GetHeader_spec cached blockHash) as [Hsc Hrc].
    destruct (GetHeader_spec plain blockHash) as [Hsp Hrp].
    destruct (GetHeader cached blockHash) as [rc cached'].
    destruct (GetHeader plain blockHash) as [rp plain'].
    cbn [fst snd] in *. subst rc rp.
    split; [f_equal; apply header_view_agree; assumption |].
    eapply follows_same_contents; eassumption.
  - (* GetTransaction *)
    apply negb_true_iff in Hallowed as ->.
    destruct (GetTransaction_spec cached txHash) as [Hsc Hrc].
    destruct (GetTransaction_spec plain txHash) as [Hsp Hrp].
    destruct (GetTransaction cached txHash) as [rc cached'].
    destruct (GetTransaction plain txHash) as [rp plain'].
    cbn [fst snd] in *. subst rc rp.
    split; [f_equal; apply transaction_view_agree; assumption |].
    eapply follows_same_contents; eassumption.
  - (* ContainBlock *)
    apply negb_true_iff in Hallowed as ->. cbn [fst snd].
    split; [f_equal; apply ContainBlock_agree |]; assumption.
  - (* ContainTransaction *)
    apply negb_true_iff in Hallowed as ->. cbn [fst snd].
    split; [f_equal; apply ContainTransaction_agree |]; assumption.
  - (* GetCurrentBlock *)
    cbn [fst snd]. split; [| assumption]. unfold GetCurrentBlock. rewrite Hstore.
    reflexivity.
  - (* GetBlockHash *)
    cbn [fst snd]. split; [| assumption]. unfold GetBlockHash. rewrite Hstore. reflexivity.
  - (* GetVersion *)
    cbn [fst snd]. split; [| assumption]. unfold GetVersion. rewrite Hstore. reflexivity.
Qed.

Lemma run_follows (ops : list Op) :
  forall (pending : bool) (cached plain : BlockStore),
    reads_committed pending ops = true ->
    Forall in_range ops ->
    (forall tx, tx ∈ ops ≫= saved_transactions -> tx ∈ txs) ->
    (forall block, block ∈ ops ≫= saved_blocks -> block ∈ blocks) ->
    cache_follows_store txs blocks pending cached plain ->
    Forall no_error (run cached ops).1 ->
    (run cached ops).1 = (run plain ops).1.
Proof.
  induction ops as [| op ops IH]; intros pending cached plain
    Hstaged Hrange Hu Hb Hinv Hok; [reflexivity |].
  cbn [reads_committed] in Hstaged. apply andb_true_iff in Hstaged as [Ha Hs].
  apply Forall_cons in Hrange as [Hr Hrange].
  cbn [run] in *.
  destruct (step_follows pending op cached plain Ha Hr) as [Hout Hinv'];
    try assumption.
  { intros tx Hin. apply Hu. cbn. apply elem_of_app. by left. }
  { intros block Hin. apply Hb. cbn. apply elem_of_app. by left. }
  { destruct (step cached op) as [out cached'].
    destruct (run cached' ops). cbn in Hok |- *.
    apply Forall_cons in Hok as [Hok _]. exact Hok. }
  destruct (step cached op) as [out cached'].
  destruct (step plain op) as [out' plain'].
  cbn [fst snd] in Hout, Hinv'. subst out'.
  specialize (IH _ cached' plain' Hs Hrange).
  destruct (run cached' ops) as [outs cached''].
  destruct (run plain' ops) as [outs' plain''].
  cbn [fst] in *. apply Forall_cons in Hok as [_ Hok].
  f_equal. apply IH; try assumption.
  - intros tx Hin. apply Hu. cbn. apply elem_of_app. by right.
  - intros block Hin. apply Hb. cbn. apply elem_of_app. by right.
Qed.

End Coherence.

(** C7, as the code has it.  Take a store created with the cache enabled and
    one created with the cache disabled over the same substrate, which
    reports no failure, and run the same operations on both.  Let every save
    and commit return no error, let a [CommitTo] come between a [SaveBlock]
    or [SaveTransaction] and the next read of a block, header or transaction
    and the next [NewBatch], and let the sequence have no [ClearAll].  Then
    every operation returns the same on both stores.  (Heights are [uint32]
    values, a block has fewer than [2^32] transactions, no two different
    transactions and no two different blocks of the sequence have the same
    hash, the encodings round-trip, and headers and transactions are keyed
    under different prefixes.) *)
Theorem reads_agree_when_committed (ops : list Op) (cached plain : BlockStore)
    (Hprefix : DATA_HEADER <> DATA_TRANSACTION)
    (Hstaged : reads_committed false ops = true)
    (Hrange : Forall in_range ops)
    (Htxs : collision_free (ops ≫= saved_transactions))
    (Hblocks : collision_free_blocks (ops ≫= saved_blocks))
    (Hen : enableCache cached = true)
    (Hdis : enableCache plain = false)
    (Hstore : store plain = store cached)
    (Hfault : fault (store cached) = None)
    (Hempty : empty_cache (cache cached))
    (Hok : Forall no_error (run cached ops).1) :
  (run cached ops).1 = (run plain ops).1.
Proof.
  apply (run_follows (ops ≫= saved_transactions) (ops ≫= saved_blocks)
           Hprefix Htxs Hblocks ops false); auto.
  destruct Hempty as [Hb Ht].
  assert (Hcoh : forall m,
            coherent (ops ≫= saved_transactions) (ops ≫= saved_blocks)
              (cache cached) m).
  { intros m. split.
    - intros k tx height. unfold peek. rewrite Ht. discriminate.
    - intros k block. unfold peek. rewrite Hb. discriminate. }
  unfold cache_follows_store. auto 10.
Qed.

End CacheAndStore.

(** **** Keys and direct writes *)

Lemma key_bytes_head (k : PersistedKey) :
  head (key_bytes k) = Some (prefix_of (record_type k)).
Proof. destruct k; reflexivity. Qed.

Lemma prefix_of_inj :
  prefixes_distinct -> forall t1 t2, prefix_of t1 = prefix_of t2 -> t1 = t2.
Proof.
  unfold prefixes_distinct. intros Hnd.
  repeat (apply NoDup_cons in Hnd as [? Hnd]).
  rewrite ?not_elem_of_cons in *.
  intros [] []; cbn; intros Heq;
    first [reflexivity | exfalso; intuition congruence].
Qed.

(** C9. Every key the block store persists begins with the discriminant of
    its record type, and, the five discriminants being distinct, the keys of
    two different record types are never equal. *)
Theorem persisted_keys_distinct (Hdistinct : prefixes_distinct)
    (k1 k2 : PersistedKey) :
  head (key_bytes k1) = Some (prefix_of (record_type k1)) /\
  (record_type k1 <> record_type k2 -> key_bytes k1 <> key_bytes k2).
Proof.
  split; [apply key_bytes_head |].
  intros Hne Heq. apply Hne, (prefix_of_inj Hdistinct).
  pose proof (key_bytes_head k1) as H1. pose proof (key_bytes_head k2) as H2.
  rewrite Heq in H1. congruence.
Qed.

Lemma write_op_last (m : gmap bytes bytes) (l : list (bytes * option bytes))
    (key value : bytes) :
  foldl write_op m (l ++ [(key, Some value)]) !! key = Some value.
Proof. rewrite foldl_app. cbn. apply lookup_insert_eq. Qed.

Lemma BatchPut_staged_only (this : BlockStore) (key value : bytes) :
  staged_only this (set_store this (BatchPut (store this) key value)) key.
Proof.
  split; [reflexivity |]. exists value. split; [reflexivity |].
  intros this''. unfold CommitTo, BatchCommit, Get. cbn.
  destruct (fault (store this)) eqn:Hfault; cbn; [discriminate |].
  intros [= <-]. cbn. rewrite write_op_last. reflexivity.
Qed.

Lemma SaveVersion_direct (this this' : BlockStore) (ver : byte) :
  SaveVersion this ver = (None, this') ->
  Get (store this') getVersionKey = Ok [ver] /\
  GetVersion this' = Ok ver /\
  batch (store this') = batch (store this).
Proof.
  unfold SaveVersion, GetVersion, Put, Get.
  destruct (fault (store this)) eqn:Hfault; cbn; [discriminate |].
  intros [= <-]. cbn. rewrite lookup_insert_eq. auto.
Qed.

(** C10. [SaveVersion] writes the version byte to the store itself: when it
    returns no error the byte is read back at once, no commit needed, and it
    returns no error unless the substrate reports a failure.  [SaveHeader],
    [SaveTransaction], [SaveCurrentBlock] and [SaveBlockHash] only add one
    write to the batch: every read of the persisted store gives what it gave
    before, and the value is readable once [CommitTo] has succeeded.
    ([SaveTransaction] stages nothing when it returns an error.) *)
Theorem SaveVersion_direct_others_staged (this : BlockStore) (ver : byte)
    (block : Block) (tx : Transaction) (height : Z) (blockHash : Uint256) :
  (forall this',
     SaveVersion this ver = (None, this') ->
     Get (store this') getVersionKey = Ok [ver] /\
     GetVersion this' = Ok ver /\
     batch (store this') = batch (store this)) /\
  (fault (store this) = None -> (SaveVersion this ver).1 = None) /\
  staged_only this (SaveHeader this block).2 (getHeaderKey (Hash block)) /\
  ((SaveTransaction this tx height).1 = None ->
   staged_only this (SaveTransaction this tx height).2
     (getTransactionKey (Transaction_Hash tx))) /\
  ((SaveTransaction this tx height).1 <> None ->
   store (SaveTransaction this tx height).2 = store this) /\
  staged_only this (SaveCurrentBlock this height blockHash).2
    getCurrentBlockKey /\
  staged_only this (SaveBlockHash this height blockHash)
    (getBlockHashKey height).
Proof.
  split; [intros this'; apply SaveVersion_direct |].
  split.
  { intros Hfault. unfold SaveVersion, Put. rewrite Hfault. reflexivity. }
  split; [apply (BatchPut_staged_only this) |].
  split.
  { unfold SaveTransaction, putTransaction, serialization_WriteUint32.
    destruct (WriteBytes (Transaction_Raw tx)); cbn; [| discriminate].
    intros _. destruct (enableCache this).
    - apply (BatchPut_staged_only (set_cache this _)).
    - apply (BatchPut_staged_only this). }
  split.
  { unfold SaveTransaction, putTransaction, serialization_WriteUint32.
    destruct (WriteBytes (Transaction_Raw tx)); cbn; [congruence |].
    intros _. destruct (enableCache this); reflexivity. }
  split; apply (BatchPut_staged_only this).
Qed.

End BlockStoreProperties.

Section BlockStoreExamples.
Import leveldbstore ledgerstore.

(** The one-byte ledger round-trips. *)
#[local] Instance byte_ledger_laws : TypesLaws.
Proof.
  split.
  - intros header rest. reflexivity.
  - intros tx written [= <-]. reflexivity.
Qed.

Lemma byte_ledger_collision_free (txs : list byte) :
  collision_free (H := demo.byte_ledger) txs.
Proof. intros tx1 tx2 _ _ Heq. exact (f_equal Vector.hd Heq). Qed.

(** C9 on explicit keys, with the prefixes [0x01], [0x02], [0x00], [0x10],
    [0x11]: the header key and the transaction key of the same hash. *)
Lemma persisted_keys_distinct_witness :
  head (key_bytes (KeyHeader (vreplicate 32 x05))) = Some x01 /\
  (HeaderRecord <> TransactionRecord ->
   key_bytes (KeyHeader (vreplicate 32 x05))
   <> key_bytes (KeyTransaction (vreplicate 32 x05))).
Proof.
  assert (Hdistinct : prefixes_distinct (H0 := demo.prefixes)).
  { unfold prefixes_distinct. cbn. compute_done. }
  exact (persisted_keys_distinct (H0 := demo.prefixes) Hdistinct
           (KeyHeader (vreplicate 32 x05))
           (KeyTransaction (vreplicate 32 x05))).
Defined.

(** C4 on an explicit input: the block with header [0x05] and two
    transactions, saved in a fresh batch of a store with the cache enabled. *)
Lemma SaveBlock_then_GetBlock_witness :
  let this := BlockStore_NewBatch (demo.new_store true) in
  let this1 := (SaveBlock this demo.block5).2 in
  let this2 := (CommitTo this1).2 in
  SaveBlock this demo.block5 = (None, this1) /\
  CommitTo this1 = (None, this2) /\
  exists this3, GetBlock this2 (Hash demo.block5) = (Ok demo.block5, this3).
Proof.
  intros this this1 this2.
  assert (Hsave : SaveBlock this demo.block5 = (None, this1))
    by (vm_compute; reflexivity).
  assert (Hcommit : CommitTo this1 = (None, this2))
    by (vm_compute; reflexivity).
  split; [exact Hsave |]. split; [exact Hcommit |].
  apply (SaveBlock_then_GetBlock this this1 this2 demo.block5).
  - discriminate.
  - vm_compute. reflexivity.
  - apply byte_ledger_collision_free.
  - exact Hsave.
  - exact Hcommit.
Defined.



(** C7 as stated fails: after the same operations, [NewBatch] and
    [SaveBlock] with no [CommitTo], the store with the cache enabled returns
    the block, its header and its transaction and reports both as contained,
    and the store with the cache disabled finds none of them. *)
Lemma cache_changes_results_counterexample :
  let ops :=
    [OpNewBatch; OpSaveBlock demo.block5;
     OpGetBlock (Hash demo.block5); OpGetHeader (Hash demo.block5);
     OpGetTransaction (vreplicate 32 x0a); OpContainBlock (Hash demo.block5);
     OpContainTransaction (vreplicate 32 x0a)] in
  (run (demo.new_store true) ops).1
  = [RetNothing; RetError None;
     RetBlock (Ok demo.block5); RetHeader (Ok x05);
     RetTransaction (Ok (Some x0a, 5)); RetBool (Ok true);
     RetBool (Ok true)] /\
  (run (demo.new_store false) ops).1
  = [RetNothing; RetError None;
     RetBlock (Err ErrNotFound); RetHeader (Err ErrNotFound);
     RetTransaction (Err ErrNotFound); RetBool (Ok false);
     RetBool (Ok false)].
Proof. vm_compute. split; reflexivity. Qed.

Lemma byte_ledger_collision_free_blocks (block : Block) :
  collision_free_blocks (H := demo.byte_ledger) [block].
Proof.
  intros block1 block2 Hin1 Hin2 _.
  apply list_elem_of_singleton in Hin1, Hin2. congruence.
Qed.

(** C7 on an explicit input: a block is saved and committed, then read back
    in every way, on a fresh store with the cache enabled and on one with the
    cache disabled. *)
Lemma reads_agree_when_committed_witness :
  let ops :=
    [OpNewBatch; OpSaveBlock demo.block5; OpCommitTo;
     OpGetBlock (Hash demo.block5); OpGetHeader (Hash demo.block5);
     OpGetTransaction (vreplicate 32 x0a); OpContainBlock (Hash demo.block5);
     OpContainTransaction (vreplicate 32 x0b)] in
  (run (demo.new_store true) ops).1 = (run (demo.new_store false) ops).1.
Proof.
  intros ops.
  apply (reads_agree_when_committed ops (demo.new_store true)
           (demo.new_store false)).
  - discriminate.
  - reflexivity.
  - repeat constructor; vm_compute; discriminate.
  - apply byte_ledger_collision_free.
  - apply byte_ledger_collision_free_blocks.
  - reflexivity.
  - reflexivity.
  - reflexivity.
  - reflexivity.
  - split; reflexivity.
  - vm_compute. repeat constructor.
Defined.

End BlockStoreExamples.

(** ** Part III: the rest of the three sources *)

(** *** The cross-chain entrance: the other paths and the other methods *)

Section EntrancePaths.
Import cross_chain_manager.
Context {NativeService : Type} `{!Native NativeService}.

Ltac entrance_unfold :=
  repeat first
    [ rewrite M_bind_unfold
    | rewrite call_GetSideChain_eq
    | rewrite call_MakeDepositProposal_eq
    | rewrite call_MakeTransaction_eq
    | rewrite wrapf_read_eq
    | rewrite read_eq
    | progress cbn [native calls app fst snd to_result fail mret M_ret] ].

(** Whatever the input and the service, the calls [ImportExTransfer] makes
    are the first calls, in this order, of: the registry lookup of the source
    chain, [MakeDepositProposal] on the source chain's handler, the registry
    lookup of the proposal's target chain, [MakeTransaction] on the target
    chain's handler with that proposal.  The service is changed by the two
    handler calls only, the last two calls are made for the source chain ids
    2 and 3 only, and a call that stops before [MakeDepositProposal] or on
    the target lookup returns an error. *)
Theorem ImportExTransfer_call_protocol (n : NativeService) :
  exists r n' cs,
    ImportExTransfer n = (r, n', cs) /\
    ((cs = [] /\ n' = n /\ r.2 <> None) \/
     (exists src,
        cs = [Call_GetSideChain src] /\ n' = n /\ r.2 <> None) \/
     (exists src h,
        cs = [Call_GetSideChain src; Call_MakeDepositProposal h] /\
        GetChainHandler src = Ok h /\
        n' = (MakeDepositProposal h n).2 /\
        (r.2 = None <->
         is_Ok (MakeDepositProposal h n).1 = true /\
         ~ (src = 2 \/ src = 3))) \/
     (exists src h p,
        cs = [Call_GetSideChain src; Call_MakeDepositProposal h;
              Call_GetSideChain (ToChainID p)] /\
        (src = 2 \/ src = 3) /\
        MakeDepositProposal h n = (Ok p, n') /\ r.2 <> None) \/
     (exists src h p n1 h',
        cs = [Call_GetSideChain src; Call_MakeDepositProposal h;
              Call_GetSideChain (ToChainID p); Call_MakeTransaction h' p] /\
        (src = 2 \/ src = 3) /\
        MakeDepositProposal h n = (Ok p, n1) /\
        GetChainHandler (ToChainID p) = Ok h' /\
        n' = (MakeTransaction h' n1 p).2 /\
        (r.2 = None <-> (MakeTransaction h' n1 p).1 = None))).
Proof.
  unfold ImportExTransfer, ImportExTransfer_body. entrance_unfold.
  destruct (EntranceParam_Deserialization (GetInput n)) as [params | e].
  2: { eexists _, _, _. split; [reflexivity |]. left. cbn. easy. }
  entrance_unfold.
  destruct (GetSideChain n (SourceChainID params)) as [sc | e].
  2: { eexists _, _, _. split; [reflexivity |]. right. left.
       eexists. cbn. easy. }
  destruct (decide (ChainId sc ≠ SourceChainID params)) as [Hne | _].
  { eexists _, _, _. split; [reflexivity |]. right. left.
    eexists. cbn. easy. }
  entrance_unfold.
  destruct (GetChainHandler (SourceChainID params)) as [h | e] eqn:Hh.
  2: { eexists _, _, _. split; [reflexivity |]. right. left.
       eexists. cbn. easy. }
  destruct (decide (SourceChainID params = 2 ∨ SourceChainID params = 3))
    as [Hroute | Hroute]; entrance_unfold.
  - destruct (MakeDepositProposal h n) as [[p | e] n1] eqn:Hp; entrance_unfold.
    2: { eexists _, _, _. split; [reflexivity |]. right. right. left.
         exists (SourceChainID params), h. rewrite Hp. cbn.
         repeat split; try easy; intros [? _]; discriminate. }
    destruct (GetSideChain n1 (ToChainID p)) as [sc' | e].
    2: { eexists _, _, _. split; [reflexivity |]. do 3 right. left.
         exists (SourceChainID params), h, p. cbn. easy. }
    destruct (decide (ChainId sc' ≠ ToChainID p)) as [Hne | _].
    { eexists _, _, _. split; [reflexivity |]. do 3 right. left.
      exists (SourceChainID params), h, p. cbn. easy. }
    entrance_unfold.
    destruct (GetChainHandler (ToChainID p)) as [h' | e] eqn:Hh'.
    2: { eexists _, _, _. split; [reflexivity |]. do 3 right. left.
         exists (SourceChainID params), h, p. cbn. easy. }
    entrance_unfold.
    destruct (MakeTransaction h' n1 p) as [[e |] n2] eqn:Hmk;
      entrance_unfold.
    + eexists _, _, _. split; [reflexivity |]. do 4 right.
      exists (SourceChainID params), h, p, n1, h'. rewrite Hmk. cbn.
      repeat split; easy.
    + eexists _, _, _. split; [reflexivity |]. do 4 right.
      exists (SourceChainID params), h, p, n1, h'. rewrite Hmk. cbn.
      repeat split; easy.
  - destruct (MakeDepositProposal h n) as [[p | e] n1] eqn:Hp; entrance_unfold.
    + eexists _, _, _. split; [reflexivity |]. right. right. left.
      exists (SourceChainID params), h. rewrite Hp. cbn.
      repeat split; easy.
    + eexists _, _, _. split; [reflexivity |]. right. right. left.
      exists (SourceChainID params), h. rewrite Hp. cbn.
      repeat split; try easy; intros [? _]; discriminate.
Qed.

(** A source chain that is registered and has no handler: the error of
    [GetChainHandler] is returned as it is, after the registry lookup alone,
    and the service is left as it was. *)
Theorem ImportExTransfer_unsupported_source
    (n : NativeService) (params : EntranceParam) (sc : SideChain)
    (Hparams : EntranceParam_Deserialization (GetInput n) = Ok params)
    (Hsc : GetSideChain n (SourceChainID params) = Ok sc)
    (Hid : ChainId sc = SourceChainID params)
    (Hnone : SourceChainID params
             ∉ [BTC_CHAIN_ID; ETH_CHAIN_ID; ONT_CHAIN_ID; NEO_CHAIN_ID]) :
  ImportExTransfer n =
    ((BYTE_FALSE,
      Some (Errorf "not a supported chainid:%d"
              [ArgNum (SourceChainID params)])),
     n, [Call_GetSideChain (SourceChainID params)]).
Proof.
  rewrite !not_elem_of_cons in Hnone. destruct Hnone as (Hb & He & Ho & Hn & _).
  unfold ImportExTransfer, ImportExTransfer_body.
  entrance_unfold. rewrite Hparams. entrance_unfold. rewrite Hsc.
  destruct (decide (ChainId sc ≠ SourceChainID params)) as [Hne | _];
    [contradiction |].
  entrance_unfold. unfold GetChainHandler.
  rewrite !decide_False by assumption. reflexivity.
Qed.

(** When [MakeDepositProposal] fails, [ImportExTransfer] returns its error
    unwrapped and the service as the handler left it, whatever the source
    chain id, and makes no further call. *)
Theorem ImportExTransfer_proposal_failure
    (n n1 : NativeService) (params : EntranceParam) (sc : SideChain)
    (handler : Handler) (e : error)
    (Hparams : EntranceParam_Deserialization (GetInput n) = Ok params)
    (Hsc : GetSideChain n (SourceChainID params) = Ok sc)
    (Hid : ChainId sc = SourceChainID params)
    (Hhandler : GetChainHandler (SourceChainID params) = Ok handler)
    (Hproposal : MakeDepositProposal handler n = (Err e, n1)) :
  ImportExTransfer n =
    ((BYTE_FALSE, Some e), n1,
     [Call_GetSideChain (SourceChainID params);
      Call_MakeDepositProposal handler]).
Proof.
  unfold ImportExTransfer, ImportExTransfer_body.
  entrance_unfold. rewrite Hparams. entrance_unfold. rewrite Hsc.
  destruct (decide (ChainId sc ≠ SourceChainID params)) as [Hne | _];
    [contradiction |].
  entrance_unfold. rewrite Hhandler.
  destruct (decide (SourceChainID params = 2 ∨ SourceChainID params = 3));
    entrance_unfold; rewrite Hproposal; reflexivity.
Qed.

(** For the source chain ids 2 and 3, when the proposal's target chain has no
    matching side-chain record or no handler, [ImportExTransfer] returns an
    error and the service as [MakeDepositProposal] left it: what the handler
    wrote for the proposal is not undone, and [MakeTransaction] is not
    called. *)
Theorem ImportExTransfer_target_failure
    (n n1 : NativeService) (params : EntranceParam) (sc : SideChain)
    (handler : Handler) (p : MakeTxParam)
    (Hparams : EntranceParam_Deserialization (GetInput n) = Ok params)
    (Hsc : GetSideChain n (SourceChainID params) = Ok sc)
    (Hid : ChainId sc = SourceChainID params)
    (Hhandler : GetChainHandler (SourceChainID params) = Ok handler)
    (Hroute : SourceChainID params = 2 \/ SourceChainID params = 3)
    (Hproposal : MakeDepositProposal handler n = (Ok p, n1))
    (Htarget :
       (exists e, GetSideChain n1 (ToChainID p) = Err e) \/
       (exists sc', GetSideChain n1 (ToChainID p) = Ok sc' /\
                    ChainId sc' <> ToChainID p) \/
       (exists e, GetChainHandler (ToChainID p) = Err e)) :
  exists err,
    ImportExTransfer n =
      ((BYTE_FALSE, Some err), n1,
       [Call_GetSideChain (SourceChainID params);
        Call_MakeDepositProposal handler;
        Call_GetSideChain (ToChainID p)]).
Proof.
  unfold ImportExTransfer, ImportExTransfer_body.
  entrance_unfold. rewrite Hparams. entrance_unfold. rewrite Hsc.
  destruct (decide (ChainId sc ≠ SourceChainID params)) as [Hne | _];
    [contradiction |].
  entrance_unfold. rewrite Hhandler.
  destruct (decide (SourceChainID params = 2 ∨ SourceChainID params = 3))
    as [_ | Hno]; [| contradiction].
  entrance_unfold. rewrite Hproposal. entrance_unfold.
  destruct (GetSideChain n1 (ToChainID p)) as [sc' | e] eqn:Hlookup;
    [| eexists; reflexivity].
  destruct (decide (ChainId sc' ≠ ToChainID p)) as [Hne | Heq];
    [eexists; reflexivity |].
  apply dec_stable in Heq. entrance_unfold.
  destruct Htarget as [[e He] | [(sc2 & Hsc2 & Hne) | [e He]]].
  - discriminate.
  - congruence.
  - rewrite He. eexists; reflexivity.
Qed.

Section VoteProperties.
Context `{!BTC NativeService}.

(** Unless the handler's vote passes, [Vote] ends there: it looks up no
    chain and makes no transaction, leaves the service as the handler left
    it, and returns the handler's error or, without one, [BYTE_TRUE]. *)
Theorem Vote_not_passed
    (n n1 : NativeService) (r : result (bool * MakeTxParam))
    (Hvote : BTCHandler_Vote n = (r, n1))
    (Hno : forall p, r <> Ok (true, p)) :
  Vote n =
    (match r with
     | Ok _ => (BYTE_TRUE, None)
     | Err e => (BYTE_FALSE, Some e)
     end, n1, []).
Proof.
  unfold Vote, Vote_body, act. rewrite M_bind_unfold. cbn [native calls].
  rewrite Hvote. destruct r as [[[|] p] | e]; [| reflexivity ..].
  exfalso. exact (Hno p eq_refl).
Qed.

(** Once the vote has passed with the proposal [p], [Vote] completes the
    transfer as [ImportExTransfer] does for the source chain ids 2 and 3
    after [MakeDepositProposal] has returned [p]: from the same state, the
    same result and final state, and the same calls after the two that
    [ImportExTransfer] makes first. *)
Theorem Vote_completes_as_ImportExTransfer
    (n nv n1 : NativeService) (params : EntranceParam) (sc : SideChain)
    (handler : Handler) (p : MakeTxParam)
    (Hparams : EntranceParam_Deserialization (GetInput n) = Ok params)
    (Hsc : GetSideChain n (SourceChainID params) = Ok sc)
    (Hid : ChainId sc = SourceChainID params)
    (Hhandler : GetChainHandler (SourceChainID params) = Ok handler)
    (Hroute : SourceChainID params = 2 \/ SourceChainID params = 3)
    (Hproposal : MakeDepositProposal handler n = (Ok p, n1))
    (Hvote : BTCHandler_Vote nv = (Ok (true, p), n1)) :
  (ImportExTransfer n).1 = (Vote nv).1 /\
  (ImportExTransfer n).2 =
    [Call_GetSideChain (SourceChainID params);
     Call_MakeDepositProposal handler] ++ (Vote nv).2.
Proof.
  assert (Htail : forall w : World NativeService,
            exists r n' cs,
              make_target_transaction p w
              = (r, {| native := n'; calls := calls w ++ cs |}) /\
              forall w' : World NativeService,
                native w' = native w ->
                make_target_transaction p w'
                = (r, {| native := n'; calls := calls w' ++ cs |})).
  { intros w. unfold make_target_transaction. entrance_unfold.
    destruct (GetSideChain (native w) (ToChainID p)) as [sc' | e] eqn:Hl.
    2: { eexists _, _, _. split; [reflexivity |]. intros w' Hw'.
         entrance_unfold. rewrite Hw', Hl. reflexivity. }
    destruct (decide (ChainId sc' ≠ ToChainID p)) as [Hne | Heq].
    { eexists _, _, _. split; [reflexivity |]. intros w' Hw'.
      entrance_unfold. rewrite Hw', Hl.
      rewrite decide_True by assumption. reflexivity. }
    entrance_unfold.
    destruct (GetChainHandler (ToChainID p)) as [h' | e] eqn:Hh'.
    2: { eexists _, _, _. split; [reflexivity |]. intros w' Hw'.
         entrance_unfold. rewrite Hw', Hl.
         rewrite decide_False by assumption. entrance_unfold.
         reflexivity. }
    entrance_unfold. rewrite <- app_assoc. cbn [app].
    eexists _, _, _. split; [reflexivity |]. intros w' Hw'.
    entrance_unfold. rewrite Hw', Hl.
    rewrite decide_False by assumption. entrance_unfold.
    rewrite <- app_assoc. reflexivity. }
  destruct (Htail {| native := n1; calls := [] |}) as (r & n' & cs & _ & Hall).
  assert (Hi : ImportExTransfer_body {| native := n; calls := [] |}
               = make_target_transaction p
                   {| native := n1;
                      calls := [Call_GetSideChain (SourceChainID params);
                                Call_MakeDepositProposal handler] |}).
  { unfold ImportExTransfer_body.
    entrance_unfold. rewrite Hparams. entrance_unfold. rewrite Hsc.
    destruct (decide (ChainId sc ≠ SourceChainID params)) as [Hne | _];
      [contradiction |].
    entrance_unfold. rewrite Hhandler.
    destruct (decide (SourceChainID params = 2 ∨ SourceChainID params = 3))
      as [_ | Hno]; [| contradiction].
    entrance_unfold. rewrite Hproposal. reflexivity. }
  assert (Hv : Vote_body {| native := nv; calls := [] |}
               = make_target_transaction p {| native := n1; calls := [] |}).
  { unfold Vote_body, act. rewrite M_bind_unfold. cbn [native calls].
    rewrite Hvote. reflexivity. }
  unfold ImportExTransfer, Vote. rewrite Hi, Hv.
  rewrite (Hall {| native := n1; calls := [] |} eq_refl).
  rewrite (Hall {| native := n1;
                   calls := [Call_GetSideChain (SourceChainID params);
                             Call_MakeDepositProposal handler] |} eq_refl).
  cbn [calls app]. destruct r; split; reflexivity.
Qed.

End VoteProperties.

End EntrancePaths.

(** *** The header-sync handler: accepted calls and the genesis header *)

Section HeaderSyncLoop.
Import ont.
Context {NativeService : Type} `{!HeaderSync NativeService}.

(** The loop of [SyncBlockHeader] over the headers [l1 ++ l2] is the loop
    over [l1] followed, when it returns no error, by the loop over [l2] from
    the state it left; an error on [l1] ends the call, and nothing of [l2]
    is looked at. *)
Theorem sync_headers_app (address : Address) (l1 l2 : list bytes)
    (n : NativeService) :
  sync_headers address (l1 ++ l2) n =
  match sync_headers address l1 n with
  | (None, n1) => sync_headers address l2 n1
  | (Some err, n1) => (Some err, n1)
  end.
Proof.
  revert n. induction l1 as [| v l1 IH]; intros n; [reflexivity |].
  cbn [app sync_headers].
  destruct (HeaderFromRawBytes v) as [header | e]; [| reflexivity].
  destruct (GetHeaderByHeight n (ShardID header) (Height header));
    [reflexivity |].
  destruct (verifyHeader n header); [reflexivity |].
  destruct (PutBlockHeader n header) as [[e1 |] n1]; [reflexivity |].
  destruct (UpdateConsensusPeer n1 header address) as [[e2 |] n2];
    [reflexivity |].
  apply IH.
Qed.

Lemma sync_headers_accepted (address : Address) (raws : list bytes) :
  forall n n' : NativeService,
    sync_headers address raws n = (None, n') <->
    exists hs, decoded raws hs /\ accepted_in_turn address n hs n'.
Proof.
  induction raws as [| v raws IH]; intros n n'.
  - cbn. split.
    + intros [= <-]. exists []. split; [constructor | reflexivity].
    + intros (hs & Hdec & Hacc). inversion Hdec; subst. cbn in Hacc.
      congruence.
  - cbn [sync_headers]. split.
    + intros Hrun.
      destruct (HeaderFromRawBytes v) as [header | e] eqn:Hv; [| discriminate].
      destruct (GetHeaderByHeight n (ShardID header) (Height header))
        as [s | e0] eqn:Hget; [discriminate |].
      destruct (verifyHeader n header) eqn:Hver; [discriminate |].
      destruct (PutBlockHeader n header) as [[e1 |] n1] eqn:Hput;
        [discriminate |].
      destruct (UpdateConsensusPeer n1 header address) as [[e2 |] n2] eqn:Hupd;
        [discriminate |].
      apply IH in Hrun as (hs & Hdec & Hacc).
      exists (header :: hs). split; [constructor; assumption |].
      cbn [accepted_in_turn]. split; [eauto |]. split; [assumption |].
      exists n1, n2. auto.
    + intros (hs & Hdec & Hacc).
      inversion Hdec as [| ? header ? hs' Hv Hdec']; subst.
      cbn [accepted_in_turn] in Hacc.
      destruct Hacc as ([e He] & Hver & n1 & n2 & Hput & Hupd & Hacc).
      rewrite Hv, He, Hver, Hput, Hupd. apply IH. eauto.
Qed.

(** [SyncBlockHeader] returns no error exactly when its input decodes and
    every header of the call, in order, decodes, is not found at its chain
    and height, verifies, is stored and has its peer-set update applied:
    each check is made against the state that the headers before it in the
    same call have left, and the final state is the one after the last
    header.  A call that carries no header returns no error and changes
    nothing. *)
Theorem SyncBlockHeader_accepts (n n' : NativeService) :
  SyncBlockHeader n = (None, n') <->
  exists address raws hs,
    SyncBlockHeaderParam_Deserialization (GetInput n) = Ok (address, raws) /\
    decoded raws hs /\
    accepted_in_turn address n hs n'.
Proof.
  unfold SyncBlockHeader.
  destruct (SyncBlockHeaderParam_Deserialization (GetInput n))
    as [[address raws] | e].
  - rewrite sync_headers_accepted. split.
    + intros (hs & Hdec & Hacc). exists address, raws, hs. auto.
    + intros (a & r & hs & [= <- <-] & Hdec & Hacc). eauto.
  - split; [discriminate |]. intros (a & r & hs & Hd & _). discriminate.
Qed.

Section GenesisProperties.
Context `{!GenesisSync NativeService}.

(** [SyncGenesisHeader] writes nothing unless the call is witnessed by the
    operator: if it leaves the service in another state than it found it,
    then the input decoded, the operator address was derived and
    [ValidateOwner] accepted it for this call, and the genesis header
    decoded. *)
Theorem SyncGenesisHeader_writes_for_owner_only (n : NativeService)
    (Hchanged : (SyncGenesisHeader n).2 <> n) :
  exists raw operator header,
    SyncGenesisHeaderParam_Deserialization (GetInput n) = Ok raw /\
    GenesisBookkeepers_Address = Ok operator /\
    ValidateOwner n operator = None /\
    HeaderFromRawBytes raw = Ok header.
Proof.
  unfold SyncGenesisHeader in Hchanged.
  destruct (SyncGenesisHeaderParam_Deserialization (GetInput n))
    as [raw | e] eqn:Hraw; [| contradiction].
  destruct GenesisBookkeepers_Address as [operator | e] eqn:Hop;
    [| contradiction].
  destruct (ValidateOwner n operator) eqn:Hv; [contradiction |].
  destruct (HeaderFromRawBytes raw) as [header | e] eqn:Hh; [| contradiction].
  exists raw, operator, header. repeat split; assumption || reflexivity.
Qed.

(** [SyncGenesisHeader] returns no error exactly when the input decodes, the
    operator witnesses the call, the header decodes, and storing it and
    updating the peer set return no error.  Unlike [SyncBlockHeader], it
    neither looks for a header already stored at the same chain and height
    nor verifies the header: a genesis header replaces what is stored. *)
Theorem SyncGenesisHeader_accepts (n n' : NativeService) :
  SyncGenesisHeader n = (None, n') <->
  exists raw operator header n1,
    SyncGenesisHeaderParam_Deserialization (GetInput n) = Ok raw /\
    GenesisBookkeepers_Address = Ok operator /\
    ValidateOwner n operator = None /\
    HeaderFromRawBytes raw = Ok header /\
    PutBlockHeader n header = (None, n1) /\
    UpdateConsensusPeer n1 header operator = (None, n').
Proof.
  unfold SyncGenesisHeader. split.
  - intros Hrun.
    destruct (SyncGenesisHeaderParam_Deserialization (GetInput n))
      as [raw | e] eqn:Hraw; [| discriminate].
    destruct GenesisBookkeepers_Address as [operator | e] eqn:Hop;
      [| discriminate].
    destruct (ValidateOwner n operator) eqn:Hv; [discriminate |].
    destruct (HeaderFromRawBytes raw) as [header | e] eqn:Hh;
      [| discriminate].
    destruct (PutBlockHeader n header) as [[e1 |] n1] eqn:Hput;
      [discriminate |].
    destruct (UpdateConsensusPeer n1 header operator) as [[e2 |] n2] eqn:Hupd;
      [discriminate |].
    injection Hrun as <-. exists raw, operator, header, n1.
    repeat split; assumption || reflexivity.
  - intros (raw & operator & header & n1 & -> & -> & -> & -> & -> & ->).
    reflexivity.
Qed.

End GenesisProperties.

End HeaderSyncLoop.

(** *** The block store: keys, round trips, errors and reads *)

Section BlockStoreMore.
Import leveldbstore ledgerstore.
Context `{!Types} `{!Prefixes}.

Lemma PutUint32_inj (v1 v2 : Z) :
  0 <= v1 < 2 ^ 32 -> 0 <= v2 < 2 ^ 32 ->
  PutUint32 v1 = PutUint32 v2 -> v1 = v2.
Proof.
  intros H1 H2 Heq.
  pose proof (Uint32_PutUint32 v1 [] H1) as E1.
  pose proof (Uint32_PutUint32 v2 [] H2) as E2.
  rewrite Heq in E1. congruence.
Qed.

(** The keys have a fixed length, 33 bytes for a header or a transaction, 5
    for a block hash by height, 1 for the others, and within a record type
    different hashes or heights (as [uint32] values) give different keys. *)
Theorem keys_fixed_length_injective :
  (forall h, length (getHeaderKey h) = 33%nat) /\
  (forall h, length (getTransactionKey h) = 33%nat) /\
  (forall height, length (getBlockHashKey height) = 5%nat) /\
  length getCurrentBlockKey = 1%nat /\
  length getVersionKey = 1%nat /\
  length getBlockMerkleTreeKey = 1%nat /\
  (forall h1 h2, getHeaderKey h1 = getHeaderKey h2 -> h1 = h2) /\
  (forall h1 h2, getTransactionKey h1 = getTransactionKey h2 -> h1 = h2) /\
  (forall height1 height2,
     0 <= height1 < 2 ^ 32 -> 0 <= height2 < 2 ^ 32 ->
     getBlockHashKey height1 = getBlockHashKey height2 -> height1 = height2).
Proof.
  split.
  { intros h. unfold getHeaderKey, ToArray.
    rewrite length_cons, length_vec_to_list. reflexivity. }
  split.
  { intros h. unfold getTransactionKey, Serialize, ToArray.
    rewrite length_app, length_vec_to_list. reflexivity. }
  split; [reflexivity |]. split; [reflexivity |].
  split; [reflexivity |]. split; [reflexivity |].
  split; [apply getHeaderKey_inj |].
  split; [apply getTransactionKey_inj |].
  intros v1 v2 H1 H2 [= Heq]. apply PutUint32_inj; try assumption.
  unfold PutUint32. congruence.
Qed.

Lemma committed_put (this this' : BlockStore) (key value : bytes) :
  CommitTo (set_store this (BatchPut (store this) key value)) = (None, this') ->
  Get (store this') key = Ok value.
Proof.
  intros Hc. apply CommitTo_ok in Hc as (_ & Hfault & Hdb & _).
  unfold Get. rewrite Hfault, Hdb. cbn [store set_store BatchPut db batch].
  rewrite write_op_last. reflexivity.
Qed.

(** A block hash saved for a height and committed is the hash read back for
    that height. *)
Theorem SaveBlockHash_then_GetBlockHash (this this' : BlockStore)
    (height : Z) (blockHash : Uint256)
    (Hcommit : CommitTo (SaveBlockHash this height blockHash) = (None, this')) :
  GetBlockHash this' height = Ok blockHash.
Proof.
  unfold SaveBlockHash in Hcommit. apply committed_put in Hcommit.
  unfold GetBlockHash. rewrite Hcommit.
  unfold Uint256ParseFromBytes, ToArray.
  rewrite <- (app_nil_r (vec_to_list blockHash)), next_vec_app. reflexivity.
Qed.

(** The current block saved and committed is read back: the same hash and,
    for a [uint32] height, the same height. *)
Theorem SaveCurrentBlock_then_GetCurrentBlock (this this' : BlockStore)
    (height : Z) (blockHash : Uint256)
    (Hheight : 0 <= height < 2 ^ 32)
    (Hcommit : CommitTo (SaveCurrentBlock this height blockHash).2
               = (None, this')) :
  GetCurrentBlock this' = Ok (blockHash, height).
Proof.
  unfold SaveCurrentBlock, serialization_WriteUint32 in Hcommit.
  cbn [snd] in Hcommit. apply committed_put in Hcommit.
  unfold GetCurrentBlock. rewrite Hcommit.
  unfold Deserialize, Serialize, ToArray. cbn [app].
  rewrite next_vec_app. unfold ReadUint32.
  rewrite <- (app_nil_r (PutUint32 height)), Uint32_PutUint32 by assumption.
  reflexivity.
Qed.

(** Reads of a block. *)
Lemma header_record_views (this : BlockStore) (blockHash : Uint256)
    (e : error) :
  Get (store this) (getHeaderKey blockHash) = Err e ->
  stored_block this blockHash = Err e /\ loadHeader this blockHash = Err e.
Proof.
  intros Hget. unfold stored_block, loadHeaderWithTx, loadHeader.
  rewrite Hget. split; reflexivity.
Qed.

Lemma block_view_miss (this : BlockStore) (blockHash : Uint256) :
  block_cache_miss this blockHash ->
  block_view this blockHash = stored_block this blockHash /\
  header_view this blockHash = loadHeader this blockHash /\
  enableCache this && cache_ContainBlock (cache this) blockHash = false.
Proof.
  unfold block_cache_miss, block_view, header_view, cache_ContainBlock,
    lru_Contains, peek.
  intros [-> | Hpeek]; [repeat split |].
  rewrite Hpeek. destruct (enableCache this); repeat split.
Qed.

Lemma transaction_view_miss (this : BlockStore) (txHash : Uint256) :
  transaction_cache_miss this txHash ->
  transaction_view this txHash = stored_transaction (store this) txHash /\
  enableCache this && cache_ContainTransaction (cache this) txHash = false.
Proof.
  unfold transaction_cache_miss, transaction_view, cache_ContainTransaction,
    lru_Contains, peek.
  intros [-> | Hpeek]; [repeat split |].
  rewrite Hpeek. destruct (enableCache this); repeat split.
Qed.

(** When the read of the header record fails and the block is not in the
    cache, [GetBlock] and [GetHeader] return the error of the store as it
    is, [scom.ErrNotFound] included; [ContainBlock] answers "no" to
    [scom.ErrNotFound] and returns any other error. *)
Theorem block_reads_return_store_error (this : BlockStore)
    (blockHash : Uint256) (e : error)
    (Hmiss : block_cache_miss this blockHash)
    (Hget : Get (store this) (getHeaderKey blockHash) = Err e) :
  (GetBlock this blockHash).1 = Err e /\
  (GetHeader this blockHash).1 = Err e /\
  ContainBlock this blockHash =
    match e with
    | ErrNotFound => Ok false
    | _ => Err e
    end.
Proof.
  destruct (block_view_miss this blockHash Hmiss) as (Hb & Hh & Hc).
  destruct (header_record_views this blockHash e Hget) as [Hsb Hlh].
  destruct (GetBlock_spec this blockHash) as [_ ->].
  destruct (GetHeader_spec this blockHash) as [_ ->].
  rewrite Hb, Hh, Hsb, Hlh. unfold ContainBlock. rewrite Hc, Hget.
  repeat split.
Qed.

(** The same for a transaction: [GetTransaction] returns the error of the
    store as it is, and [ContainTransaction] answers "no" to
    [scom.ErrNotFound] only. *)
Theorem transaction_reads_return_store_error (this : BlockStore)
    (txHash : Uint256) (e : error)
    (Hmiss : transaction_cache_miss this txHash)
    (Hget : Get (store this) (getTransactionKey txHash) = Err e) :
  (GetTransaction this txHash).1 = Err e /\
  ContainTransaction this txHash =
    match e with
    | ErrNotFound => Ok false
    | _ => Err e
    end.
Proof.
  destruct (transaction_view_miss this txHash Hmiss) as (Ht & Hc).
  destruct (GetTransaction_spec this txHash) as [_ ->].
  rewrite Ht. unfold stored_transaction, ContainTransaction.
  rewrite Hc, Hget. repeat split.
Qed.

(** [GetTransaction] never returns a nil transaction without an error, so
    the loop of [GetBlock] never takes its "cannot get transaction" exit: a
    listed transaction that cannot be loaded always surfaces as the wrapped
    error of [GetTransaction]. *)
Theorem GetTransaction_never_nil (this : BlockStore) :
  (forall txHash height,
     (GetTransaction this txHash).1 <> Ok (None, height)) /\
  (forall txHashes txList err,
     (get_transactions this txHashes txList).1 = Err err ->
     exists txHash cause,
       txHash ∈ txHashes /\ err = InconsistentStore txHash cause).
Proof.
  split.
  - intros txHash height. destruct (GetTransaction_spec this txHash) as [_ ->].
    apply transaction_view_not_nil.
  - intros txHashes txList err.
    destruct (get_transactions_spec txHashes this txList) as [_ ->].
    revert txList. induction txHashes as [| h rest IH]; intros txList;
      [discriminate |].
    cbn [transactions_view].
    destruct (transaction_view this h) as [[[tx |] ht] | e] eqn:Hview.
    + intros Herr. destruct (IH _ Herr) as (k & cause & Hin & ->).
      exists k, cause. split; [by right | reflexivity].
    + exfalso. exact (transaction_view_not_nil _ _ _ Hview).
    + intros [= <-]. exists h, e. split; [by left | reflexivity].
Qed.

(** Whenever [GetBlock] returns a block, [GetHeader] returns the header of
    that block for the same hash and [ContainBlock] answers "yes". *)
Theorem GetBlock_then_GetHeader (this : BlockStore) (blockHash : Uint256)
    (block : Block)
    (Hblock : (GetBlock this blockHash).1 = Ok block) :
  (GetHeader this blockHash).1 = Ok (blk_Header block) /\
  ContainBlock this blockHash = Ok true.
Proof.
  destruct (GetBlock_spec this blockHash) as [_ Hb]. rewrite Hb in Hblock.
  destruct (GetHeader_spec this blockHash) as [_ ->].
  unfold block_view in Hblock. unfold header_view, ContainBlock,
    cache_ContainBlock, lru_Contains.
  assert (Hstored : stored_block this blockHash = Ok block ->
            loadHeader this blockHash = Ok (blk_Header block) /\
            match Get (store this) (getHeaderKey blockHash) with
            | Ok _ => Ok true
            | Err ErrNotFound => Ok false
            | Err err => Err err
            end = Ok true).
  { unfold stored_block, loadHeaderWithTx, loadHeader.
    destruct (Get (store this) (getHeaderKey blockHash)) as [value |];
      [| discriminate].
    destruct (Header_Deserialization value) as [[header source] |];
      [| discriminate].
    destruct (NextUint32 source) as [[txSize source'] |]; [| discriminate].
    destruct (next_hashes (Z.to_nat txSize) source' []) as [txHashes |];
      [| discriminate].
    destruct (transactions_view this txHashes []); [| discriminate].
    intros [= <-]. split; reflexivity. }
  destruct (enableCache this); [| cbn [andb]; auto].
  unfold peek in Hblock |- *.
  destruct (assoc blockHash (items (blockCache (cache this)))) as [b |].
  - injection Hblock as ->. split; [reflexivity |].
    rewrite bool_decide_eq_true_2 by eauto. reflexivity.
  - rewrite bool_decide_eq_false_2 by (intros [? ?]; discriminate).
    cbn [andb]. auto.
Qed.

(** Reads change nothing that a read returns. *)
Lemma reads_agree_on_same_contents (this this' : BlockStore) :
  same_contents this this' ->
  forall k,
    (GetBlock this' k).1 = (GetBlock this k).1 /\
    (GetHeader this' k).1 = (GetHeader this k).1 /\
    (GetTransaction this' k).1 = (GetTransaction this k).1 /\
    ContainBlock this' k = ContainBlock this k /\
    ContainTransaction this' k = ContainTransaction this k.
Proof.
  intros Hs k. pose proof Hs as (Hstore & Hen & Hbc & Htc).
  destruct (GetBlock_spec this k) as [_ ->].
  destruct (GetBlock_spec this' k) as [_ ->].
  destruct (GetHeader_spec this k) as [_ ->].
  destruct (GetHeader_spec this' k) as [_ ->].
  destruct (GetTransaction_spec this k) as [_ ->].
  destruct (GetTransaction_spec this' k) as [_ ->].
  split.
  { unfold block_view. rewrite Hen, Hbc.
    rewrite (stored_block_same this this') by assumption. reflexivity. }
  split.
  { unfold header_view, loadHeader. rewrite Hen, Hbc, Hstore. reflexivity. }
  split; [apply transaction_view_same; assumption |].
  unfold ContainBlock, ContainTransaction, cache_ContainBlock,
    cache_ContainTransaction, lru_Contains.
  unfold peek in Hbc, Htc. rewrite Hen, Hstore, Hbc, Htc.
  split; reflexivity.
Qed.

(** [GetBlock], [GetHeader] and [GetTransaction] leave the store as it is,
    and after any of them every read returns what it returned before: a read
    through the cache changes the order of use of its entries and nothing
    that can be observed. *)
Theorem reads_change_no_result (this : BlockStore) (h : Uint256) :
  let unchanged this' :=
    store this' = store this /\
    forall k,
      (GetBlock this' k).1 = (GetBlock this k).1 /\
      (GetHeader this' k).1 = (GetHeader this k).1 /\
      (GetTransaction this' k).1 = (GetTransaction this k).1 /\
      ContainBlock this' k = ContainBlock this k /\
      ContainTransaction this' k = ContainTransaction this k in
  unchanged (GetBlock this h).2 /\
  unchanged (GetHeader this h).2 /\
  unchanged (GetTransaction this h).2.
Proof.
  intros unchanged.
  assert (Hall : forall this', same_contents this this' -> unchanged this').
  { intros this' Hs.
    split; [apply Hs | apply reads_agree_on_same_contents; assumption]. }
  split; [apply Hall, GetBlock_spec |].
  split; [apply Hall, GetHeader_spec | apply Hall, GetTransaction_spec].
Qed.

Lemma save_transactions_persists_nothing (txs : list Transaction)
    (height : Z) :
  forall this,
    db (store (save_transactions this txs height).2) = db (store this) /\
    fault (store (save_transactions this txs height).2) = fault (store this).
Proof.
  induction txs as [| tx txs IH]; intros this; [by split |].
  cbn [save_transactions].
  assert (Hone : db (store (SaveTransaction this tx height).2)
                 = db (store this) /\
                 fault (store (SaveTransaction this tx height).2)
                 = fault (store this)).
  { unfold SaveTransaction, putTransaction, serialization_WriteUint32.
    destruct (WriteBytes (Transaction_Raw tx)), (enableCache this);
      split; reflexivity. }
  destruct (SaveTransaction this tx height) as [[e |] this1];
    cbn [snd] in *; [assumption |].
  destruct (IH this1) as [-> ->]. assumption.
Qed.

(** [SaveBlock] persists nothing by itself, whether it returns an error or
    not: every read of the store gives what it gave before. *)
Theorem SaveBlock_persists_nothing (this : BlockStore) (block : Block)
    (key : bytes) :
  Get (store (SaveBlock this block).2) key = Get (store this) key.
Proof.
  unfold SaveBlock. rewrite SaveHeader_eq.
  destruct (save_transactions_persists_nothing (Transactions block)
              (Header_Height (blk_Header block))
              (set_store
                 (if enableCache this
                  then set_cache this (cache_AddBlock (cache this) block)
                  else this)
                 (BatchPut
                    (store
                       (if enableCache this
                        then set_cache this (cache_AddBlock (cache this) block)
                        else this))
                    (getHeaderKey (Hash block)) (header_value block))))
    as [Hdb Hfault].
  unfold Get. rewrite Hdb, Hfault.
  destruct (enableCache this); reflexivity.
Qed.

Lemma next_vec_short {A} (n : nat) (source : list A) :
  (length source < n)%nat -> next_vec n source = None.
Proof.
  revert source. induction n as [| n IH]; intros source Hlen; [lia |].
  destruct source as [| x source]; [reflexivity |].
  cbn [next_vec]. rewrite IH by (cbn in Hlen; lia). reflexivity.
Qed.




Lemma foldl_BatchDelete (keys : list bytes) :
  forall s : LevelDBStore,
    db (foldl BatchDelete s keys) = db s /\
    fault (foldl BatchDelete s keys) = fault s /\
    batch (foldl BatchDelete s keys)
    = batch s ++ map (fun key => (key, None)) keys.
Proof.
  induction keys as [| key keys IH]; intros s; cbn [foldl map].
  - rewrite app_nil_r. auto.
  - destruct (IH (BatchDelete s key)) as (-> & -> & ->).
    cbn. rewrite <- app_assoc. auto.
Qed.

Lemma last_write_deletes (key : bytes) (keys : list bytes) :
  last_write key (map (fun k => (k, None)) keys) =
  if decide (key ∈ keys) then Some None else None.
Proof.
  induction keys as [| k keys IH]; [reflexivity |].
  cbn [map last_write]. rewrite IH.
  destruct (decide (key ∈ keys)) as [Hin | Hnin].
  - rewrite decide_True by (by right). reflexivity.
  - destruct (decide (k = key)) as [-> | Hne].
    + rewrite decide_True by (by left). reflexivity.
    + rewrite decide_False; [reflexivity |].
      intros Hin. apply elem_of_cons in Hin as [-> | Hin]; contradiction.
Qed.

(** [ClearAll], when it returns no error, leaves the store empty, whatever
    was staged before it; it does not touch the cache, so with the cache
    enabled a block that was cached is still returned by [GetBlock]. *)
Theorem ClearAll_empties_store (this this' : BlockStore)
    (Hclear : ClearAll this = (None, this')) :
  (forall key, Get (store this') key = Err ErrNotFound) /\
  cache this' = cache this /\
  (enableCache this = true ->
   forall blockHash block,
     peek (blockCache (cache this)) blockHash = Some block ->
     (GetBlock this' blockHash).1 = Ok block).
Proof.
  unfold ClearAll, iterate in Hclear.
  cbn [BlockStore_NewBatch store set_store NewBatch fault db] in Hclear.
  destruct (fault (store this)) eqn:Hfault; [discriminate |].
  set (keys := (map_to_list (db (store this))).*1) in *.
  apply CommitTo_ok in Hclear as (_ & Hfault' & Hdb & _ & Hen & Hcache).
  cbn [store set_store] in Hdb.
  destruct (foldl_BatchDelete keys (NewBatch (store this))) as (Hd & _ & Hb).
  cbn [NewBatch db batch app] in Hd, Hb.
  assert (Hempty : forall key, Get (store this') key = Err ErrNotFound).
  { intros key. unfold Get. rewrite Hfault', Hdb.
    rewrite Hd, Hb, foldl_write_op_lookup, last_write_deletes.
    destruct (decide (key ∈ keys)) as [Hin | Hnin]; [reflexivity |].
    destruct (db (store this) !! key) as [value |] eqn:Hkey; [| reflexivity].
    exfalso. apply Hnin. subst keys.
    apply list_elem_of_fmap. exists (key, value). split; [reflexivity |].
    apply elem_of_map_to_list. assumption. }
  split; [assumption |]. split; [assumption |].
  intros Hon blockHash block Hpeek.
  destruct (GetBlock_spec this' blockHash) as [_ ->].
  unfold block_view.
  cbn [enableCache BlockStore_NewBatch set_store] in Hen.
  cbn [cache BlockStore_NewBatch set_store] in Hcache.
  rewrite Hen, Hon, Hcache, Hpeek. reflexivity.
Qed.



Section RoundTrips.
Context `{!TypesLaws}.

(** A transaction saved at a [uint32] height and committed is read back by
    its hash, with that height, cache enabled or not. *)
Theorem SaveTransaction_then_GetTransaction (this this1 this2 : BlockStore)
    (tx : Transaction) (height : Z)
    (Hheight : 0 <= height < 2 ^ 32)
    (Hsave : SaveTransaction this tx height = (None, this1))
    (Hcommit : CommitTo this1 = (None, this2)) :
  (GetTransaction this2 (Transaction_Hash tx)).1 = Ok (Some tx, height).
Proof.
  assert (Hrun : save_transactions this [tx] height = (None, this1))
    by (cbn [save_transactions]; rewrite Hsave; reflexivity).
  apply save_transactions_ok in Hrun
    as (ops & Hops & Hdb & _ & Hbatch & Hen & _ & Htc).
  apply Forall2_cons_inv_l in Hops as (op & ops' & (written & Hw & ->) & Hnil
                                       & ->).
  apply Forall2_nil_inv_l in Hnil as ->.
  apply CommitTo_ok in Hcommit as (_ & Hfault2 & Hdb2 & _ & Hen2 & Hcache2).
  destruct (GetTransaction_spec this2 (Transaction_Hash tx)) as [_ ->].
  assert (Hstored : stored_transaction (store this2) (Transaction_Hash tx)
                    = Ok (Some tx, height)).
  { unfold stored_transaction, Get.
    rewrite Hfault2, Hdb2, Hbatch, write_op_last.
    rewrite Uint32_PutUint32 by assumption.
    rewrite (Transaction_round_trip tx written Hw). reflexivity. }
  unfold transaction_view. destruct (enableCache this2) eqn:Hon;
    [| assumption].
  destruct (peek (transactionCache (cache this2)) (Transaction_Hash tx))
    as [[tx' height'] |] eqn:Hpeek; [| assumption].
  rewrite Hcache2, Htc, <- Hen, <- Hen2 in Hpeek. cbn [foldl] in Hpeek.
  apply peek_lru_Add in Hpeek as [[_ [= -> ->]] | [Hne _]];
    [reflexivity | congruence].
Qed.

(** A header saved with [SaveHeader] and committed is read back by
    [GetHeader] when no block is cached under the hash, and [ContainBlock]
    answers "yes", although none of the block's transactions need be
    stored. *)
Theorem SaveHeader_then_GetHeader (this this' : BlockStore) (block : Block)
    (Hmiss : block_cache_miss this (Hash block))
    (Hcommit : CommitTo (SaveHeader this block).2 = (None, this')) :
  (GetHeader this' (Hash block)).1 = Ok (blk_Header block) /\
  ContainBlock this' (Hash block) = Ok true.
Proof.
  rewrite SaveHeader_eq in Hcommit. cbn [snd] in Hcommit.
  pose proof (committed_put _ _ _ _ Hcommit) as Hget.
  apply CommitTo_ok in Hcommit as (_ & _ & _ & _ & Hen & Hcache).
  cbn [enableCache cache set_store] in Hen, Hcache.
  assert (Hmiss' : block_cache_miss this' (Hash block)).
  { unfold block_cache_miss. rewrite Hen, Hcache. exact Hmiss. }
  destruct (block_view_miss this' (Hash block) Hmiss') as (_ & Hh & Hc).
  destruct (GetHeader_spec this' (Hash block)) as [_ ->].
  rewrite Hh. unfold loadHeader, ContainBlock. rewrite Hc, Hget.
  unfold header_value. rewrite Header_round_trip. split; reflexivity.
Qed.

End RoundTrips.

End BlockStoreMore.

(** *** The properties of this part on explicit inputs *)

Section EntrancePathsExamples.
Import cross_chain_manager.

(** Chain 9 is registered and has no handler. *)
Lemma ImportExTransfer_unsupported_source_witness :
  let n := {| demo.input := [x09; x01];
              demo.side_chains :=
                <[9 := {| ChainId := 9; Router := 9 |}]> demo.registry;
              demo.outgoing := [] |} in
  ImportExTransfer n =
    (([x00], Some (Errorf "not a supported chainid:%d" [ArgNum 9])),
     n, [Call_GetSideChain 9]).
Proof.
  intros n.
  pose (params := {| SourceChainID := 9; TargetChainID := 1; Height := 0;
                     Proof := []; TxData := []; RelayerAddress := [];
                     Value := [] |}).
  assert (H1 : EntranceParam_Deserialization (GetInput n) = Ok params)
    by reflexivity.
  assert (H2 : GetSideChain n (SourceChainID params)
               = Ok {| ChainId := 9; Router := 9 |}) by reflexivity.
  assert (H3 : SourceChainID params
               ∉ [BTC_CHAIN_ID; ETH_CHAIN_ID; ONT_CHAIN_ID; NEO_CHAIN_ID]).
  { cbn. rewrite !not_elem_of_cons. repeat split; try discriminate.
    apply not_elem_of_nil. }
  exact (ImportExTransfer_unsupported_source n params _ H1 H2 eq_refl H3).
Defined.

(** Source chain 1 is registered and its handler rejects the proof. *)
Lemma ImportExTransfer_proposal_failure_witness :
  let n := demo.service x01 x03 in
  @ImportExTransfer demo.Service demo.rejecting_native n =
    (([x00], Some (ErrOther "invalid proof")), n,
     [Call_GetSideChain 1; Call_MakeDepositProposal BTCHandler]).
Proof.
  intros n.
  pose (params := {| SourceChainID := 1; TargetChainID := 3; Height := 0;
                     Proof := []; TxData := []; RelayerAddress := [];
                     Value := [] |}).
  assert (H1 : @EntranceParam_Deserialization _ demo.rejecting_native
                 (@GetInput _ demo.rejecting_native n) = Ok params)
    by reflexivity.
  assert (H2 : @GetSideChain _ demo.rejecting_native n (SourceChainID params)
               = Ok {| ChainId := 1; Router := 1 |}) by reflexivity.
  assert (H3 : @GetChainHandler _ demo.rejecting_native (SourceChainID params)
               = Ok BTCHandler) by reflexivity.
  assert (H4 : @MakeDepositProposal _ demo.rejecting_native BTCHandler n
               = (Err (ErrOther "invalid proof"), n)) by reflexivity.
  exact (@ImportExTransfer_proposal_failure demo.Service
           demo.rejecting_native n n params _ BTCHandler _
           H1 H2 eq_refl H3 H4).
Defined.

(** Source chain 2 is registered; the proposal names chain 7, which is
    not. *)
Lemma ImportExTransfer_target_failure_witness :
  let n := demo.service x02 x07 in
  exists err,
    ImportExTransfer n =
      (([x00], Some err), n,
       [Call_GetSideChain 2; Call_MakeDepositProposal ETHHandler;
        Call_GetSideChain 7]).
Proof.
  intros n.
  pose (params := {| SourceChainID := 2; TargetChainID := 7; Height := 0;
                     Proof := []; TxData := []; RelayerAddress := [];
                     Value := [] |}).
  pose (p := {| TxHash := [x02; x07]; ToChainID := 7; ToAddress := [x61];
                Amount := 10 |}).
  assert (H1 : EntranceParam_Deserialization (GetInput n) = Ok params)
    by reflexivity.
  assert (H2 : GetSideChain n (SourceChainID params)
               = Ok {| ChainId := 2; Router := 2 |}) by reflexivity.
  assert (H3 : GetChainHandler (SourceChainID params) = Ok ETHHandler)
    by reflexivity.
  assert (H4 : MakeDepositProposal ETHHandler n = (Ok p, n)) by reflexivity.
  assert (H5 : GetSideChain n (ToChainID p) = Err ErrNotFound)
    by reflexivity.
  exact (ImportExTransfer_target_failure n n params _ ETHHandler p
           H1 H2 eq_refl H3 (or_introl eq_refl) H4
           (or_introl (ex_intro _ ErrNotFound H5))).
Defined.

(** One vote cast: the vote does not pass. *)
Lemma Vote_not_passed_witness :
  let n := demo.service x01 x03 in
  Vote n = (([x01], None), n, []).
Proof.
  intros n.
  pose (p := {| TxHash := [x01; x03]; ToChainID := 3; ToAddress := [x61];
                Amount := 10 |}).
  assert (H1 : BTCHandler_Vote n = (Ok (false, p), n)) by reflexivity.
  exact (Vote_not_passed n n (Ok (false, p)) H1
           ltac:(intros q; discriminate)).
Defined.

(** Two votes cast for a proposal to chain 3, and the same proposal
    extracted from a proof of source chain 2. *)
Lemma Vote_completes_as_ImportExTransfer_witness :
  let n := demo.service x02 x03 in
  (ImportExTransfer n).1 = (Vote n).1 /\
  (ImportExTransfer n).2 =
    [Call_GetSideChain 2; Call_MakeDepositProposal ETHHandler] ++ (Vote n).2.
Proof.
  intros n.
  pose (params := {| SourceChainID := 2; TargetChainID := 3; Height := 0;
                     Proof := []; TxData := []; RelayerAddress := [];
                     Value := [] |}).
  pose (p := {| TxHash := [x02; x03]; ToChainID := 3; ToAddress := [x61];
                Amount := 10 |}).
  assert (H1 : EntranceParam_Deserialization (GetInput n) = Ok params)
    by reflexivity.
  assert (H2 : GetSideChain n (SourceChainID params)
               = Ok {| ChainId := 2; Router := 2 |}) by reflexivity.
  assert (H3 : GetChainHandler (SourceChainID params) = Ok ETHHandler)
    by reflexivity.
  assert (H4 : MakeDepositProposal ETHHandler n = (Ok p, n)) by reflexivity.
  assert (H5 : BTCHandler_Vote n = (Ok (true, p), n)) by reflexivity.
  exact (Vote_completes_as_ImportExTransfer n n n params _ ETHHandler p
           H1 H2 eq_refl H3 (or_introl eq_refl) H4 H5).
Defined.

End EntrancePathsExamples.

Section HeaderSyncLoopExamples.
Import ont.

(** The operator [x2a] signs a call that carries the genesis header of chain
    1 (height 0, rotation to peer 9). *)
Lemma SyncGenesisHeader_writes_for_owner_only_witness :
  let n := demo.synced [x2a; x01; x00; x00; x09] None None in
  (SyncGenesisHeader n).2 <> n /\
  exists raw operator header,
    SyncGenesisHeaderParam_Deserialization (GetInput n) = Ok raw /\
    GenesisBookkeepers_Address = Ok operator /\
    ValidateOwner n operator = None /\
    HeaderFromRawBytes raw = Ok header.
Proof.
  intros n.
  assert (Hchanged : (SyncGenesisHeader n).2 <> n).
  { intros Heq. apply (f_equal (fun s => demo.headers s !! (1, 0))) in Heq.
    vm_compute in Heq. discriminate. }
  split; [exact Hchanged |].
  exact (SyncGenesisHeader_writes_for_owner_only n Hchanged).
Defined.

End HeaderSyncLoopExamples.

Section BlockStoreMoreExamples.
Import leveldbstore ledgerstore.

#[local] Instance byte_ledger_round_trips : TypesLaws.
Proof.
  split.
  - intros header rest. reflexivity.
  - intros tx written [= <-]. reflexivity.
Qed.

Lemma SaveBlockHash_then_GetBlockHash_witness :
  let this := BlockStore_NewBatch (demo.new_store true) in
  let this' := (CommitTo (SaveBlockHash this 5 (Hash demo.block5))).2 in
  GetBlockHash this' 5 = Ok (Hash demo.block5).
Proof.
  intros this this'.
  apply (SaveBlockHash_then_GetBlockHash this this' 5 (Hash demo.block5)).
  vm_compute. reflexivity.
Defined.

Lemma SaveCurrentBlock_then_GetCurrentBlock_witness :
  let this := BlockStore_NewBatch (demo.new_store true) in
  let this' :=
    (CommitTo (SaveCurrentBlock this 5 (Hash demo.block5)).2).2 in
  GetCurrentBlock this' = Ok (Hash demo.block5, 5).
Proof.
  intros this this'.
  apply (SaveCurrentBlock_then_GetCurrentBlock this this' 5
           (Hash demo.block5)).
  - lia.
  - vm_compute. reflexivity.
Defined.

Lemma block_reads_return_store_error_witness :
  let this := demo.new_store true in
  (GetBlock this (Hash demo.block5)).1 = Err ErrNotFound /\
  (GetHeader this (Hash demo.block5)).1 = Err ErrNotFound /\
  ContainBlock this (Hash demo.block5) = Ok false.
Proof.
  intros this.
  apply (block_reads_return_store_error this (Hash demo.block5) ErrNotFound).
  - right. reflexivity.
  - reflexivity.
Defined.

Lemma transaction_reads_return_store_error_witness :
  let this := demo.new_store true in
  (GetTransaction this (vreplicate 32 x0a)).1 = Err ErrNotFound /\
  ContainTransaction this (vreplicate 32 x0a) = Ok false.
Proof.
  intros this.
  apply (transaction_reads_return_store_error this (vreplicate 32 x0a)
           ErrNotFound).
  - right. reflexivity.
  - reflexivity.
Defined.

Lemma GetBlock_then_GetHeader_witness :
  let this :=
    (CommitTo (SaveBlock (BlockStore_NewBatch (demo.new_store false))
                 demo.block5).2).2 in
  (GetHeader this (Hash demo.block5)).1 = Ok x05 /\
  ContainBlock this (Hash demo.block5) = Ok true.
Proof.
  intros this.
  apply (GetBlock_then_GetHeader this (Hash demo.block5) demo.block5).
  vm_compute. reflexivity.
Defined.


Lemma ClearAll_empties_store_witness :
  let this :=
    (CommitTo (SaveBlock (BlockStore_NewBatch (demo.new_store true))
                 demo.block5).2).2 in
  let this' := (ClearAll this).2 in
  (forall key, Get (store this') key = Err ErrNotFound) /\
  cache this' = cache this /\
  (enableCache this = true ->
   forall blockHash block,
     peek (blockCache (cache this)) blockHash = Some block ->
     (GetBlock this' blockHash).1 = Ok block).
Proof.
  intros this this'.
  apply (ClearAll_empties_store this this').
  vm_compute. reflexivity.
Defined.

Section Fragile.
#[local] Existing Instance demo.fragile_ledger.


End Fragile.

Lemma SaveTransaction_then_GetTransaction_witness :
  let this := BlockStore_NewBatch (demo.new_store true) in
  let this1 := (SaveTransaction this x0a 7).2 in
  let this2 := (CommitTo this1).2 in
  (GetTransaction this2 (vreplicate 32 x0a)).1 = Ok (Some x0a, 7).
Proof.
  intros this this1 this2.
  apply (SaveTransaction_then_GetTransaction this this1 this2 x0a 7).
  - lia.
  - vm_compute. reflexivity.
  - vm_compute. reflexivity.
Defined.

Lemma SaveHeader_then_GetHeader_witness :
  let this := BlockStore_NewBatch (demo.new_store true) in
  let this' := (CommitTo (SaveHeader this demo.block5).2).2 in
  (GetHeader this' (Hash demo.block5)).1 = Ok x05 /\
  ContainBlock this' (Hash demo.block5) = Ok true.
Proof.
  intros this this'.
  apply (SaveHeader_then_GetHeader this this' demo.block5).
  - right. reflexivity.
  - vm_compute. reflexivity.
Defined.

End BlockStoreMoreExamples.
